(** * FlowerStore: the district tagger and the CSV cleaner

    A shallow embedding of [scripts/tag_districts.py] and
    [scripts/clean_flowerstores.py].

    - Python [str] is a list of Unicode code points.  Literals are written
      as UTF-8 text and decoded by [u].
    - Python [float] is IEEE binary64: Rocq's primitive [float].
    - A call that may raise returns a [result]: [Ok v] or [Raise e].
    - An insertion-ordered [dict] with [str] keys is an association list.
    - The transcendental functions of the C library, which the program
      reaches through [math], are a parameter ([libm]). *)

From Stdlib Require Import String Ascii.
From Stdlib Require Import List NArith ZArith Bool Floats Lia.
From Stdlib Require DecimalPos DecimalZ.
Import ListNotations.

Set Warnings "-inexact-float".
Open Scope list_scope.

(** ** The Python runtime, as far as the two scripts use it *)

Module Py.

(** *** Strings *)

Definition char := N.
Definition str := list char.

(** UTF-8 decoding of a source literal.  [need] counts the continuation
    bytes still expected and [acc] holds the bits read so far. *)
Fixpoint utf8_decode (need : nat) (acc : N) (bs : list N) : str :=
  match bs with
  | [] => []
  | b :: bs' =>
      match need with
      | O =>
          if (b <? 0x80)%N then b :: utf8_decode 0 0%N bs'
          else if (b <? 0xE0)%N then utf8_decode 1 (N.land b 0x1F) bs'
          else if (b <? 0xF0)%N then utf8_decode 2 (N.land b 0x0F) bs'
          else utf8_decode 3 (N.land b 0x07) bs'
      | S O => (acc * 64 + N.land b 0x3F)%N :: utf8_decode 0 0%N bs'
      | S n => utf8_decode n (acc * 64 + N.land b 0x3F)%N bs'
      end
  end.

Definition u (s : string) : str :=
  utf8_decode 0 0%N (List.map N_of_ascii (list_ascii_of_string s)).

Definition chr_eqb : char -> char -> bool := N.eqb.

Fixpoint str_eqb (a b : str) : bool :=
  match a, b with
  | [], [] => true
  | x :: a', y :: b' => chr_eqb x y && str_eqb a' b'
  | _, _ => false
  end.

(** [s.startswith(p)] *)
Fixpoint startswith (s p : str) {struct p} : bool :=
  match p with
  | [] => true
  | x :: p' =>
      match s with
      | [] => false
      | y :: s' => chr_eqb x y && startswith s' p'
      end
  end.

(** [p in s]: [p] occurs in [s] as a contiguous run. *)
Fixpoint str_in (p s : str) : bool :=
  startswith s p
  || match s with
     | [] => false
     | _ :: s' => str_in p s'
     end.

(** [str.isspace] for one code point: the set CPython's
    [_PyUnicode_IsWhitespace] accepts. *)
Definition isspace (c : char) : bool :=
  ((0x09 <=? c) && (c <=? 0x0D) || (0x1C <=? c) && (c <=? 0x20)
   || (c =? 0x85) || (c =? 0xA0) || (c =? 0x1680)
   || (0x2000 <=? c) && (c <=? 0x200A)
   || (c =? 0x2028) || (c =? 0x2029) || (c =? 0x202F)
   || (c =? 0x205F) || (c =? 0x3000))%N.

Fixpoint lstrip (s : str) : str :=
  match s with
  | [] => []
  | c :: s' => if isspace c then lstrip s' else s
  end.

Definition rstrip (s : str) : str := rev (lstrip (rev s)).

(** [s.strip()] *)
Definition strip (s : str) : str := rstrip (lstrip s).

(** *** Exceptions *)

Inductive exn : Set :=
  ValueError | OverflowError | KeyError | TypeError | AttributeError.

Inductive result (A : Type) : Type :=
| Ok (a : A)
| Raise (e : exn).
Arguments Ok {A} a.
Arguments Raise {A} e.

Definition bind {A B} (r : result A) (k : A -> result B) : result B :=
  match r with
  | Ok a => k a
  | Raise e => Raise e
  end.

(** *** Dictionaries *)

Definition dict (V : Type) := list (str * V).

(** [d.get(k)] *)
Fixpoint dict_get {V} (d : dict V) (k : str) : option V :=
  match d with
  | [] => None
  | (k', v) :: d' => if str_eqb k' k then Some v else dict_get d' k
  end.

(** [k in d] *)
Definition dict_contains {V} (d : dict V) (k : str) : bool :=
  match dict_get d k with
  | Some _ => true
  | None => false
  end.

(** [d[k]] *)
Definition dict_getitem {V} (d : dict V) (k : str) : result V :=
  match dict_get d k with
  | Some v => Ok v
  | None => Raise KeyError
  end.

(** The keys of [d], in the order a loop over [d] sees them. *)
Definition dict_keys {V} (d : dict V) : list str := map fst d.

(** [d[k] = v]: an existing key keeps its position, a new key goes last. *)
Fixpoint dict_setitem {V} (d : dict V) (k : str) (v : V) : dict V :=
  match d with
  | [] => [(k, v)]
  | (k', v') :: d' =>
      if str_eqb k' k then (k', v) :: d' else (k', v') :: dict_setitem d' k v
  end.

(** A dict display [{k1: v1, ...}] is filled entry by entry. *)
Definition dict_of_items {V} (items : list (str * V)) : dict V :=
  fold_left (fun d kv => dict_setitem d (fst kv) (snd kv)) items [].

(** [d.get(k, default)] *)
Definition dict_get_default {V} (d : dict V) (k : str) (default : V) : V :=
  match dict_get d k with
  | Some v => v
  | None => default
  end.

(** [[f(x) for x in items]]: the first exception ends the comprehension. *)
Fixpoint list_comp {A B} (f : A -> result B) (items : list A)
  : result (list B) :=
  match items with
  | [] => Ok []
  | x :: rest =>
      bind (f x) (fun y => bind (list_comp f rest) (fun ys => Ok (y :: ys)))
  end.

End Py.

Import Py.

Notation "'let*' x ':=' e 'in' k" := (bind e (fun x => k))
  (at level 10, x name, e at level 100, k at level 200).

(** ** Floating point: [float(...)] on a numeral, [**], and [math] *)

Module PyFloat.

Local Open Scope float_scope.

(** *** Decimal numerals to binary64

    [m / d] rounded to the nearest binary64 value, ties to even: the
    quotient is taken with at least [prec + 3] bits and the remainder
    decides the rounding direction. *)
Definition round_ratio (neg : bool) (m d : Z) : spec_float :=
  if (m =? 0)%Z then S754_zero neg
  else
    let s := Z.max 0 (prec + 3 + Z.log2_up d - Z.log2 m) in
    let n := (m * 2 ^ s)%Z in
    let q := (n / d)%Z in
    let r := (n mod d)%Z in
    let l := if (r =? 0)%Z then loc_Exact else loc_Inexact (2 * r ?= d)%Z in
    binary_round_aux prec emax neg q (- s) l.

Definition is_digit (c : char) : bool := ((0x30 <=? c) && (c <=? 0x39))%N.

(** The longest prefix of [s] whose characters satisfy [p], and the rest. *)
Fixpoint span (p : char -> bool) (s : str) : str * str :=
  match s with
  | [] => ([], [])
  | c :: s' =>
      if p c then let (a, b) := span p s' in (c :: a, b) else ([], s)
  end.

Definition digits_value (ds : str) : Z :=
  fold_left (fun acc c => (acc * 10 + (Z.of_N c - 0x30))%Z) ds 0%Z.

(** [float(s)] for a string [s] over digits, ['.'], ['+'] and ['-'], the
    only strings [extract_coords] passes to it: an optional sign, then
    digits with at most one point and at least one digit.  Anything else
    is [ValueError].  (The rest of [float]'s grammar, blanks, exponents,
    underscores, [inf], [nan], needs characters outside that alphabet.)
    A value beyond the binary64 range becomes an infinity, not an
    exception. *)
Definition float_of_str (s : str) : result float :=
  let (neg, body) :=
    match s with
    | 0x2D%N :: s' => (true, s')
    | 0x2B%N :: s' => (false, s')
    | _ => (false, s)
    end in
  let (int_part, rest) := span is_digit body in
  let (frac_part, rest') :=
    match rest with
    | 0x2E%N :: r => span is_digit r
    | _ => ([], rest)
    end in
  match rest', int_part ++ frac_part with
  | [], _ :: _ =>
      Ok (SF2Prim (round_ratio neg (digits_value (int_part ++ frac_part))
                     (10 ^ Z.of_nat (length frac_part))))
  | _, _ => Raise ValueError
  end.

(** *** The C library *)

Record libm : Type := {
  libm_sin : float -> float;
  libm_cos : float -> float;
  libm_atan2 : float -> float -> float;
  (** [x |-> pow(x, 2.0)], the one exponent the program uses *)
  libm_pow2 : float -> float
}.

Section Math.

Variable M : libm.

(** C99 Annex F: the sine and cosine of an infinity are NaN. *)
Definition c_sin (x : float) : float :=
  if is_infinity x then nan else libm_sin M x.
Definition c_cos (x : float) : float :=
  if is_infinity x then nan else libm_cos M x.

(** CPython's [math_1] with [can_overflow = 0]: a NaN result from a
    non-NaN argument, or an infinite result from a finite argument, is
    a [ValueError] ("math domain error"). *)
Definition math_1 (func : float -> float) (x : float) : result float :=
  let r := func x in
  if is_nan r && negb (is_nan x) then Raise ValueError
  else if is_infinity r && is_finite x then Raise ValueError
  else Ok r.

(** CPython's [math_2]. *)
Definition math_2 (func : float -> float -> float) (x y : float)
  : result float :=
  let r := func x y in
  if is_nan r then
    if negb (is_nan x) && negb (is_nan y) then Raise ValueError else Ok r
  else if is_infinity r then
    if is_finite x && is_finite y then Raise OverflowError else Ok r
  else Ok r.

Definition math_sin : float -> result float := math_1 c_sin.
Definition math_cos : float -> result float := math_1 c_cos.
Definition math_sqrt : float -> result float := math_1 sqrt.
Definition math_atan2 : float -> float -> result float :=
  math_2 (libm_atan2 M).

Definition Py_MATH_PI : float := 0x1.921fb54442d18p+1.
Definition degToRad : float := Py_MATH_PI / 180.

(** [math.radians] *)
Definition math_radians (x : float) : float := x * degToRad.

(** [x ** 2] on a float (CPython's [float_pow] with exponent [2.0]): NaN,
    infinities, zeros and one are answered directly; otherwise the C
    library's [pow] is called on [|x|], and an infinite result is an
    [OverflowError]. *)
Definition float_pow_2 (iv : float) : result float :=
  if is_nan iv then Ok iv
  else if is_infinity iv then Ok (abs iv)
  else if iv =? 0 then Ok 0
  else
    let iv := if iv <? 0 then - iv else iv in
    if iv =? 1 then Ok 1
    else
      let ix := libm_pow2 M iv in
      if is_infinity ix then Raise OverflowError else Ok ix.

End Math.

(** A low-order Taylor instance of [libm], accurate for small angles;
    it is used to run the model on concrete coordinates. *)
Definition taylor_libm : libm := {|
  libm_sin := fun x => x - x * x * x / 6 + x * x * x * x * x / 120;
  libm_cos := fun x => 1 - x * x / 2 + x * x * x * x / 24;
  libm_atan2 := fun y x => let t := y / x in t - t * t * t / 3;
  libm_pow2 := fun x => x * x
|}.

End PyFloat.

Import PyFloat.

(** ** Regular expressions, as far as [COORD_RE] needs them *)

Module Re.

(** A pattern is a sequence of literals and capturing groups of the form
    [([...]+)]: one or more characters of a class, greedy. *)
Inductive item : Type :=
| Lit (s : str)
| GroupPlus (cls : char -> bool).

Definition pattern := list item.

(** The greedy loop of a group: take characters of the class as long as
    possible, and give back one at a time while the rest of the pattern,
    [k], fails.  [taken] is the text consumed so far, reversed. *)
Fixpoint greedy (cls : char -> bool) (k : str -> option (list str))
    (taken : str) (s : str) : option (list str) :=
  let stop :=
    match taken with
    | [] => None
    | _ :: _ => option_map (cons (rev taken)) (k s)
    end in
  match s with
  | [] => stop
  | c :: s' =>
      if cls c then
        match greedy cls k (c :: taken) s' with
        | Some groups => Some groups
        | None => stop
        end
      else stop
  end.

(** [pattern.match(s)]: the groups of the match that starts at the first
    character of [s], found by backtracking. *)
Fixpoint match_ (p : pattern) (s : str) : option (list str) :=
  match p with
  | [] => Some []
  | Lit l :: p' =>
      if startswith s l then match_ p' (skipn (length l) s) else None
  | GroupPlus cls :: p' => greedy cls (match_ p') [] s
  end.

(** [pattern.search(s)]: the match at the leftmost position that has one. *)
Fixpoint search (p : pattern) (s : str) : option (list str) :=
  match match_ p s with
  | Some groups => Some groups
  | None =>
      match s with
      | [] => None
      | _ :: s' => search p s'
      end
  end.

(** [m.group(i)] for [i >= 1] *)
Definition group (m : list str) (i : nat) : str := nth (pred i) m [].

End Re.

(** ** [collections.Counter] and [csv.DictWriter] *)

Module Collections.

(** [mapping[elem] = mapping.get(elem, 0) + 1] *)
Definition count_element (mapping : dict Z) (elem : str) : dict Z :=
  dict_setitem mapping elem (dict_get_default mapping elem 0 + 1)%Z.

(** [Counter(iterable)] *)
Definition Counter (iterable : list str) : dict Z :=
  fold_left count_element iterable [].

(** [sorted(items, key=itemgetter(1), reverse=True)].  The sort is stable:
    items with equal counts keep their order.  A stable sort has one
    possible result, computed here by insertion. *)
Fixpoint insert_by_count (x : str * Z) (sorted : list (str * Z))
  : list (str * Z) :=
  match sorted with
  | [] => [x]
  | y :: rest =>
      if (snd y <=? snd x)%Z then x :: y :: rest
      else y :: insert_by_count x rest
  end.

Definition sorted_by_count (items : list (str * Z)) : list (str * Z) :=
  fold_right insert_by_count [] items.

(** [c.most_common()] *)
Definition most_common (c : dict Z) : list (str * Z) := sorted_by_count c.

End Collections.

Module Csv.

(** [DictWriter._dict_to_list], with [restval=""] and
    [extrasaction="raise"]: a key outside [fieldnames] is a [ValueError];
    a field the row lacks is written empty. *)
Definition dict_to_list (fieldnames : list str) (rowdict : dict str)
  : result (list str) :=
  if forallb (fun k => existsb (str_eqb k) fieldnames) (dict_keys rowdict)
  then Ok (map (fun key => dict_get_default rowdict key []) fieldnames)
  else Raise ValueError.

(** [writer.writeheader()] followed by [writer.writerow(row)] for each row:
    the records handed to the underlying writer, in order. *)
Definition DictWriter_records (fieldnames : list str) (rows : list (dict str))
  : result (list (list str)) :=
  let* header :=
    dict_to_list fieldnames (dict_of_items (combine fieldnames fieldnames)) in
  let* records := list_comp (dict_to_list fieldnames) rows in
  Ok (header :: records).

End Csv.

(** ** [scripts/tag_districts.py] *)

Module TagDistricts.

Local Open Scope float_scope.

Module Centroid.
Record t : Type := { name : str; lat : float; lon : float }.
End Centroid.
Abbreviation Centroid := Centroid.Build_t.

(** Centroids are approximate but stable anchors for nearby districts. *)
Definition CENTROIDS : list Centroid.t :=
  [ Centroid (u "新北市板橋區") 25.0112 121.4637;
    Centroid (u "新北市中和區") 24.9990 121.4870;
    Centroid (u "新北市永和區") 25.0090 121.5150;
    Centroid (u "新北市土城區") 24.9730 121.4440;
    Centroid (u "新北市新莊區") 25.0370 121.4510;
    Centroid (u "台北市松山區") 25.0520 121.5560;
    Centroid (u "台北市中山區") 25.0620 121.5330;
    Centroid (u "台北市文山區") 24.9950 121.5540 ].

(** The three tables, each in the order of its dict display: direct
    keywords in any text field; road-name hints for common streets around
    the target districts; manual fixes when rules and coordinates still
    need a nudge. *)
Definition DISTRICT_KEYWORDS : dict str :=
  [
    (u "板橋", u "新北市板橋區");
    (u "中和", u "新北市中和區");
    (u "永和", u "新北市永和區")
  ].

Definition ROAD_TO_DISTRICT : dict str :=
  [
    (* 板橋 *)
    (u "新海路", u "新北市板橋區");
    (u "中正路", u "新北市板橋區");
    (u "英士路", u "新北市板橋區");
    (u "民生路二段", u "新北市板橋區");
    (u "民生路一段", u "新北市板橋區");
    (u "民生路", u "新北市板橋區");
    (u "文化路一段", u "新北市板橋區");
    (u "文化路二段", u "新北市板橋區");
    (u "板橋花市", u "新北市板橋區");
    (u "中山路一段", u "新北市板橋區");
    (u "中山路二段", u "新北市板橋區");
    (u "南雅南路", u "新北市板橋區");
    (u "板新路", u "新北市板橋區");
    (u "漢生東路", u "新北市板橋區");
    (u "縣民大道", u "新北市板橋區");
    (u "立德路", u "新北市板橋區");
    (u "民德路", u "新北市板橋區");
    (u "民權路", u "新北市板橋區");
    (u "民族路", u "新北市板橋區");
    (u "倉後街", u "新北市板橋區");
    (u "長安街", u "新北市板橋區");
    (u "校前街", u "新北市板橋區");
    (u "陽明街", u "新北市板橋區");
    (u "海山路", u "新北市板橋區");
    (u "南華路", u "新北市板橋區");
    (u "信義路", u "新北市板橋區");
    (u "南門街", u "新北市板橋區");
    (u "民生街", u "新北市板橋區");
    (u "三民路", u "新北市板橋區");
    (u "四川路一段", u "新北市板橋區");
    (u "四川路二段", u "新北市板橋區");
    (u "藝文街", u "新北市板橋區");
    (* 中和 *)
    (u "連城路", u "新北市中和區");
    (u "景新街", u "新北市中和區");
    (u "和平路", u "新北市中和區");
    (u "和平街", u "新北市中和區");
    (u "中和路", u "新北市中和區");
    (u "員山路", u "新北市中和區");
    (u "南山路", u "新北市中和區");
    (u "保健路", u "新北市中和區");
    (* 永和 *)
    (u "延和路", u "新北市永和區");
    (* 土城 *)
    (u "裕民路", u "新北市土城區");
    (u "金城路", u "新北市土城區");
    (u "忠孝路", u "新北市土城區");
    (* 其他鄰近行政區 *)
    (u "瓊林路", u "新北市新莊區");
    (u "敦化北路", u "台北市松山區");
    (u "長安東路", u "台北市中山區");
    (u "萬寧街", u "台北市文山區")
  ].

Definition MANUAL_OVERRIDES : dict str :=
  [
    (u "台北愛麗絲花坊網路花店", u "台北市松山區");
    (u "玖桉花藝 南京復興", u "台北市中山區");
    (u "榆果工作室 ( 榆果傢飾 )", u "台北市文山區");
    (u "花見鍾情花坊", u "新北市土城區");
    (u "Millie米莉花藝坊", u "新北市土城區");
    (u "麗的花坊工作室", u "新北市板橋區")
  ].

(** [[0-9.+-]] *)
Definition coord_class (c : char) : bool :=
  (is_digit c || (c =? 0x2E) || (c =? 0x2B) || (c =? 0x2D))%N.

(** [re.compile(r"!3d([0-9.+-]+)!4d([0-9.+-]+)")] *)
Definition COORD_RE : Re.pattern :=
  [ Re.Lit (u "!3d"); Re.GroupPlus coord_class;
    Re.Lit (u "!4d"); Re.GroupPlus coord_class ].

(** The label of a record no rule resolves. *)
Definition UNRESOLVED : str := u "待確認".

Section WithLibm.

Variable M : libm.

(** Rough distance in kilometers using the haversine formula. *)
Definition great_circle_distance (lat1 lon1 lat2 lon2 : float)
  : result float :=
  let r := 6371.0 in
  let phi1 := math_radians lat1 in
  let phi2 := math_radians lat2 in
  let dphi := math_radians (lat2 - lat1) in
  let dlambda := math_radians (lon2 - lon1) in
  let* s1 := math_sin M (dphi / 2) in
  let* h1 := float_pow_2 M s1 in
  let* c1 := math_cos M phi1 in
  let* c2 := math_cos M phi2 in
  let* s2 := math_sin M (dlambda / 2) in
  let* h2 := float_pow_2 M s2 in
  let a := h1 + c1 * c2 * h2 in
  let* q1 := math_sqrt a in
  let* q2 := math_sqrt (1 - a) in
  let* t := math_atan2 M q1 q2 in
  Ok (2 * r * t).

(** The dict comprehension of [nearest_centroid]. *)
Fixpoint distances_of (lat lon : float) (centroids : list Centroid.t)
    (distances : dict float) : result (dict float) :=
  match centroids with
  | [] => Ok distances
  | centroid :: rest =>
      let* d := great_circle_distance lat lon
                  (Centroid.lat centroid) (Centroid.lon centroid) in
      distances_of lat lon rest
        (dict_setitem distances (Centroid.name centroid) d)
  end.

(** [a < b] on what [distances.get] returns: a float, or [None], which
    does not compare. *)
Definition lt_ (a b : option float) : result bool :=
  match a, b with
  | Some x, Some y => Ok (x <? y)
  | _, _ => Raise TypeError
  end.

(** The loop of [min(iterable, key=...)]: a later item replaces the
    current one only when its key is strictly smaller. *)
Fixpoint min_loop (key : str -> option float) (best : str)
    (best_key : option float) (items : list str) : result str :=
  match items with
  | [] => Ok best
  | item :: rest =>
      let item_key := key item in
      let* smaller := lt_ item_key best_key in
      if smaller then min_loop key item item_key rest
      else min_loop key best best_key rest
  end.

(** [min(iterable, key=key)] *)
Definition min_ (iterable : list str) (key : str -> option float)
  : result str :=
  match iterable with
  | [] => Raise ValueError
  | item :: rest => min_loop key item (key item) rest
  end.

Definition nearest_centroid (lat lon : float) : result str :=
  let* distances := distances_of lat lon CENTROIDS [] in
  min_ (dict_keys distances) (dict_get distances).

Definition extract_coords (url : str)
  : result (option float * option float) :=
  match Re.search COORD_RE url with
  | None => Ok (None, None)
  | Some m =>
      let* la := float_of_str (Re.group m 1) in
      let* lo := float_of_str (Re.group m 2) in
      Ok (Some la, Some lo)
  end.

(** [for key, district in table.items(): if key in text: return district];
    [None] when the loop ends without returning. *)
Fixpoint first_hit (items : list (str * str)) (text : str) : option str :=
  match items with
  | [] => None
  | (key, district) :: rest =>
      if str_in key text then Some district else first_hit rest text
  end.

Definition infer_district (name address url : str)
    (lat lon : option float) : result str :=
  let combined := name ++ u " " ++ address ++ u " " ++ url in
  match first_hit DISTRICT_KEYWORDS combined with
  | Some district => Ok district
  | None =>
      match first_hit ROAD_TO_DISTRICT address with
      | Some district => Ok district
      | None =>
          if dict_contains MANUAL_OVERRIDES name then
            dict_getitem MANUAL_OVERRIDES name
          else
            match lat, lon with
            | Some lat, Some lon => nearest_centroid lat lon
            | _, _ => Ok UNRESOLVED
            end
      end
  end.

(** The part of [normalize_row] that produces the district, from the
    three columns it reads: the coordinates come from the raw URL, the
    classifier gets the stripped fields. *)
Definition row_district (qBF1Pd address href : str) : result str :=
  let* coords := extract_coords href in
  let (lat, lon) := coords in
  let name := strip qBF1Pd in
  let address := strip address in
  let url := strip href in
  infer_district name address url lat lon.

Definition normalize_row (row : dict str) : result (dict str) :=
  let* coords := extract_coords (dict_get_default row (u "hfpxzc href") []) in
  let (lat, lon) := coords in
  let name := strip (dict_get_default row (u "qBF1Pd") []) in
  let address := strip (dict_get_default row [] []) in
  let url := strip (dict_get_default row (u "hfpxzc href") []) in
  let rating := strip (dict_get_default row (u "評分") []) in
  let rating_count := strip (dict_get_default row (u "評分數") []) in
  let phone := strip (dict_get_default row (u "UsdlK") []) in
  let image := strip (dict_get_default row (u "FQ2IWe src") []) in
  let* district := infer_district name address url lat lon in
  Ok (dict_of_items
        [ (u "name", name);
          (u "address", address);
          (u "url", url);
          (u "rating", rating);
          (u "rating_count", rating_count);
          (u "phone", phone);
          (u "image", image);
          (u "district", district) ]).

(** The column list of [write_csv]. *)
Definition fieldnames : list str :=
  [ u "name"; u "address"; u "url"; u "rating"; u "rating_count";
    u "phone"; u "image"; u "district" ].

(** [write_csv], as the records it hands to the CSV writer. *)
Definition write_csv (rows : list (dict str)) : result (list (list str)) :=
  Csv.DictWriter_records fieldnames rows.

(** A row as [csv.DictReader] yields it.  A record shorter than the
    header has [None] under the columns it lacks.  (The fields of a
    longer record go under the key [None], which no lookup by column
    name reaches.) *)
Definition reader_row := dict (option str).

(** [COORD_RE.search(url)] wants a string: on [None] it is a
    [TypeError]. *)
Definition extract_coords_of (url : option str)
  : result (option float * option float) :=
  match url with
  | Some url => extract_coords url
  | None => Raise TypeError
  end.

(** [value.strip()]: [None] has no such method. *)
Definition strip_of (value : option str) : result str :=
  match value with
  | Some value => Ok (strip value)
  | None => Raise AttributeError
  end.

(** [normalize_row] as it runs on a row of the reader, statement by
    statement.  On a row of strings it is [normalize_row]. *)
Definition normalize_row_of_reader (row : reader_row) : result (dict str) :=
  let* coords :=
    extract_coords_of (dict_get_default row (u "hfpxzc href") (Some [])) in
  let (lat, lon) := coords in
  let* name := strip_of (dict_get_default row (u "qBF1Pd") (Some [])) in
  let* address := strip_of (dict_get_default row [] (Some [])) in
  let* url := strip_of (dict_get_default row (u "hfpxzc href") (Some [])) in
  let* rating := strip_of (dict_get_default row (u "評分") (Some [])) in
  let* rating_count :=
    strip_of (dict_get_default row (u "評分數") (Some [])) in
  let* phone := strip_of (dict_get_default row (u "UsdlK") (Some [])) in
  let* image := strip_of (dict_get_default row (u "FQ2IWe src") (Some [])) in
  let* district := infer_district name address url lat lon in
  Ok (dict_of_items
        [ (u "name", name);
          (u "address", address);
          (u "url", url);
          (u "rating", rating);
          (u "rating_count", rating_count);
          (u "phone", phone);
          (u "image", image);
          (u "district", district) ]).

(** [main] on the rows the reader yields: the records written to the
    tagged file, the district counts, and the lines of the summary. *)
Definition main (reader : list reader_row)
  : result (list (list str) * dict Z * list (str * Z)) :=
  let* tagged_rows := list_comp normalize_row_of_reader reader in
  let* written := write_csv tagged_rows in
  let* districts :=
    list_comp (fun row => dict_getitem row (u "district")) tagged_rows in
  let counts := Collections.Counter districts in
  Ok (written, counts, Collections.most_common counts).

End WithLibm.

End TagDistricts.

(** ** [scripts/clean_flowerstores.py] *)

Module CleanFlowerstores.

Fixpoint digits_of_uint (d : Decimal.uint) : str :=
  match d with
  | Decimal.Nil => []
  | Decimal.D0 d' => 0x30%N :: digits_of_uint d'
  | Decimal.D1 d' => 0x31%N :: digits_of_uint d'
  | Decimal.D2 d' => 0x32%N :: digits_of_uint d'
  | Decimal.D3 d' => 0x33%N :: digits_of_uint d'
  | Decimal.D4 d' => 0x34%N :: digits_of_uint d'
  | Decimal.D5 d' => 0x35%N :: digits_of_uint d'
  | Decimal.D6 d' => 0x36%N :: digits_of_uint d'
  | Decimal.D7 d' => 0x37%N :: digits_of_uint d'
  | Decimal.D8 d' => 0x38%N :: digits_of_uint d'
  | Decimal.D9 d' => 0x39%N :: digits_of_uint d'
  end.

(** [str(n)] for an [int] *)
Definition str_of_int (n : Z) : str :=
  match Z.to_int n with
  | Decimal.Pos d => digits_of_uint d
  | Decimal.Neg d => 0x2D%N :: digits_of_uint d
  end.

Definition COLUMN_MAP : dict str :=
  [ (u "hfpxzc href", u "url");
    (u "qBF1Pd", u "name");
    (u "評分", u "rating");
    (u "評分數", u "review_count");
    ([], u "address");
    (u "UsdlK", u "phone");
    (u "FQ2IWe src", u "image_url") ].

Section WithBuiltins.

(** [float(s)] and [int(s)] on an arbitrary [str], with their full
    grammars: the value, or [None] for the [ValueError] that is the one
    exception they raise on a [str]. *)
Variable py_float : str -> option float.
Variable py_int : str -> option Z.
(** [format(x, "g")] *)
Variable format_g : float -> str.

Definition float_ (s : str) : result float :=
  match py_float s with
  | Some x => Ok x
  | None => Raise ValueError
  end.

Definition int_ (s : str) : result Z :=
  match py_int s with
  | Some n => Ok n
  | None => Raise ValueError
  end.

Definition normalize_rating (value : str) : result str :=
  let value := strip value in
  match value with
  | [] => Ok []
  | _ :: _ =>
      match (let* x := float_ value in Ok (format_g x)) with
      | Ok normalized => Ok normalized
      | Raise ValueError => Ok []
      | Raise e => Raise e
      end
  end.

Definition normalize_review_count (value : str) : result str :=
  let value := strip value in
  match value with
  | [] => Ok []
  | _ :: _ =>
      match int_ value with
      | Ok count => Ok (str_of_int count)
      | Raise ValueError => Ok []
      | Raise e => Raise e
      end
  end.

(** The body of the loop of [main] over the columns of one row: the
    value stored under [new]. *)
Definition clean_value (row : dict str) (raw new : str) : result str :=
  let value := dict_get_default row raw [] in
  if str_eqb new (u "rating") then normalize_rating value
  else if str_eqb new (u "review_count") then normalize_review_count value
  else Ok (strip value).

(** The loop of [main] over the columns of one row. *)
Fixpoint clean_columns (row : dict str) (columns : list (str * str))
    (cleaned : dict str) : result (dict str) :=
  match columns with
  | [] => Ok cleaned
  | (raw, new) :: rest =>
      let* v := clean_value row raw new in
      clean_columns row rest (dict_setitem cleaned new v)
  end.

Definition clean_row (row : dict str) : result (dict str) :=
  clean_columns row COLUMN_MAP [].

(** [main] on the rows the reader yields for records no shorter than
    the header, each a dict from column names to strings: the records
    written to the cleaned file. *)
Definition main (reader : list (dict str)) : result (list (list str)) :=
  let* records := list_comp clean_row reader in
  Csv.DictWriter_records (map snd COLUMN_MAP) records.

End WithBuiltins.

End CleanFlowerstores.

(** * Properties *)

Import TagDistricts.
Import CleanFlowerstores.

(** ** Vocabulary of the statements *)

(** Some entry of the table has its key in the text. *)
Definition hits (items : list (str * str)) (text : str) : Prop :=
  exists k d, In (k, d) items /\ str_in k text = true.

(** The keys are pairwise different. *)
Fixpoint distinct (keys : list str) : bool :=
  match keys with
  | [] => true
  | k :: rest => negb (existsb (str_eqb k) rest) && distinct rest
  end.

(** The district names the program knows: the values of the three tables
    and the names of the centroids. *)
Definition KNOWN_DISTRICTS : list str :=
  map snd DISTRICT_KEYWORDS ++ map snd ROAD_TO_DISTRICT
  ++ map snd MANUAL_OVERRIDES ++ map Centroid.name CENTROIDS.

(** No match of [p] starts at any of the first [n] positions of [s]. *)
Fixpoint no_match_before (p : Re.pattern) (n : nat) (s : str) : bool :=
  match n with
  | O => true
  | S n' =>
      match Re.match_ p s with
      | Some _ => false
      | None =>
          match s with
          | [] => true
          | _ :: s' => no_match_before p n' s'
          end
      end
  end.

(** [s] starts with a character of the class. *)
Definition starts_in (cls : char -> bool) (s : str) : bool :=
  match s with
  | [] => false
  | c :: _ => cls c
  end.

(** A non-empty run of characters of [[0-9.+-]]. *)
Definition is_token (g : str) : bool :=
  match g with
  | [] => false
  | _ :: _ => forallb coord_class g
  end.

(** The text ["!3d" g1 "!4d" g2]. *)
Definition marker (g1 g2 : str) : str := u "!3d" ++ g1 ++ u "!4d" ++ g2.

(** The first of the items with the least key. *)
Fixpoint first_least (best : str) (best_key : float)
    (items : list (str * float)) : str :=
  match items with
  | [] => best
  | (item, key) :: rest =>
      if (key <? best_key)%float then first_least item key rest
      else first_least best best_key rest
  end.

(** The distance to a centroid is computed and is a number. *)
Definition distance_defined (M : libm) (lat lon : float) (c : Centroid.t)
  : bool :=
  match great_circle_distance M lat lon (Centroid.lat c) (Centroid.lon c) with
  | Ok d => negb (is_nan d)
  | Raise _ => false
  end.

(** The distance to a centroid when it is computed. *)
Definition distance_or_nan (M : libm) (lat lon : float) (c : Centroid.t)
  : float :=
  match great_circle_distance M lat lon (Centroid.lat c) (Centroid.lon c) with
  | Ok d => d
  | Raise _ => nan
  end.

(** What the spec asks of a normalizer: the empty string when the stripped
    value is empty or does not parse, the rendering of the parsed number
    otherwise. *)
Definition normalized_or_empty {A} (parse : str -> option A)
    (render : A -> str) (value : str) : str :=
  match strip value with
  | [] => []
  | _ :: _ =>
      match parse (strip value) with
      | None => []
      | Some x => render x
      end
  end.

(** The pattern [p] cannot tell the characters of [b] from the end of the
    text: no literal holds one and no class accepts one. *)
Fixpoint blind_to (b : str) (p : Re.pattern) : Prop :=
  match p with
  | [] => True
  | Re.Lit l :: p' =>
      l <> [] /\ (forall c, In c b -> ~ In c l) /\ blind_to b p'
  | Re.GroupPlus cls :: p' =>
      (forall c, In c b -> cls c = false) /\ blind_to b p'
  end.

(** How often [k] occurs in [l]. *)
Definition occurrences (k : str) (l : list str) : Z :=
  Z.of_nat (length (filter (str_eqb k) l)).

(** The sum of the counts. *)
Definition total (c : dict Z) : Z := fold_right Z.add 0%Z (map snd c).

(** The counts go down along the list, or stay. *)
Fixpoint descending (l : list (str * Z)) : bool :=
  match l with
  | [] => true
  | x :: rest =>
      match rest with
      | [] => true
      | y :: _ => (snd y <=? snd x)%Z
      end && descending rest
  end.

(** The entries with count [n], in their order. *)
Definition with_count (n : Z) (l : list (str * Z)) : list (str * Z) :=
  filter (fun x => (snd x =? n)%Z) l.

(** The district of a written record: its last field. *)
Definition record_district (record : list str) : str := last record [].

(** A reader of plain decimal numerals, the strings [str(n)] writes. *)
Fixpoint uint_of_digits (s : str) : option Decimal.uint :=
  match s with
  | [] => Some Decimal.Nil
  | c :: s' =>
      match uint_of_digits s' with
      | None => None
      | Some d =>
          if (c =? 0x30)%N then Some (Decimal.D0 d)
          else if (c =? 0x31)%N then Some (Decimal.D1 d)
          else if (c =? 0x32)%N then Some (Decimal.D2 d)
          else if (c =? 0x33)%N then Some (Decimal.D3 d)
          else if (c =? 0x34)%N then Some (Decimal.D4 d)
          else if (c =? 0x35)%N then Some (Decimal.D5 d)
          else if (c =? 0x36)%N then Some (Decimal.D6 d)
          else if (c =? 0x37)%N then Some (Decimal.D7 d)
          else if (c =? 0x38)%N then Some (Decimal.D8 d)
          else if (c =? 0x39)%N then Some (Decimal.D9 d)
          else None
      end
  end.

Definition int_of_decimal (s : str) : option Z :=
  match s with
  | [] => None
  | 0x2D%N :: s' =>
      match s' with
      | [] => None
      | _ :: _ =>
          option_map (fun d => Z.of_int (Decimal.Neg d)) (uint_of_digits s')
      end
  | _ :: _ => option_map (fun d => Z.of_int (Decimal.Pos d)) (uint_of_digits s)
  end.

(** Rows used as examples: one with blanks around its fields and a column
    the tagger does not read, one with few columns, one that names a
    district; a reader of four rows and a short record. *)
Definition padded_row : dict str :=
  [ (u "hfpxzc href", u " https://x/data=!3d25.05!4d121.54!16s ");
    (u "qBF1Pd", u " 花店 "); ([], u "某某路1號");
    (u "評分", u "4.5 "); (u "extra", u "zz") ].

Definition sparse_row : dict str :=
  [ (u "qBF1Pd", u " 花店 "); (u "UsdlK", u "  ") ].

Definition keyword_row : dict str :=
  [ (u "qBF1Pd", u "板橋花店"); ([], u "新海路1號") ].

(** A row of strings, as a row of the reader. *)
Definition of_strings (row : dict str) : reader_row :=
  map (fun kv => (fst kv, Some (snd kv))) row.

Definition four_rows : list reader_row :=
  map of_strings
    [ [ (u "qBF1Pd", u "甲花店"); ([], u "永和路1號") ];
      [ (u "qBF1Pd", u "乙花店") ];
      [ (u "qBF1Pd", u "丙花店"); ([], u "新海路2號") ];
      [ (u "qBF1Pd", u "丁花店") ] ].

(** The row of a record that ends before the phone column. *)
Definition short_row : reader_row :=
  [ (u "qBF1Pd", Some (u "花店")); (u "UsdlK", None) ].

(** A record near the antipode of the first centroid: its URL, and the
    coordinate [float] reads from it, [-25.0111999784] and
    [-58.5362995423]. *)
Definition far_url : str :=
  u "https://maps.example/place/x/data=!3d-25.0111999784!4d-58.5362995423".
Definition far_lat : float := (-0x1.902de0074f1a4p+4)%float.
Definition far_lon : float := (-0x1.d44a576a184e6p+5)%float.

(** A C library with the correctly rounded sines and cosines of the four
    angles the distance from that record to the first centroid needs,
    an exact square, and the Taylor values elsewhere. *)
Definition libm_near_antipode : libm := {|
  libm_sin := fun x =>
    if (x =? 0x1.bf012411fdd14p-2)%float then 0x1.b0f1480d7bd97p-2%float
    else if (x =? 0x1.921fb5331b2a2p+0)%float then 1%float
    else libm_sin taylor_libm x;
  libm_cos := fun x =>
    if (x =? -0x1.bf01240ec0ce1p-2)%float then 0x1.cffcbe6efbe83p-1%float
    else if (x =? 0x1.bf0124153ad45p-2)%float then 0x1.cffcbe6d9d678p-1%float
    else libm_cos taylor_libm x;
  libm_atan2 := libm_atan2 taylor_libm;
  libm_pow2 := fun x => (x * x)%float
|}.

(** The first-order C library: the sine and the arc tangent of a small
    angle, the cosine of zero. *)
Definition first_order_libm : libm := {|
  libm_sin := fun x => x;
  libm_cos := fun _ => 1%float;
  libm_atan2 := fun y x => (y / x)%float;
  libm_pow2 := fun x => (x * x)%float
|}.

(** Case analysis on the comparisons inside [SFcompare]. *)
Ltac order_cases :=
  repeat match goal with
    | |- context [Z.compare ?a ?b] => destruct (Z.compare_spec a b)
    | H : context [Z.compare ?a ?b] |- _ => destruct (Z.compare_spec a b)
    | |- context [Pos.compare_cont Eq ?a ?b] =>
        change (Pos.compare_cont Eq a b) with (Pos.compare a b);
        destruct (Pos.compare_spec a b)
    | H : context [Pos.compare_cont Eq ?a ?b] |- _ =>
        change (Pos.compare_cont Eq a b) with (Pos.compare a b) in H;
        destruct (Pos.compare_spec a b)
    end;
  subst; simpl in *; try reflexivity; try discriminate; try lia.

(** ** The runtime model on examples *)

Lemma u_examples :
  u "!3d" = [0x21; 0x33; 0x64]%N
  /\ u "板橋" = [0x677F; 0x6A4B]%N
  /\ u "é€😀" = [0xE9; 0x20AC; 0x1F600]%N.
Proof. split; [|split]; vm_compute; reflexivity. Qed.

(** [float_of_str] rounds as [float] does: to the nearest value, ties to
    even, with gradual underflow and overflow to infinity.  The right-hand
    sides are binary64 literals. *)
Lemma float_of_str_examples :
  float_of_str (u "25.0112") = Ok 25.0112%float
  /\ float_of_str (u "-.5") = Ok (-0.5)%float
  /\ float_of_str (u "+1.") = Ok 1%float
  /\ float_of_str (u "-0") = Ok (-0)%float
  /\ float_of_str (u "0.1") = Ok 0x1.999999999999ap-4%float
  /\ float_of_str (u "9007199254740993") = Ok 9007199254740992%float
  /\ float_of_str (u "9007199254740995") = Ok 9007199254740996%float
  /\ float_of_str (u "0." ++ repeat 0x30%N 323 ++ u "3") = Ok 0x1p-1074%float
  /\ float_of_str (u "0." ++ repeat 0x30%N 323 ++ u "2") = Ok 0%float
  /\ float_of_str (u "1" ++ repeat 0x30%N 309) = Ok infinity
  /\ float_of_str (u ".") = Raise ValueError
  /\ float_of_str (u "1.2.3") = Raise ValueError
  /\ float_of_str (u "+-1") = Raise ValueError
  /\ float_of_str (u "1-2") = Raise ValueError.
Proof. repeat (split; [vm_compute; reflexivity|]). vm_compute. reflexivity. Qed.

Lemma math_examples (M : libm) :
  math_sin M infinity = Raise ValueError
  /\ math_cos M neg_infinity = Raise ValueError
  /\ math_sqrt (-1)%float = Raise ValueError
  /\ math_sqrt (-0)%float = Ok (-0)%float
  /\ math_sqrt 4%float = Ok 2%float
  /\ float_pow_2 M (-0)%float = Ok 0%float
  /\ float_pow_2 M neg_infinity = Ok infinity.
Proof. repeat (split; [vm_compute; reflexivity|]). vm_compute. reflexivity. Qed.

(** [min] keeps the first of several least keys, and with a NaN key in
    front nothing compares smaller. *)
Lemma min_examples :
  min_ [u "a"; u "b"; u "c"]
    (dict_get [(u "a", 2%float); (u "b", 1%float); (u "c", 1%float)])
  = Ok (u "b")
  /\ min_ [u "a"; u "b"] (dict_get [(u "a", nan); (u "b", 1%float)])
     = Ok (u "a")
  /\ min_ [u "a"; u "b"] (dict_get [(u "a", 1%float)]) = Raise TypeError
  /\ min_ [] (dict_get []) = Raise ValueError.
Proof. repeat (split; [vm_compute; reflexivity|]). vm_compute. reflexivity. Qed.

(** The tagger on the Taylor instance: the marker of a place URL, the
    centroid nearest to a coordinate, and the label of a record no textual
    rule resolves. *)
Lemma tagger_examples :
  extract_coords
    (u "https://www.google.com/maps/place/x/data=!4m7!3m6!8m2!3d25.0112!4d121.4637!16s")
  = Ok (Some 25.0112%float, Some 121.4637%float)
  /\ extract_coords (u "https://www.google.com/maps/place/x") = Ok (None, None)
  /\ nearest_centroid taylor_libm 25.0112 121.4637 = Ok (u "新北市板橋區")
  /\ nearest_centroid taylor_libm 25.05 121.54 = Ok (u "台北市中山區")
  /\ infer_district taylor_libm (u "花店") (u "某某路1號") []
       (Some 24.99%float) (Some 121.55%float) = Ok (u "台北市文山區")
  /\ infer_district taylor_libm (u "花店") (u "某某路1號") [] None None
     = Ok (u "待確認").
Proof. repeat (split; [vm_compute; reflexivity|]). vm_compute. reflexivity. Qed.

(** ** Strings and tables *)

Section StrFacts.

Lemma str_eqb_eq (a b : str) : str_eqb a b = true <-> a = b.
Proof.
  revert b; induction a as [|x a IH]; intros [|y b]; simpl;
    try (split; [discriminate | discriminate]); try tauto.
  rewrite andb_true_iff. unfold chr_eqb. rewrite N.eqb_eq, IH.
  split; [intros [-> ->]; reflexivity | intros H; inversion H; auto].
Qed.

Lemma str_eqb_refl (a : str) : str_eqb a a = true.
Proof. apply str_eqb_eq; reflexivity. Qed.

Lemma startswith_spec (s p : str) :
  startswith s p = true <-> exists r, s = p ++ r.
Proof.
  revert s; induction p as [|x p IH]; intros s; simpl.
  - split; [intros _; exists s; reflexivity | reflexivity].
  - destruct s as [|y s].
    + split; [discriminate | intros [r H]; discriminate].
    + rewrite andb_true_iff. unfold chr_eqb. rewrite N.eqb_eq, IH.
      split.
      * intros [-> [r ->]]. exists r; reflexivity.
      * intros [r H]. inversion H; subst. split; [reflexivity | eauto].
Qed.

Lemma str_in_spec (p s : str) :
  str_in p s = true <-> exists a b, s = a ++ p ++ b.
Proof.
  induction s as [|c s IH].
  - simpl. rewrite orb_false_r, startswith_spec. split.
    + intros [r H]. exists [], r. exact H.
    + intros (a & b & H). destruct a; simpl in H.
      * exists b; exact H.
      * discriminate.
  - cbn [str_in]. rewrite orb_true_iff, startswith_spec, IH. split.
    + intros [[r H] | (a & b & H)].
      * exists [], r. exact H.
      * exists (c :: a), b. simpl. rewrite H. reflexivity.
    + intros (a & b & H). destruct a as [|c' a]; simpl in H.
      * left. exists b; exact H.
      * right. inversion H; subst. exists a, b. reflexivity.
Qed.

(** A key found in one field is found in any text built around it. *)
Lemma str_in_app (p a s b : str) :
  str_in p s = true -> str_in p (a ++ s ++ b) = true.
Proof.
  rewrite !str_in_spec. intros (x & y & ->).
  exists (a ++ x), (y ++ b). rewrite <- !app_assoc. reflexivity.
Qed.

Lemma dict_get_In {V} (d : dict V) (k : str) (v : V) :
  dict_get d k = Some v -> In (k, v) d.
Proof.
  induction d as [|[k' v'] d IH]; simpl; [discriminate|].
  destruct (str_eqb k' k) eqn:E.
  - apply str_eqb_eq in E. intros H; inversion H; subst. left; reflexivity.
  - intros H. right. auto.
Qed.

Lemma dict_getitem_In {V} (d : dict V) (k : str) (v : V) :
  dict_getitem d k = Ok v -> In (k, v) d.
Proof.
  unfold dict_getitem. destruct (dict_get d k) as [v'|] eqn:E; [|discriminate].
  intros H; inversion H; subst. apply dict_get_In. exact E.
Qed.

Lemma dict_get_NoDup {V} (d : dict V) (k : str) (v : V) :
  NoDup (map fst d) -> In (k, v) d -> dict_get d k = Some v.
Proof.
  induction d as [|[k' v'] d IH]; simpl; [tauto|].
  intros Hnd [H | H].
  - inversion H; subst. rewrite str_eqb_refl. reflexivity.
  - inversion Hnd as [|? ? Hnotin Hnd']; subst.
    destruct (str_eqb k' k) eqn:E.
    + apply str_eqb_eq in E; subst. exfalso. apply Hnotin.
      apply in_map_iff. exists (k, v). auto.
    + auto.
Qed.

Lemma dict_get_None {V} (d : dict V) (k : str) :
  dict_get d k = None <-> forall v, ~ In (k, v) d.
Proof.
  induction d as [|[k' v'] d IH]; simpl.
  - split; [intros _ v [] | reflexivity].
  - destruct (str_eqb k' k) eqn:E.
    + apply str_eqb_eq in E; subst. split; [discriminate|].
      intros H. exfalso. apply (H v'). left; reflexivity.
    + rewrite IH. split.
      * intros H v [Heq | Hin]; [|exact (H v Hin)].
        inversion Heq; subst. rewrite str_eqb_refl in E. discriminate.
      * intros H v Hin. apply (H v). right; exact Hin.
Qed.

End StrFacts.

Section FirstHit.

Lemma first_hit_None (items : list (str * str)) (text : str) :
  first_hit items text = None <-> ~ hits items text.
Proof.
  unfold hits. induction items as [|[k d] items IH]; simpl.
  - split; [intros _ (k & d & [] & _) | reflexivity].
  - destruct (str_in k text) eqn:E.
    + split; [discriminate|]. intros H. exfalso. apply H.
      exists k, d. auto.
    + rewrite IH. split.
      * intros H (k' & d' & [Heq | Hin] & Hs).
        -- inversion Heq; subst. congruence.
        -- apply H. exists k', d'. auto.
      * intros H (k' & d' & Hin & Hs). apply H. exists k', d'. auto.
Qed.

Lemma first_hit_Some (items : list (str * str)) (text : str) (d : str) :
  first_hit items text = Some d ->
  exists k, In (k, d) items /\ str_in k text = true.
Proof.
  induction items as [|[k' d'] items IH]; simpl; [discriminate|].
  destruct (str_in k' text) eqn:E.
  - intros H; inversion H; subst. exists k'. auto.
  - intros H. destruct (IH H) as (k & Hin & Hs). exists k. auto.
Qed.

(** The loop returns at the first entry, in iteration order, whose key
    is in the text. *)
Lemma first_hit_nth (items : list (str * str)) (text : str) i k d :
  nth_error items i = Some (k, d) ->
  str_in k text = true ->
  (forall j k' d', j < i -> nth_error items j = Some (k', d') ->
                   str_in k' text = false) ->
  first_hit items text = Some d.
Proof.
  revert i; induction items as [|[k0 d0] items IH]; intros i Hnth Hs Hbefore.
  - destruct i; discriminate.
  - destruct i as [|i]; simpl in *.
    + inversion Hnth; subst. rewrite Hs. reflexivity.
    + rewrite (Hbefore 0 k0 d0) by (auto; lia).
      apply (IH i); auto.
      intros j k' d' Hj Hn. apply (Hbefore (S j) k' d'); [lia | exact Hn].
Qed.

End FirstHit.

Section Tables.

Lemma distinct_NoDup (keys : list str) : distinct keys = true -> NoDup keys.
Proof.
  induction keys as [|k keys IH]; simpl; [constructor|].
  rewrite andb_true_iff, negb_true_iff. intros [Hk Hrest].
  constructor; [|auto].
  intros Hin. assert (existsb (str_eqb k) keys = true); [|congruence].
  apply existsb_exists. exists k. split; [exact Hin | apply str_eqb_refl].
Qed.

(** No key is written twice in a table, so filling a dict from the
    display keeps every entry, in the order written. *)
Lemma tables_as_written :
  dict_of_items DISTRICT_KEYWORDS = DISTRICT_KEYWORDS
  /\ dict_of_items ROAD_TO_DISTRICT = ROAD_TO_DISTRICT
  /\ dict_of_items MANUAL_OVERRIDES = MANUAL_OVERRIDES.
Proof. split; [|split]; vm_compute; reflexivity. Qed.

Lemma MANUAL_OVERRIDES_keys : NoDup (map fst MANUAL_OVERRIDES).
Proof. apply distinct_NoDup. vm_compute. reflexivity. Qed.

Lemma CENTROIDS_names : NoDup (map Centroid.name CENTROIDS).
Proof. apply distinct_NoDup. vm_compute. reflexivity. Qed.

End Tables.

(** ** The classifier *)

Section Classifier.

Variable M : libm.

Lemma override_lookup (name d : str) :
  In (name, d) MANUAL_OVERRIDES ->
  dict_contains MANUAL_OVERRIDES name = true
  /\ dict_getitem MANUAL_OVERRIDES name = Ok d.
Proof.
  intros Hin. unfold dict_contains, dict_getitem.
  rewrite (dict_get_NoDup _ _ _ MANUAL_OVERRIDES_keys Hin). auto.
Qed.

Lemma override_absent (name : str) :
  (forall d, ~ In (name, d) MANUAL_OVERRIDES) ->
  dict_contains MANUAL_OVERRIDES name = false.
Proof.
  intros H. unfold dict_contains.
  apply dict_get_None in H. rewrite H. reflexivity.
Qed.

(** C1: the rules form a strict priority cascade.  A keyword-table key in
    the combined text decides; otherwise a road-table key in the address;
    otherwise an override entry for the exact name; otherwise the
    coordinate fallback (the nearest centroid when both coordinates are
    present, the unresolved label when not).  Each step holds whatever
    the later rules would have said: a keyword wins over any road hit,
    and an override wins over any coordinate. *)
Theorem infer_district_cascade (name address url : str)
    (lat lon : option float) :
  let combined := name ++ u " " ++ address ++ u " " ++ url in
  (hits DISTRICT_KEYWORDS combined ->
   exists k d, In (k, d) DISTRICT_KEYWORDS /\ str_in k combined = true
               /\ infer_district M name address url lat lon = Ok d)
  /\ (~ hits DISTRICT_KEYWORDS combined ->
      hits ROAD_TO_DISTRICT address ->
      exists k d, In (k, d) ROAD_TO_DISTRICT /\ str_in k address = true
                  /\ infer_district M name address url lat lon = Ok d)
  /\ (~ hits DISTRICT_KEYWORDS combined ->
      ~ hits ROAD_TO_DISTRICT address ->
      forall d, In (name, d) MANUAL_OVERRIDES ->
                infer_district M name address url lat lon = Ok d)
  /\ (~ hits DISTRICT_KEYWORDS combined ->
      ~ hits ROAD_TO_DISTRICT address ->
      (forall d, ~ In (name, d) MANUAL_OVERRIDES) ->
      infer_district M name address url lat lon =
        match lat, lon with
        | Some la, Some lo => nearest_centroid M la lo
        | _, _ => Ok UNRESOLVED
        end).
Proof.
  intros combined. unfold infer_district. fold combined.
  split; [|split; [|split]].
  - intros Hk. destruct (first_hit DISTRICT_KEYWORDS combined) as [d|] eqn:E.
    + destruct (first_hit_Some _ _ _ E) as (k & Hin & Hs). eauto.
    + apply first_hit_None in E. contradiction.
  - intros Hk Hr. apply first_hit_None in Hk. rewrite Hk.
    destruct (first_hit ROAD_TO_DISTRICT address) as [d|] eqn:E.
    + destruct (first_hit_Some _ _ _ E) as (k & Hin & Hs). eauto.
    + apply first_hit_None in E. contradiction.
  - intros Hk Hr d Hin.
    apply first_hit_None in Hk, Hr. rewrite Hk, Hr.
    destruct (override_lookup _ _ Hin) as [-> ->]. reflexivity.
  - intros Hk Hr Ho.
    apply first_hit_None in Hk, Hr. rewrite Hk, Hr.
    rewrite (override_absent _ Ho). reflexivity.
Qed.

(** C6, as the code has it: within the table whose rule decides the
    record, the first matching key, in the table's order, decides.  For
    the keyword table this is the first key found in the combined text;
    for the road table, consulted when no keyword matches, the first key
    found in the address; the override table is matched on the exact
    name, and no two of its entries share a key. *)
Theorem first_key_in_table_order_wins (name address url : str)
    (lat lon : option float) :
  let combined := name ++ u " " ++ address ++ u " " ++ url in
  (forall i k d,
      nth_error DISTRICT_KEYWORDS i = Some (k, d) ->
      str_in k combined = true ->
      (forall j k' d', j < i -> nth_error DISTRICT_KEYWORDS j = Some (k', d') ->
                       str_in k' combined = false) ->
      infer_district M name address url lat lon = Ok d)
  /\ (forall i k d,
      ~ hits DISTRICT_KEYWORDS combined ->
      nth_error ROAD_TO_DISTRICT i = Some (k, d) ->
      str_in k address = true ->
      (forall j k' d', j < i -> nth_error ROAD_TO_DISTRICT j = Some (k', d') ->
                       str_in k' address = false) ->
      infer_district M name address url lat lon = Ok d)
  /\ (forall i d,
      ~ hits DISTRICT_KEYWORDS combined ->
      ~ hits ROAD_TO_DISTRICT address ->
      nth_error MANUAL_OVERRIDES i = Some (name, d) ->
      infer_district M name address url lat lon = Ok d
      /\ forall j d', nth_error MANUAL_OVERRIDES j = Some (name, d') -> j = i).
Proof.
  intros combined. unfold infer_district. fold combined.
  split; [|split].
  - intros i k d Hn Hs Hb.
    rewrite (first_hit_nth _ _ _ _ _ Hn Hs Hb). reflexivity.
  - intros i k d Hk Hn Hs Hb. apply first_hit_None in Hk. rewrite Hk.
    rewrite (first_hit_nth _ _ _ _ _ Hn Hs Hb). reflexivity.
  - intros i d Hk Hr Hn. split.
    + apply first_hit_None in Hk, Hr. rewrite Hk, Hr.
      apply nth_error_In in Hn.
      destruct (override_lookup _ _ Hn) as [-> ->]. reflexivity.
    + intros j d' Hj.
      pose proof MANUAL_OVERRIDES_keys as Hnd.
      rewrite NoDup_nth_error in Hnd.
      apply Hnd.
      * rewrite length_map. apply nth_error_Some. congruence.
      * rewrite !nth_error_map, Hj, Hn. reflexivity.
Qed.

End Classifier.

(** Witness for C1, on the Taylor instance: a keyword in the address wins
    over a road hit in the same address; a road decides when no keyword
    occurs; an override wins over a coordinate that sits on another
    district's centroid; with no rule and no coordinate the label is the
    unresolved one. *)
Lemma infer_district_cascade_witness :
  (exists k d,
      In (k, d) DISTRICT_KEYWORDS
      /\ str_in k (u "花店" ++ u " " ++ u "永和路忠孝路5號" ++ u " " ++ []) = true
      /\ infer_district taylor_libm (u "花店") (u "永和路忠孝路5號") []
           None None = Ok d)
  /\ (exists k d,
      In (k, d) ROAD_TO_DISTRICT
      /\ str_in k (u "忠孝路5號") = true
      /\ infer_district taylor_libm (u "花店") (u "忠孝路5號") []
           None None = Ok d)
  /\ (nearest_centroid taylor_libm 25.0112 121.4637 = Ok (u "新北市板橋區")
      /\ infer_district taylor_libm (u "花見鍾情花坊") (u "某某路1號") []
           (Some 25.0112%float) (Some 121.4637%float) = Ok (u "新北市土城區"))
  /\ infer_district taylor_libm (u "花店") (u "某某路1號") [] None None
     = Ok UNRESOLVED.
Proof.
  split; [|split; [|split]]; [| |split; [vm_compute; reflexivity|]|].
  - destruct (infer_district_cascade taylor_libm
                (u "花店") (u "永和路忠孝路5號") [] None None) as (H & _).
    apply H. exists (u "永和"), (u "新北市永和區").
    split; [apply (nth_error_In _ 2) | ]; vm_compute; reflexivity.
  - destruct (infer_district_cascade taylor_libm
                (u "花店") (u "忠孝路5號") [] None None) as (_ & H & _).
    apply H.
    + apply first_hit_None. vm_compute. reflexivity.
    + exists (u "忠孝路"), (u "新北市土城區").
      split; [apply (nth_error_In _ 43) | ]; vm_compute; reflexivity.
  - destruct (infer_district_cascade taylor_libm
                (u "花見鍾情花坊") (u "某某路1號") []
                (Some 25.0112%float) (Some 121.4637%float))
      as (_ & _ & H & _).
    apply H.
    + apply first_hit_None. vm_compute. reflexivity.
    + apply first_hit_None. vm_compute. reflexivity.
    + apply (nth_error_In _ 3). vm_compute. reflexivity.
  - destruct (infer_district_cascade taylor_libm
                (u "花店") (u "某某路1號") [] None None) as (_ & _ & _ & H).
    apply H.
    + apply first_hit_None. vm_compute. reflexivity.
    + apply first_hit_None. vm_compute. reflexivity.
    + intros d Hin. apply dict_get_None with (k := u "花店") (v := d) in Hin;
        [exact Hin | vm_compute; reflexivity].
Defined.

(** Witness for C6: "中和" and "永和" both occur in the name and "中和",
    written first in the keyword table, decides; "中正路" and "忠孝路" both
    occur in the address and "中正路", written first in the road table,
    decides although it comes second in the text; an override entry is the
    only one for its name. *)
Lemma first_key_in_table_order_wins_witness :
  infer_district taylor_libm (u "永和中和花店") [] [] None None
  = Ok (u "新北市中和區")
  /\ infer_district taylor_libm (u "花店") (u "忠孝路與中正路口") [] None None
     = Ok (u "新北市板橋區")
  /\ (infer_district taylor_libm (u "花見鍾情花坊") [] [] None None
      = Ok (u "新北市土城區")
      /\ forall j d',
          nth_error MANUAL_OVERRIDES j = Some (u "花見鍾情花坊", d') -> j = 3).
Proof.
  split; [|split].
  - destruct (first_key_in_table_order_wins taylor_libm
                (u "永和中和花店") [] [] None None) as (H & _).
    apply (H 1 (u "中和")).
    + vm_compute. reflexivity.
    + vm_compute. reflexivity.
    + intros j k' d' Hj Hn. destruct j as [|j]; [|lia].
      vm_compute in Hn. injection Hn as <- <-. vm_compute. reflexivity.
  - destruct (first_key_in_table_order_wins taylor_libm
                (u "花店") (u "忠孝路與中正路口") [] None None) as (_ & H & _).
    apply (H 1 (u "中正路")).
    + apply first_hit_None. vm_compute. reflexivity.
    + vm_compute. reflexivity.
    + vm_compute. reflexivity.
    + intros j k' d' Hj Hn. destruct j as [|j]; [|lia].
      vm_compute in Hn. injection Hn as <- <-. vm_compute. reflexivity.
  - destruct (first_key_in_table_order_wins taylor_libm
                (u "花見鍾情花坊") [] [] None None) as (_ & _ & H).
    apply (H 3).
    + apply first_hit_None. vm_compute. reflexivity.
    + apply first_hit_None. vm_compute. reflexivity.
    + vm_compute. reflexivity.
Defined.

Section FallbackScenario.

Variable M : libm.

Lemma scenario_address_has_keyword (name url : str) :
  str_in (u "板橋")
    (name ++ u " " ++ u "新北市板橋區中山路一段100號" ++ u " " ++ url) = true.
Proof.
  rewrite (app_assoc name). apply str_in_app. vm_compute. reflexivity.
Qed.

(** C8, as the code has it: a record with the address
    "新北市板橋區中山路一段100號", which holds the road key "中山路一段",
    resolves to "新北市板橋區" whatever its name, URL and coordinate, also
    with no coordinate; the label comes from the keyword "板橋" in the
    address, found before the road table is consulted. *)
Theorem fallback_scenario_resolves (name url : str) (lat lon : option float) :
  first_hit DISTRICT_KEYWORDS
    (name ++ u " " ++ u "新北市板橋區中山路一段100號" ++ u " " ++ url)
  = Some (u "新北市板橋區")
  /\ str_in (u "中山路一段") (u "新北市板橋區中山路一段100號") = true
  /\ infer_district M name (u "新北市板橋區中山路一段100號") url lat lon
     = Ok (u "新北市板橋區").
Proof.
  assert (Hk : first_hit DISTRICT_KEYWORDS
                 (name ++ u " " ++ u "新北市板橋區中山路一段100號" ++ u " " ++ url)
               = Some (u "新北市板橋區")).
  { apply (first_hit_nth _ _ 0 (u "板橋")).
    - vm_compute. reflexivity.
    - apply scenario_address_has_keyword.
    - intros j k' d' Hj. lia. }
  split; [exact Hk | split].
  - vm_compute. reflexivity.
  - unfold infer_district. rewrite Hk. reflexivity.
Qed.

End FallbackScenario.

(** C8, as stated, describes a record that cannot exist: with this address
    the combined text holds the keyword "板橋", for the record with the
    name "花店" and no URL as for any other, so no record with this address
    is without a keyword match. *)
Lemma fallback_scenario_never_without_keyword :
  hits DISTRICT_KEYWORDS
    (u "花店" ++ u " " ++ u "新北市板橋區中山路一段100號" ++ u " " ++ [])
  /\ ~ exists name url,
        ~ hits DISTRICT_KEYWORDS
            (name ++ u " " ++ u "新北市板橋區中山路一段100號" ++ u " " ++ url).
Proof.
  assert (H : forall name url,
             hits DISTRICT_KEYWORDS
               (name ++ u " " ++ u "新北市板橋區中山路一段100號" ++ u " " ++ url)).
  { intros name url. exists (u "板橋"), (u "新北市板橋區"). split.
    - apply (nth_error_In _ 0). vm_compute. reflexivity.
    - apply scenario_address_has_keyword. }
  split; [apply H|].
  intros (name & url & Hno). apply Hno, H.
Qed.

(** ** Labels *)

Section Labels.

Variable M : libm.

Lemma min_loop_In (key : str -> option float) (items : list str)
    (best : str) (best_key : option float) (r : str) :
  min_loop key best best_key items = Ok r -> r = best \/ In r items.
Proof.
  revert best best_key; induction items as [|item items IH];
    intros best best_key; cbn [min_loop].
  - intros H; injection H as <-. left; reflexivity.
  - destruct (lt_ (key item) best_key) as [[|]|e]; cbn [bind];
      [| |discriminate]; intros H; apply IH in H;
      destruct H as [-> | H]; cbn [In]; auto.
Qed.

Lemma dict_setitem_keys {V} (d : dict V) (k : str) (v : V) (x : str) :
  In x (map fst (dict_setitem d k v)) -> x = k \/ In x (map fst d).
Proof.
  induction d as [|[k' v'] d IH]; simpl.
  - intros [H | []]; auto.
  - destruct (str_eqb k' k); simpl; [tauto|].
    intros [H | H]; [tauto|]. destruct (IH H); auto.
Qed.

Lemma distances_of_keys (lat lon : float) (centroids : list Centroid.t)
    (d ds : dict float) (x : str) :
  distances_of M lat lon centroids d = Ok ds ->
  In x (map fst ds) ->
  In x (map fst d) \/ In x (map Centroid.name centroids).
Proof.
  revert d; induction centroids as [|c centroids IH]; intros d; simpl.
  - intros H; inversion H; subst. auto.
  - destruct (great_circle_distance M lat lon (Centroid.lat c) (Centroid.lon c))
      as [v|e]; simpl; [|discriminate].
    intros H Hin. destruct (IH _ H Hin) as [H' | H']; [|auto].
    apply dict_setitem_keys in H'. destruct H' as [-> | H']; auto.
Qed.

Lemma distances_of_names (lat lon : float) (centroids : list Centroid.t)
    (ds : dict float) (x : str) :
  distances_of M lat lon centroids [] = Ok ds ->
  In x (map fst ds) -> In x (map Centroid.name centroids).
Proof.
  intros E Hin.
  destruct (distances_of_keys _ _ _ _ _ _ E Hin) as [[] | H]. exact H.
Qed.

Lemma nearest_centroid_name (lat lon : float) (l : str) :
  nearest_centroid M lat lon = Ok l -> In l (map Centroid.name CENTROIDS).
Proof.
  unfold nearest_centroid.
  destruct (distances_of M lat lon CENTROIDS []) as [ds|e] eqn:E;
    cbn [bind]; [|discriminate].
  unfold min_, dict_keys.
  destruct ds as [|[item key] rest]; cbn [map fst]; [discriminate|].
  intros H. apply min_loop_In in H.
  apply (distances_of_names _ _ _ _ _ E). cbn [map fst In].
  destruct H as [-> | H]; auto.
Qed.

Lemma label_nonempty (l : str) :
  In l KNOWN_DISTRICTS \/ l = UNRESOLVED -> l <> [].
Proof.
  intros H ->.
  assert (Hno : existsb (str_eqb []) (UNRESOLVED :: KNOWN_DISTRICTS) = false)
    by (vm_compute; reflexivity).
  assert (Hyes : existsb (str_eqb []) (UNRESOLVED :: KNOWN_DISTRICTS) = true).
  { apply existsb_exists. exists []. split; [|reflexivity].
    destruct H as [H | H]; [right; exact H | left; symmetry; exact H]. }
  congruence.
Qed.

(** Whenever the classifier returns, it returns one label, a known
    district name or the unresolved label, and never the empty string. *)
Lemma infer_district_label (name address url : str) (lat lon : option float)
    (l : str) :
  infer_district M name address url lat lon = Ok l ->
  (In l KNOWN_DISTRICTS \/ l = UNRESOLVED) /\ l <> [].
Proof.
  intros H.
  assert (Hl : In l KNOWN_DISTRICTS \/ l = UNRESOLVED).
  { unfold KNOWN_DISTRICTS. rewrite !in_app_iff.
    unfold infer_district in H.
    destruct (first_hit DISTRICT_KEYWORDS _) as [d|] eqn:Ek.
    { inversion H; subst. destruct (first_hit_Some _ _ _ Ek) as (k & Hin & _).
      left; left. apply in_map_iff. exists (k, l). auto. }
    destruct (first_hit ROAD_TO_DISTRICT _) as [d|] eqn:Er.
    { inversion H; subst. destruct (first_hit_Some _ _ _ Er) as (k & Hin & _).
      left; right; left. apply in_map_iff. exists (k, l). auto. }
    destruct (dict_contains MANUAL_OVERRIDES name) eqn:Ec.
    { apply dict_getitem_In in H.
      left; right; right; left. apply in_map_iff. exists (name, l). auto. }
    destruct lat as [la|]; [destruct lon as [lo|]|];
      try (inversion H; subst; right; reflexivity).
    left; right; right; right. eapply nearest_centroid_name; eauto. }
  split; [exact Hl | exact (label_nonempty l Hl)].
Qed.

(** C2, at the failing input: a row with an empty name and address whose
    URL carries a 400-digit latitude.  [float] turns that numeral into an
    infinity, [math.sin] raises on the infinite angle inside the first
    distance, and the classifier raises with it instead of returning a
    label.  This holds for every C library. *)
Theorem infer_district_raises_on_infinite_latitude :
  extract_coords (u "!3d" ++ repeat 0x39%N 400 ++ u "!4d1")
  = Ok (Some infinity, Some 1%float)
  /\ infer_district M [] [] (u "!3d" ++ repeat 0x39%N 400 ++ u "!4d1")
       (Some infinity) (Some 1%float) = Raise ValueError
  /\ row_district M [] [] (u "!3d" ++ repeat 0x39%N 400 ++ u "!4d1")
     = Raise ValueError.
Proof. split; [|split]; vm_compute; reflexivity. Qed.

End Labels.

(** ** The coordinate extractor *)

(** C3, at the failing input: the character class of [COORD_RE] admits the
    token "25.01.12", which is not a float numeral; [float] raises
    [ValueError] and [extract_coords] raises with it instead of reporting
    that no coordinate was found. *)
Theorem extract_coords_raises_on_unparsable_token :
  Re.search COORD_RE (u "https://maps.example/place/x/data=!3d25.01.12!4d121.4637")
  = Some [u "25.01.12"; u "121.4637"]
  /\ extract_coords (u "https://maps.example/place/x/data=!3d25.01.12!4d121.4637")
     = Raise ValueError.
Proof. split; vm_compute; reflexivity. Qed.

Lemma float_of_str_outcome (s : str) :
  (exists x, float_of_str s = Ok x) \/ float_of_str s = Raise ValueError.
Proof.
  unfold float_of_str.
  destruct (match s with
            | 0x2D%N :: s' => (true, s')
            | 0x2B%N :: s' => (false, s')
            | _ => (false, s)
            end) as [neg body].
  destruct (span is_digit body) as [int_part rest].
  destruct (match rest with
            | 0x2E%N :: r => span is_digit r
            | _ => ([], rest)
            end) as [frac_part rest'].
  destruct rest'; [|auto].
  destruct (int_part ++ frac_part); eauto.
Qed.

(** C10: the two coordinates come together.  For every string
    [extract_coords] returns no coordinate at all, or a latitude and a
    longitude, or raises; it never returns one without the other. *)
Theorem extract_coords_paired (url : str) :
  extract_coords url = Ok (None, None)
  \/ (exists la lo, extract_coords url = Ok (Some la, Some lo))
  \/ extract_coords url = Raise ValueError.
Proof.
  unfold extract_coords.
  destruct (Re.search COORD_RE url) as [m|]; [|left; reflexivity].
  right.
  destruct (float_of_str_outcome (Re.group m 1)) as [[la ->] | ->];
    simpl; [|right; reflexivity].
  destruct (float_of_str_outcome (Re.group m 2)) as [[lo ->] | ->];
    simpl; [|right; reflexivity].
  left. exists la, lo. reflexivity.
Qed.

Section Regex.

Lemma skipn_length_app {A} (a b : list A) : skipn (length a) (a ++ b) = b.
Proof. induction a; simpl; auto. Qed.

Lemma startswith_app (p r : str) : startswith (p ++ r) p = true.
Proof. apply startswith_spec. exists r. reflexivity. Qed.

(** On a run of class characters followed by something the rest of the
    pattern accepts, the greedy loop takes the whole run. *)
Lemma greedy_longest (cls : char -> bool) (k : str -> option (list str))
    (g r taken : str) (gs : list str) :
  forallb cls g = true ->
  starts_in cls r = false ->
  k r = Some gs ->
  rev taken ++ g <> [] ->
  Re.greedy cls k taken (g ++ r) = Some ((rev taken ++ g) :: gs).
Proof.
  revert taken; induction g as [|c g IH]; intros taken Hg Hr Hk Hne.
  - rewrite app_nil_r in *. cbn [app].
    assert (Hstop : match taken with
                    | [] => None
                    | _ :: _ => option_map (cons (rev taken)) (k r)
                    end = Some (rev taken :: gs)).
    { destruct taken as [|t taken']; [contradiction Hne; reflexivity|].
      rewrite Hk. reflexivity. }
    destruct r as [|c r']; cbn [Re.greedy]; [exact Hstop|].
    cbn [starts_in] in Hr. rewrite Hr. exact Hstop.
  - cbn [forallb] in Hg. apply andb_true_iff in Hg. destruct Hg as [Hc Hg].
    cbn [app Re.greedy]. rewrite Hc.
    rewrite (IH (c :: taken) Hg Hr Hk).
    + cbn [rev]. rewrite <- app_assoc. reflexivity.
    + cbn [rev]. rewrite <- app_assoc. cbn [app].
      intros H. apply app_eq_nil in H. destruct H; discriminate.
Qed.

(** What the loop returns was a run of class characters, not empty, with
    the rest of the pattern matching after it. *)
Lemma greedy_sound (cls : char -> bool) (k : str -> option (list str))
    (s taken : str) (gs : list str) :
  Re.greedy cls k taken s = Some gs ->
  exists g r gs',
    s = g ++ r /\ forallb cls g = true /\ rev taken ++ g <> []
    /\ k r = Some gs' /\ gs = (rev taken ++ g) :: gs'.
Proof.
  assert (Hstop : forall taken r,
    match taken with
    | [] => None
    | _ :: _ => option_map (cons (rev taken)) (k r)
    end = Some gs ->
    exists g r0 gs',
      r = g ++ r0 /\ forallb cls g = true /\ rev taken ++ g <> []
      /\ k r0 = Some gs' /\ gs = (rev taken ++ g) :: gs').
  { intros [|t taken'] r H; [discriminate|].
    destruct (k r) as [gs'|] eqn:Ek; [|discriminate].
    injection H as <-. exists [], r, gs'. rewrite app_nil_r.
    repeat split; auto.
    cbn [rev]. intros H. apply app_eq_nil in H. destruct H; discriminate. }
  revert taken; induction s as [|c s IH]; intros taken; cbn [Re.greedy].
  - apply Hstop.
  - destruct (cls c) eqn:Hc; [|apply Hstop].
    destruct (Re.greedy cls k (c :: taken) s) as [gs0|] eqn:E; [|apply Hstop].
    intros H; injection H as ->.
    destruct (IH _ E) as (g & r & gs' & -> & Hg & Hne & Hk & ->).
    exists (c :: g), r, gs'. cbn [rev] in *. rewrite <- app_assoc in *.
    cbn [app forallb] in *. rewrite Hc, Hg. repeat split; auto.
Qed.

Lemma search_match (p : Re.pattern) (s : str) (m : list str) :
  Re.match_ p s = Some m -> Re.search p s = Some m.
Proof. intros H. destruct s; cbn [Re.search]; rewrite H; reflexivity. Qed.

(** The search skips the positions at which no match starts. *)
Lemma search_skip (p : Re.pattern) (pre s : str) :
  no_match_before p (length pre) (pre ++ s) = true ->
  Re.search p (pre ++ s) = Re.search p s.
Proof.
  induction pre as [|c pre IH]; [reflexivity|].
  cbn [length app no_match_before Re.search].
  destruct (Re.match_ p (c :: pre ++ s)); [discriminate | exact IH].
Qed.

Lemma search_sound (p : Re.pattern) (s : str) (m : list str) :
  Re.search p s = Some m ->
  exists pre s', s = pre ++ s' /\ Re.match_ p s' = Some m.
Proof.
  induction s as [|c s IH]; cbn [Re.search].
  - destruct (Re.match_ p []) eqn:E; [|discriminate].
    intros H; injection H as ->. exists [], []. auto.
  - destruct (Re.match_ p (c :: s)) eqn:E.
    + intros H; injection H as ->. exists [], (c :: s). auto.
    + intros H. destruct (IH H) as (pre & s' & -> & Hm).
      exists (c :: pre), s'. auto.
Qed.

Lemma lit_4d : u "!4d" = [0x21; 0x34; 0x64]%N.
Proof. vm_compute. reflexivity. Qed.

Lemma is_token_spec (g : str) :
  is_token g = true -> forallb coord_class g = true /\ g <> [].
Proof. destruct g; [discriminate|]. intros H. split; [exact H | discriminate]. Qed.

(** At the start of ["!3d" g1 "!4d" g2 post], with [g1] and [g2] tokens and
    [post] not going on with a class character, [COORD_RE] matches and
    captures [g1] and [g2], whatever else [post] holds. *)
Lemma COORD_RE_match_marker (g1 g2 post : str) :
  is_token g1 = true -> is_token g2 = true ->
  starts_in coord_class post = false ->
  Re.match_ COORD_RE (marker g1 g2 ++ post) = Some [g1; g2].
Proof.
  intros H1 H2 Hpost.
  apply is_token_spec in H1, H2. destruct H1 as [H1 N1], H2 as [H2 N2].
  unfold marker, COORD_RE. rewrite <- !app_assoc.
  cbn [Re.match_]. rewrite startswith_app, skipn_length_app.
  apply (greedy_longest coord_class _ g1 _ [] [g2]);
    [exact H1 | rewrite lit_4d; reflexivity | | exact N1].
  rewrite startswith_app, skipn_length_app.
  apply (greedy_longest coord_class _ g2 _ [] []);
    [exact H2 | exact Hpost | reflexivity | exact N2].
Qed.

(** Every match of [COORD_RE] captures two tokens. *)
Lemma COORD_RE_groups (s : str) (m : list str) :
  Re.search COORD_RE s = Some m ->
  exists g1 g2, m = [g1; g2] /\ is_token g1 = true /\ is_token g2 = true.
Proof.
  intros H. apply search_sound in H. destruct H as (pre & s' & _ & H).
  clear s pre. unfold COORD_RE in H. cbn [Re.match_] in H.
  destruct (startswith s' (u "!3d")); [|discriminate].
  apply greedy_sound in H.
  destruct H as (g1 & r1 & gs1 & _ & Hg1 & N1 & H & ->).
  destruct (startswith r1 (u "!4d")); [|discriminate].
  apply greedy_sound in H.
  destruct H as (g2 & r2 & gs2 & _ & Hg2 & N2 & H & ->).
  injection H as <-. cbn [rev app] in *.
  exists g1, g2. repeat split.
  - destruct g1; [contradiction N1; reflexivity | exact Hg1].
  - destruct g2; [contradiction N2; reflexivity | exact Hg2].
Qed.

End Regex.

(** C5, as the code has it.  When the leftmost match of [COORD_RE] in a URL
    is the text "!3d25.0112!4d121.4637" (no match starts before it, and
    the longitude token does not go on with another character of
    [[0-9.+-]]), [extract_coords] returns exactly [(25.0112, 121.4637)].
    In general the leftmost marker alone decides the result: its two
    tokens are converted, and what follows it, further markers included,
    is ignored. *)
Theorem extract_coords_leftmost_marker :
  (forall pre post : str,
      no_match_before COORD_RE (length pre)
        (pre ++ u "!3d25.0112!4d121.4637" ++ post) = true ->
      starts_in coord_class post = false ->
      extract_coords (pre ++ u "!3d25.0112!4d121.4637" ++ post)
      = Ok (Some 25.0112%float, Some 121.4637%float))
  /\ (forall pre g1 g2 post : str,
      no_match_before COORD_RE (length pre) (pre ++ marker g1 g2 ++ post)
      = true ->
      is_token g1 = true -> is_token g2 = true ->
      starts_in coord_class post = false ->
      extract_coords (pre ++ marker g1 g2 ++ post)
      = (let* la := float_of_str g1 in
         let* lo := float_of_str g2 in
         Ok (Some la, Some lo))).
Proof.
  assert (General : forall pre g1 g2 post : str,
      no_match_before COORD_RE (length pre) (pre ++ marker g1 g2 ++ post)
      = true ->
      is_token g1 = true -> is_token g2 = true ->
      starts_in coord_class post = false ->
      extract_coords (pre ++ marker g1 g2 ++ post)
      = (let* la := float_of_str g1 in
         let* lo := float_of_str g2 in
         Ok (Some la, Some lo))).
  { intros pre g1 g2 post Hpre H1 H2 Hpost. unfold extract_coords.
    rewrite (search_skip _ _ _ Hpre).
    rewrite (search_match _ _ _ (COORD_RE_match_marker _ _ _ H1 H2 Hpost)).
    reflexivity. }
  split; [|exact General].
  intros pre post Hpre Hpost.
  assert (E : u "!3d25.0112!4d121.4637" = marker (u "25.0112") (u "121.4637"))
    by (vm_compute; reflexivity).
  rewrite E in *.
  rewrite (General pre _ _ post Hpre);
    [ | vm_compute; reflexivity | vm_compute; reflexivity | exact Hpost].
  assert (E1 : float_of_str (u "25.0112") = Ok 25.0112%float)
    by (vm_compute; reflexivity).
  assert (E2 : float_of_str (u "121.4637") = Ok 121.4637%float)
    by (vm_compute; reflexivity).
  rewrite E1, E2. reflexivity.
Qed.

(** Witness for C5: a place URL with the marker in the middle and a second
    marker after it; and the same with another pair of tokens. *)
Lemma extract_coords_leftmost_marker_witness :
  extract_coords
    (u "https://www.google.com/maps/place/x/data=!4m7!3m6!1s0x0:0x0!8m2"
     ++ u "!3d25.0112!4d121.4637" ++ u "!16s%2Fg%2F1tdz?entry=ttu!3d1!4d2")
  = Ok (Some 25.0112%float, Some 121.4637%float)
  /\ extract_coords
       (u "https://www.google.com/maps/place/y/data=!8m2"
        ++ marker (u "24.9990") (u "+121.4870") ++ u "!16s!3d1!4d2")
     = (let* la := float_of_str (u "24.9990") in
        let* lo := float_of_str (u "+121.4870") in
        Ok (Some la, Some lo)).
Proof.
  split.
  - apply (proj1 extract_coords_leftmost_marker); vm_compute; reflexivity.
  - apply (proj2 extract_coords_leftmost_marker); vm_compute; reflexivity.
Defined.

(** C5, as stated, fails.  Both URLs contain the text
    "!3d25.0112!4d121.4637" and neither yields [(25.0112, 121.4637)]: in
    the first the longitude token goes on with a "5", in the second an
    earlier marker is the leftmost match. *)
Lemma marker_text_is_not_enough :
  (str_in (u "!3d25.0112!4d121.4637")
     (u "https://maps.example/place/x/data=!3d25.0112!4d121.46375!16s") = true
   /\ extract_coords
        (u "https://maps.example/place/x/data=!3d25.0112!4d121.46375!16s")
      <> Ok (Some 25.0112%float, Some 121.4637%float))
  /\ (str_in (u "!3d25.0112!4d121.4637")
        (u "https://maps.example/place/x/data=!3d1!4d2!3d25.0112!4d121.4637")
      = true
      /\ extract_coords
           (u "https://maps.example/place/x/data=!3d1!4d2!3d25.0112!4d121.4637")
         <> Ok (Some 25.0112%float, Some 121.4637%float)).
Proof.
  assert (Hne : forall la lo : float,
             (lo =? 121.4637)%float = false ->
             Ok (Some la, Some lo) <> Ok (Some 25.0112%float, Some 121.4637%float)).
  { intros la lo Hlo H. injection H as _ ->. vm_compute in Hlo. discriminate. }
  split; (split; [vm_compute; reflexivity|]).
  - assert (E : extract_coords
       (u "https://maps.example/place/x/data=!3d25.0112!4d121.46375!16s")
     = Ok (Some 25.0112%float, Some 121.46375%float))
      by (vm_compute; reflexivity).
    rewrite E. apply Hne. vm_compute. reflexivity.
  - assert (E : extract_coords
       (u "https://maps.example/place/x/data=!3d1!4d2!3d25.0112!4d121.4637")
     = Ok (Some 1%float, Some 2%float))
      by (vm_compute; reflexivity).
    rewrite E. apply Hne. vm_compute. reflexivity.
Qed.

(** ** The order of binary64 values *)

Section FloatOrder.

Local Open Scope float_scope.

(** [<] and [<=] on values that are not NaN, as [SFcompare] decides them:
    a total preorder. *)
Lemma SFleb_refl (x : spec_float) : x <> S754_nan -> SFleb x x = true.
Proof.
  unfold SFleb, SFcompare. destruct x as [s|s| |s m e]; try reflexivity.
  - destruct s; reflexivity.
  - congruence.
  - intros _. rewrite Z.compare_refl.
    change (Pos.compare_cont Eq m m) with (Pos.compare m m).
    rewrite Pos.compare_refl. destruct s; reflexivity.
Qed.

Lemma SFltb_leb (x y : spec_float) : SFltb x y = true -> SFleb x y = true.
Proof.
  unfold SFltb, SFleb. destruct (SFcompare x y) as [[| |]|];
    try discriminate; reflexivity.
Qed.

Lemma SFltb_total (x y : spec_float) :
  x <> S754_nan -> y <> S754_nan -> SFltb x y = false -> SFleb y x = true.
Proof.
  unfold SFltb, SFleb, SFcompare.
  destruct x as [sx|sx| |sx mx ex], y as [sy|sy| |sy my ey];
    try congruence; intros _ _;
    try destruct sx; try destruct sy; simpl;
    try reflexivity; try discriminate; order_cases.
Qed.

Lemma SFltb_leb_trans (x y z : spec_float) :
  SFltb x y = true -> SFleb y z = true -> SFltb x z = true.
Proof.
  unfold SFltb, SFleb, SFcompare.
  destruct x as [sx|sx| |sx mx ex], y as [sy|sy| |sy my ey],
    z as [sz|sz| |sz mz ez];
    try discriminate;
    try destruct sx; try destruct sy; try destruct sz; simpl;
    try reflexivity; try discriminate; order_cases.
Qed.

Lemma SFleb_ltb_trans (x y z : spec_float) :
  SFleb x y = true -> SFltb y z = true -> SFltb x z = true.
Proof.
  unfold SFltb, SFleb, SFcompare.
  destruct x as [sx|sx| |sx mx ex], y as [sy|sy| |sy my ey],
    z as [sz|sz| |sz mz ez];
    try discriminate;
    try destruct sx; try destruct sy; try destruct sz; simpl;
    try reflexivity; try discriminate; order_cases.
Qed.

Lemma not_nan_spec (x : float) : is_nan x = false -> Prim2SF x <> S754_nan.
Proof.
  unfold is_nan. rewrite negb_false_iff, eqb_spec. intros H E.
  rewrite E in H. discriminate.
Qed.

Lemma leb_refl (x : float) : is_nan x = false -> (x <=? x) = true.
Proof. intros H. rewrite leb_spec. apply SFleb_refl, not_nan_spec, H. Qed.

Lemma ltb_leb (x y : float) : (x <? y) = true -> (x <=? y) = true.
Proof. rewrite ltb_spec, leb_spec. apply SFltb_leb. Qed.

Lemma ltb_total (x y : float) :
  is_nan x = false -> is_nan y = false ->
  (x <? y) = false -> (y <=? x) = true.
Proof.
  intros Hx Hy. rewrite ltb_spec, leb_spec.
  apply SFltb_total; apply not_nan_spec; assumption.
Qed.

Lemma ltb_leb_trans (x y z : float) :
  (x <? y) = true -> (y <=? z) = true -> (x <? z) = true.
Proof. rewrite !ltb_spec, leb_spec. apply SFltb_leb_trans. Qed.

Lemma leb_ltb_trans (x y z : float) :
  (x <=? y) = true -> (y <? z) = true -> (x <? z) = true.
Proof. rewrite !ltb_spec, leb_spec. apply SFleb_ltb_trans. Qed.

End FloatOrder.

(** ** The nearest centroid *)

Section Nearest.

(** [first_least] returns the first item whose key is minimal: no key is
    smaller, and every key before it is strictly larger. *)
Lemma first_least_minimum (items : list (str * float)) (best : str)
    (best_key : float) :
  is_nan best_key = false ->
  Forall (fun kv => is_nan (snd kv) = false) items ->
  exists i key,
    nth_error ((best, best_key) :: items) i
    = Some (first_least best best_key items, key)
    /\ forall j x kx,
        nth_error ((best, best_key) :: items) j = Some (x, kx) ->
        (key <=? kx)%float = true /\ (j < i -> (key <? kx)%float = true).
Proof.
  revert best best_key; induction items as [|[item k] items IH];
    intros best best_key Hb Hitems.
  - exists 0, best_key. split; [reflexivity|].
    intros [|[|j]] x kx H; try discriminate.
    injection H as <- <-. split; [apply leb_refl; exact Hb | lia].
  - inversion Hitems as [|? ? Hk Hrest]; subst. cbn [snd] in Hk.
    cbn [first_least]. destruct (k <? best_key)%float eqn:E.
    + destruct (IH item k Hk Hrest) as (i & key & Hi & Hmin).
      exists (S i), key. split; [exact Hi|].
      assert (Hkk : (key <=? k)%float = true) by (apply (Hmin 0 item k); reflexivity).
      intros [|j] x kx H.
      * injection H as <- <-.
        assert ((key <? best_key)%float = true) by (eapply leb_ltb_trans; eauto).
        split; [apply ltb_leb; assumption | auto].
      * destruct (Hmin j x kx H) as [H1 H2]. split; [exact H1|].
        intros Hj. apply H2. lia.
    + destruct (IH best best_key Hb Hrest) as (i & key & Hi & Hmin).
      assert (Hbk : (best_key <=? k)%float = true) by (apply ltb_total; assumption).
      destruct i as [|i].
      * injection Hi as Hi <-. exists 0, best_key.
        split; [cbn [nth_error]; rewrite <- Hi; reflexivity|].
        intros [|[|j]] x kx H.
        -- exact (Hmin 0 x kx H).
        -- injection H as <- <-. split; [exact Hbk | lia].
        -- destruct (Hmin (S j) x kx H) as [H1 _]. split; [exact H1 | lia].
      * exists (S (S i)), key. split; [exact Hi|].
        assert (Hlt : (key <? best_key)%float = true).
        { apply (Hmin 0 best best_key); [reflexivity | lia]. }
        intros [|[|j]] x kx H.
        -- destruct (Hmin 0 x kx H) as [H1 H2]. split; [exact H1|].
           intros _. apply H2. lia.
        -- injection H as <- <-.
           assert ((key <? k)%float = true) by (eapply ltb_leb_trans; eauto).
           split; [apply ltb_leb; assumption | auto].
        -- destruct (Hmin (S j) x kx H) as [H1 H2]. split; [exact H1|].
           intros Hj. apply H2. lia.
Qed.

(** On a dict, whose keys are distinct, [min] by [get] walks the items:
    each key is compared by the value stored with it. *)
Lemma min_loop_get (d : dict float) (rest : list (str * float)) (best : str)
    (best_key : float) :
  (forall k v, In (k, v) rest -> dict_get d k = Some v) ->
  min_loop (dict_get d) best (Some best_key) (map fst rest)
  = Ok (first_least best best_key rest).
Proof.
  revert best best_key; induction rest as [|[k v] rest IH];
    intros best best_key Hget; [reflexivity|].
  cbn [map fst min_loop first_least].
  rewrite (Hget k v) by (left; reflexivity). cbn [lt_ bind].
  destruct (v <? best_key)%float; apply IH; intros k' v' Hin;
    apply Hget; right; exact Hin.
Qed.

Lemma min_dict (d : dict float) :
  NoDup (map fst d) ->
  min_ (dict_keys d) (dict_get d)
  = match d with
    | [] => Raise ValueError
    | (k, v) :: rest => Ok (first_least k v rest)
    end.
Proof.
  intros Hnd. unfold min_, dict_keys. destruct d as [|[k v] rest];
    [reflexivity|].
  cbn [map fst].
  rewrite (dict_get_NoDup _ k v Hnd) by (left; reflexivity).
  apply min_loop_get. intros k' v' Hin.
  apply dict_get_NoDup; [exact Hnd | right; exact Hin].
Qed.

Variable M : libm.
Variables lat lon : float.

Lemma distance_defined_spec (c : Centroid.t) :
  distance_defined M lat lon c = true ->
  great_circle_distance M lat lon (Centroid.lat c) (Centroid.lon c)
  = Ok (distance_or_nan M lat lon c)
  /\ is_nan (distance_or_nan M lat lon c) = false.
Proof.
  unfold distance_defined, distance_or_nan.
  destruct (great_circle_distance M lat lon (Centroid.lat c) (Centroid.lon c));
    [|discriminate].
  rewrite negb_true_iff. auto.
Qed.

Lemma dict_setitem_new {V} (d : dict V) (k : str) (v : V) :
  ~ In k (map fst d) -> dict_setitem d k v = d ++ [(k, v)].
Proof.
  induction d as [|[k' v'] d IH]; cbn [dict_setitem map fst In app];
    [reflexivity|].
  intros H. destruct (str_eqb k' k) eqn:E.
  - apply str_eqb_eq in E. tauto.
  - rewrite IH; tauto.
Qed.

(** With distinct names the comprehension lists the centroids in registry
    order, each with its distance. *)
Lemma distances_of_defined (centroids : list Centroid.t) (acc : dict float) :
  NoDup (map fst acc ++ map Centroid.name centroids) ->
  forallb (distance_defined M lat lon) centroids = true ->
  distances_of M lat lon centroids acc
  = Ok (acc ++ map (fun c => (Centroid.name c, distance_or_nan M lat lon c)) centroids).
Proof.
  revert acc; induction centroids as [|c centroids IH]; intros acc Hnd Hdef.
  - cbn [distances_of map]. rewrite app_nil_r. reflexivity.
  - cbn [forallb] in Hdef. apply andb_true_iff in Hdef.
    destruct Hdef as [Hc Hdef].
    destruct (distance_defined_spec c Hc) as [Hd _].
    cbn [distances_of]. rewrite Hd. cbn [bind].
    cbn [map] in Hnd.
    rewrite dict_setitem_new.
    + rewrite IH; [|rewrite map_app; cbn [map fst]; rewrite <- app_assoc;
                     exact Hnd | exact Hdef].
      rewrite <- app_assoc. reflexivity.
    + apply NoDup_remove_2 in Hnd. intros H. apply Hnd.
      apply in_or_app. left; exact H.
Qed.

Lemma nearest_of_registry (centroids : list Centroid.t) :
  centroids <> [] ->
  NoDup (map Centroid.name centroids) ->
  forallb (distance_defined M lat lon) centroids = true ->
  exists i c,
    nth_error centroids i = Some c
    /\ (let* distances := distances_of M lat lon centroids [] in
        min_ (dict_keys distances) (dict_get distances))
       = Ok (Centroid.name c)
    /\ forall j c',
        nth_error centroids j = Some c' ->
        (distance_or_nan M lat lon c <=? distance_or_nan M lat lon c')%float = true
        /\ (j < i -> (distance_or_nan M lat lon c <? distance_or_nan M lat lon c')%float = true).
Proof.
  intros Hne Hnd Hdef.
  rewrite (distances_of_defined centroids [] Hnd Hdef). cbn [bind app].
  set (f := fun c => (Centroid.name c, distance_or_nan M lat lon c)).
  rewrite min_dict by (rewrite map_map; exact Hnd).
  destruct centroids as [|c0 rest]; [contradiction Hne; reflexivity|].
  cbn [map]. unfold f at 1.
  assert (Hall : forall c, In c (c0 :: rest) ->
                           is_nan (distance_or_nan M lat lon c) = false).
  { intros c Hin. rewrite forallb_forall in Hdef.
    apply distance_defined_spec, Hdef, Hin. }
  destruct (first_least_minimum (map f rest) (Centroid.name c0)
              (distance_or_nan M lat lon c0)) as (i & key & Hi & Hmin).
  { apply Hall. left; reflexivity. }
  { apply Forall_forall. intros kv Hin. apply in_map_iff in Hin.
    destruct Hin as (c & <- & Hin). apply Hall. right; exact Hin. }
  change ((Centroid.name c0, distance_or_nan M lat lon c0) :: map f rest)
    with (map f (c0 :: rest)) in Hi, Hmin.
  rewrite nth_error_map in Hi.
  destruct (nth_error (c0 :: rest) i) as [c|] eqn:Ec; [|discriminate].
  cbn [option_map] in Hi. unfold f in Hi at 1. injection Hi as Hname <-.
  exists i, c. split; [exact Ec | split].
  - rewrite <- Hname. reflexivity.
  - intros j c' Hj. apply (Hmin j (Centroid.name c')).
    rewrite nth_error_map, Hj. reflexivity.
Qed.

End Nearest.

(** Nearest-centroid resolution with the first-in-registry tie-break,
    where it resolves.  For a coordinate whose distance to every centroid
    is computed and is a number, [nearest_centroid] returns the name of a
    centroid whose distance no other centroid's distance is below, and
    every centroid before it in [CENTROIDS] is strictly farther: among
    centroids at exactly the same least distance the first in the
    registry is returned. *)
Theorem nearest_centroid_first_minimum (M : libm) (lat lon : float) :
  forallb (distance_defined M lat lon) CENTROIDS = true ->
  exists i c d,
    nth_error CENTROIDS i = Some c
    /\ great_circle_distance M lat lon (Centroid.lat c) (Centroid.lon c) = Ok d
    /\ nearest_centroid M lat lon = Ok (Centroid.name c)
    /\ forall j c',
        nth_error CENTROIDS j = Some c' ->
        exists d',
          great_circle_distance M lat lon (Centroid.lat c') (Centroid.lon c')
          = Ok d'
          /\ (d <=? d')%float = true
          /\ (j < i -> (d <? d')%float = true).
Proof.
  intros Hdef.
  assert (Hne : CENTROIDS <> []) by (unfold CENTROIDS; discriminate).
  destruct (nearest_of_registry M lat lon CENTROIDS Hne CENTROIDS_names Hdef)
    as (i & c & Hi & Hnear & Hmin).
  rewrite forallb_forall in Hdef.
  exists i, c, (distance_or_nan M lat lon c).
  split; [exact Hi | split; [|split]].
  - apply distance_defined_spec, Hdef. eapply nth_error_In; eauto.
  - exact Hnear.
  - intros j c' Hj. exists (distance_or_nan M lat lon c'). split.
    + apply distance_defined_spec, Hdef. eapply nth_error_In; eauto.
    + apply Hmin, Hj.
Qed.

(** An instance, on the Taylor library: a coordinate between the
    Songshan and Zhongshan centroids. *)
Lemma nearest_centroid_first_minimum_witness :
  exists i c d,
    nth_error CENTROIDS i = Some c
    /\ great_circle_distance taylor_libm 25.05 121.54
         (Centroid.lat c) (Centroid.lon c) = Ok d
    /\ nearest_centroid taylor_libm 25.05 121.54 = Ok (Centroid.name c)
    /\ forall j c',
        nth_error CENTROIDS j = Some c' ->
        exists d',
          great_circle_distance taylor_libm 25.05 121.54
            (Centroid.lat c') (Centroid.lon c') = Ok d'
          /\ (d <=? d')%float = true
          /\ (j < i -> (d <? d')%float = true).
Proof.
  apply (nearest_centroid_first_minimum taylor_libm 25.05 121.54).
  vm_compute. reflexivity.
Defined.

(** ** The cleaner *)

Lemma str_of_int_examples :
  str_of_int 0 = u "0" /\ str_of_int 1280 = u "1280"
  /\ str_of_int (-7) = u "-7".
Proof. split; [|split]; vm_compute; reflexivity. Qed.

Lemma strip_examples :
  strip (u "  4.5 ") = u "4.5" /\ strip (u " ") = []
  /\ strip (0x3000 :: u "花 店" ++ [0x0A; 0xA0])%N = u "花 店".
Proof. split; [|split]; vm_compute; reflexivity. Qed.

(** C9: unparsable numeric fields are recovered locally.  Whatever [float],
    [int] and [format] do on the strings they accept, both normalizers
    return, and never raise: the empty string when the stripped value is
    empty or is rejected with [ValueError], the normalized number
    otherwise. *)
Theorem normalizers_recover (py_float : str -> option float)
    (py_int : str -> option Z) (format_g : float -> str) (value : str) :
  normalize_rating py_float format_g value
  = Ok (normalized_or_empty py_float format_g value)
  /\ normalize_review_count py_int value
     = Ok (normalized_or_empty py_int str_of_int value).
Proof.
  unfold normalize_rating, normalize_review_count, normalized_or_empty,
    float_, int_.
  destruct (strip value) as [|c v]; [split; reflexivity|].
  split.
  - destruct (py_float (c :: v)); reflexivity.
  - destruct (py_int (c :: v)); reflexivity.
Qed.

(** * Further properties: the rest of the two scripts *)

(** ** [strip] *)

Section Strip.

Lemma lstrip_fixed (s : str) : starts_in isspace s = false -> lstrip s = s.
Proof. destruct s as [|c s]; cbn [starts_in lstrip]; [reflexivity|]. intros ->. reflexivity. Qed.

Lemma lstrip_no_lead (s : str) : starts_in isspace (lstrip s) = false.
Proof.
  induction s as [|c s IH]; cbn [lstrip]; [reflexivity|].
  destruct (isspace c) eqn:E; [exact IH | cbn [starts_in]; exact E].
Qed.

Lemma lstrip_idem (s : str) : lstrip (lstrip s) = lstrip s.
Proof. apply lstrip_fixed, lstrip_no_lead. Qed.

Lemma lstrip_split (s : str) :
  exists a, s = a ++ lstrip s /\ forallb isspace a = true.
Proof.
  induction s as [|c s IH]; cbn [lstrip]; [exists []; auto|].
  destruct (isspace c) eqn:E.
  - destruct IH as (a & Hs & Ha). exists (c :: a). cbn [app forallb].
    rewrite E, Ha, <- Hs. auto.
  - exists []. auto.
Qed.

Lemma forallb_rev {A} (p : A -> bool) (l : list A) :
  forallb p l = true -> forallb p (rev l) = true.
Proof.
  rewrite !forallb_forall. intros H x Hx. apply H, in_rev, Hx.
Qed.

Lemma rstrip_split (s : str) :
  exists b, s = rstrip s ++ b /\ forallb isspace b = true.
Proof.
  destruct (lstrip_split (rev s)) as (a & Hs & Ha).
  exists (rev a). split; [|apply forallb_rev, Ha].
  unfold rstrip. rewrite <- rev_app_distr, <- Hs, rev_involutive. reflexivity.
Qed.

Lemma rstrip_idem (s : str) : rstrip (rstrip s) = rstrip s.
Proof. unfold rstrip. rewrite rev_involutive, lstrip_idem. reflexivity. Qed.

Lemma rstrip_no_lead (s : str) :
  starts_in isspace s = false -> starts_in isspace (rstrip s) = false.
Proof.
  intros H. destruct (rstrip_split s) as (b & Hs & _).
  destruct (rstrip s) as [|c r]; [reflexivity|].
  rewrite Hs in H. exact H.
Qed.

Lemma strip_idempotent (s : str) : strip (strip s) = strip s.
Proof.
  unfold strip.
  rewrite (lstrip_fixed (rstrip (lstrip s)))
    by apply rstrip_no_lead, lstrip_no_lead.
  apply rstrip_idem.
Qed.

(** [strip] removes blanks at both ends and nothing else. *)
Lemma strip_split (s : str) :
  exists a b, s = a ++ strip s ++ b
              /\ forallb isspace a = true /\ forallb isspace b = true.
Proof.
  destruct (lstrip_split s) as (a & Hs & Ha).
  destruct (rstrip_split (lstrip s)) as (b & Ht & Hb).
  exists a, b. unfold strip. rewrite <- Ht. auto.
Qed.

Lemma strip_no_blank (s : str) :
  forallb (fun c => negb (isspace c)) s = true -> strip s = s.
Proof.
  intros H.
  assert (Hlead : forall t, forallb (fun c => negb (isspace c)) t = true ->
                            lstrip t = t).
  { intros [|c t]; cbn [forallb lstrip]; [reflexivity|].
    rewrite andb_true_iff, negb_true_iff. intros [-> _]. reflexivity. }
  unfold strip, rstrip. rewrite (Hlead s H).
  rewrite (Hlead (rev s)) by apply forallb_rev, H.
  apply rev_involutive.
Qed.

End Strip.

(** ** Rows, comprehensions and the CSV writer *)

Section Rows.

Lemma dict_get_default_In {V} (d : dict V) (k : str) (v default : V) :
  NoDup (dict_keys d) -> In (k, v) d -> dict_get_default d k default = v.
Proof.
  intros Hnd Hin. unfold dict_get_default.
  rewrite (dict_get_NoDup d k v Hnd Hin). reflexivity.
Qed.

Lemma dict_get_absent {V} (d : dict V) (k : str) :
  ~ In k (dict_keys d) -> dict_get d k = None.
Proof.
  intros H. apply dict_get_None. intros v Hin. apply H.
  unfold dict_keys. apply in_map_iff. exists (k, v). auto.
Qed.

Lemma existsb_str_eqb (k : str) (keys : list str) :
  existsb (str_eqb k) keys = true <-> In k keys.
Proof.
  rewrite existsb_exists. split.
  - intros (x & Hin & E). apply str_eqb_eq in E. subst. exact Hin.
  - intros Hin. exists k. split; [exact Hin | apply str_eqb_refl].
Qed.

(** A dict whose keys are the writer's field names, in that order, is
    written as its values. *)
Lemma dict_to_list_exact (d : dict str) :
  NoDup (dict_keys d) ->
  Csv.dict_to_list (dict_keys d) d = Ok (map snd d).
Proof.
  intros Hnd. unfold Csv.dict_to_list.
  assert (Hall : forallb (fun k => existsb (str_eqb k) (dict_keys d))
                   (dict_keys d) = true).
  { apply forallb_forall. intros k Hk. apply existsb_str_eqb, Hk. }
  rewrite Hall. f_equal. unfold dict_keys. rewrite map_map.
  apply map_ext_in. intros [k v] Hin. cbn [fst snd].
  apply dict_get_default_In; assumption.
Qed.

Lemma list_comp_Ok {A B} (f : A -> result B) (items : list A) (ys : list B) :
  list_comp f items = Ok ys <-> Forall2 (fun x y => f x = Ok y) items ys.
Proof.
  revert ys; induction items as [|x items IH]; intros ys; cbn [list_comp].
  - split.
    + intros H; injection H as <-. constructor.
    + intros H; inversion H. reflexivity.
  - split.
    + destruct (f x) as [y|e] eqn:E; cbn [bind]; [|discriminate].
      destruct (list_comp f items) as [ys'|e] eqn:E'; cbn [bind];
        [|discriminate].
      intros H; injection H as <-. constructor; [exact E | apply IH; reflexivity].
    + intros H; inversion H as [|? y ? ys' Hx Hrest]; subst.
      rewrite Hx. cbn [bind]. apply IH in Hrest. rewrite Hrest. reflexivity.
Qed.

Lemma list_comp_all {A B} (f : A -> result B) (items : list A) :
  (forall x, In x items -> exists y, f x = Ok y) ->
  exists ys, list_comp f items = Ok ys.
Proof.
  induction items as [|x items IH]; intros H; cbn [list_comp]; [eauto|].
  destruct (H x (or_introl eq_refl)) as (y & ->). cbn [bind].
  destruct IH as (ys & ->); [intros x' Hx'; apply H; right; exact Hx'|].
  cbn [bind]. eauto.
Qed.

Lemma list_comp_Raise {A B} (f : A -> result B) (items : list A) (x : A)
    (e : exn) :
  In x items -> f x = Raise e -> exists e', list_comp f items = Raise e'.
Proof.
  induction items as [|x0 items IH]; intros Hin Hx; [destruct Hin|].
  cbn [list_comp]. destruct (f x0) as [y|e0] eqn:E; cbn [bind]; [|eauto].
  destruct Hin as [-> | Hin]; [congruence|].
  destruct (IH Hin Hx) as (e' & ->). cbn [bind]. eauto.
Qed.

End Rows.

(** ** [normalize_row] *)

Section NormalizeRow.

Variable M : libm.

Lemma fieldnames_distinct : NoDup fieldnames.
Proof. apply distinct_NoDup. vm_compute. reflexivity. Qed.

Lemma tagged_row_display (a b c d e f g h : str) :
  dict_of_items
    [ (u "name", a); (u "address", b); (u "url", c); (u "rating", d);
      (u "rating_count", e); (u "phone", f); (u "image", g);
      (u "district", h) ]
  = [ (u "name", a); (u "address", b); (u "url", c); (u "rating", d);
      (u "rating_count", e); (u "phone", f); (u "image", g);
      (u "district", h) ].
Proof. vm_compute. reflexivity. Qed.

Lemma tagged_row_written (a b c d e f g h : str) :
  Csv.dict_to_list fieldnames
    [ (u "name", a); (u "address", b); (u "url", c); (u "rating", d);
      (u "rating_count", e); (u "phone", f); (u "image", g);
      (u "district", h) ]
  = Ok (map snd
          [ (u "name", a); (u "address", b); (u "url", c); (u "rating", d);
            (u "rating_count", e); (u "phone", f); (u "image", g);
            (u "district", h) ]).
Proof. vm_compute. reflexivity. Qed.

(** What [normalize_row] returns, when it returns. *)
Lemma normalize_row_Ok (row out : dict str) :
  normalize_row M row = Ok out ->
  exists lat lon district,
    extract_coords (dict_get_default row (u "hfpxzc href") []) = Ok (lat, lon)
    /\ infer_district M
         (strip (dict_get_default row (u "qBF1Pd") []))
         (strip (dict_get_default row [] []))
         (strip (dict_get_default row (u "hfpxzc href") []))
         lat lon = Ok district
    /\ out =
       [ (u "name", strip (dict_get_default row (u "qBF1Pd") []));
         (u "address", strip (dict_get_default row [] []));
         (u "url", strip (dict_get_default row (u "hfpxzc href") []));
         (u "rating", strip (dict_get_default row (u "評分") []));
         (u "rating_count", strip (dict_get_default row (u "評分數") []));
         (u "phone", strip (dict_get_default row (u "UsdlK") []));
         (u "image", strip (dict_get_default row (u "FQ2IWe src") []));
         (u "district", district) ].
Proof.
  unfold normalize_row.
  destruct (extract_coords (dict_get_default row (u "hfpxzc href") []))
    as [[lat lon]|e]; cbn [bind]; [|discriminate].
  destruct (infer_district M _ _ _ lat lon) as [district|e] eqn:E;
    cbn [bind]; [|discriminate].
  rewrite tagged_row_display. intros H; injection H as <-.
  exists lat, lon, district. auto.
Qed.

(** X1: a row [normalize_row] returns has exactly the columns [write_csv]
    declares, in that order, so the CSV writer accepts it and writes its
    eight values. *)
Theorem normalize_row_columns (row out : dict str) :
  normalize_row M row = Ok out ->
  dict_keys out = fieldnames
  /\ Csv.dict_to_list fieldnames out = Ok (map snd out).
Proof.
  intros H. destruct (normalize_row_Ok _ _ H) as (lat & lon & d & _ & _ & ->).
  assert (Hk : dict_keys
                 [ (u "name", strip (dict_get_default row (u "qBF1Pd") []));
                   (u "address", strip (dict_get_default row [] []));
                   (u "url", strip (dict_get_default row (u "hfpxzc href") []));
                   (u "rating", strip (dict_get_default row (u "評分") []));
                   (u "rating_count",
                    strip (dict_get_default row (u "評分數") []));
                   (u "phone", strip (dict_get_default row (u "UsdlK") []));
                   (u "image", strip (dict_get_default row (u "FQ2IWe src") []));
                   (u "district", d) ] = fieldnames) by reflexivity.
  split; [exact Hk|].
  rewrite <- Hk. apply dict_to_list_exact. rewrite Hk.
  exact fieldnames_distinct.
Qed.

Lemma label_stripped (l : str) :
  In l KNOWN_DISTRICTS \/ l = UNRESOLVED -> strip l = l.
Proof.
  intros H.
  assert (Hall : forallb (fun s => str_eqb (strip s) s)
                   (UNRESOLVED :: KNOWN_DISTRICTS) = true)
    by (vm_compute; reflexivity).
  rewrite forallb_forall in Hall. apply str_eqb_eq, Hall.
  destruct H as [H | ->]; [right; exact H | left; reflexivity].
Qed.

(** X2: every field of a tagged row, the district label included, is free
    of blanks at both ends: stripping it again changes nothing. *)
Theorem normalize_row_stripped (row out : dict str) (k v : str) :
  normalize_row M row = Ok out -> In (k, v) out -> strip v = v.
Proof.
  intros H Hin.
  destruct (normalize_row_Ok _ _ H) as (lat & lon & d & _ & Hd & ->).
  apply infer_district_label in Hd. destruct Hd as [Hd _].
  cbn [In] in Hin.
  repeat (destruct Hin as [Hin | Hin];
          [injection Hin as _ <-;
           first [apply strip_idempotent | apply label_stripped; exact Hd]|]).
  destruct Hin.
Qed.

End NormalizeRow.

(** Witnesses for X1 and X2. *)
Lemma normalize_row_columns_witness :
  exists out,
    normalize_row taylor_libm padded_row = Ok out
    /\ dict_keys out = fieldnames
    /\ Csv.dict_to_list fieldnames out = Ok (map snd out).
Proof.
  assert (H : exists out, normalize_row taylor_libm padded_row = Ok out)
    by (vm_compute; eauto).
  destruct H as (out & H). exists out. split; [exact H|].
  exact (normalize_row_columns taylor_libm padded_row out H).
Defined.

Lemma normalize_row_stripped_witness :
  exists out,
    normalize_row taylor_libm padded_row = Ok out
    /\ In (u "name", u "花店") out
    /\ strip (u "花店") = u "花店".
Proof.
  assert (H : exists out, normalize_row taylor_libm padded_row = Ok out
                          /\ In (u "name", u "花店") out).
  { eexists. split; [vm_compute; reflexivity|]. left. reflexivity. }
  destruct H as (out & H & Hin). exists out.
  split; [exact H | split; [exact Hin|]].
  exact (normalize_row_stripped taylor_libm padded_row out _ _ H Hin).
Defined.

(** ** More on the coordinate extractor *)

Section Extractor.

Lemma blank_not_in_class (c : char) : isspace c = true -> coord_class c = false.
Proof.
  intros H. apply not_true_iff_false. intros H'.
  unfold isspace in H. unfold coord_class, is_digit in H'.
  repeat (rewrite orb_true_iff in H || rewrite andb_true_iff in H
          || rewrite N.leb_le in H || rewrite N.eqb_eq in H).
  repeat (rewrite orb_true_iff in H' || rewrite andb_true_iff in H'
          || rewrite N.leb_le in H' || rewrite N.eqb_eq in H').
  unfold char in c. lia.
Qed.

Lemma startswith_app_blank (l s b : str) :
  l <> [] ->
  (forall c, In c b -> ~ In c l) ->
  startswith (s ++ b) l = startswith s l.
Proof.
  intros Hl Hb. revert s; induction l as [|x l IH]; intros s;
    [contradiction Hl; reflexivity|].
  destruct s as [|y s]; cbn [app startswith].
  - destruct b as [|c b]; [reflexivity|].
    destruct (chr_eqb x c) eqn:E; [|reflexivity].
    apply N.eqb_eq in E. subst. exfalso.
    apply (Hb c); left; reflexivity.
  - destruct (chr_eqb x y); [|reflexivity]. cbn [andb].
    destruct l as [|x' l]; [reflexivity|].
    apply IH; [discriminate|].
    intros c Hc Hin. apply (Hb c Hc). right; exact Hin.
Qed.

(** Blanks after the text change nothing for a group, as long as the rest
    of the pattern does not see them either. *)
Lemma greedy_app_blank (cls : char -> bool) (k : str -> option (list str))
    (b : str) :
  (forall c, In c b -> cls c = false) ->
  (forall r, k (r ++ b) = k r) ->
  forall s taken, Re.greedy cls k taken (s ++ b) = Re.greedy cls k taken s.
Proof.
  intros Hb Hk. induction s as [|c s IH]; intros taken.
  - cbn [app]. destruct b as [|c b]; [reflexivity|].
    cbn [Re.greedy]. rewrite (Hb c) by (left; reflexivity).
    specialize (Hk []). cbn [app] in Hk. rewrite Hk. reflexivity.
  - pose proof (Hk (c :: s)) as Hk'. cbn [app] in Hk'.
    cbn [app Re.greedy]. rewrite IH, Hk'. reflexivity.
Qed.

Lemma match_app_blank (p : Re.pattern) (b : str) :
  p <> [] -> blind_to b p ->
  forall s, Re.match_ p (s ++ b) = Re.match_ p s.
Proof.
  assert (Hgen : forall q, blind_to b q ->
            forall s, Re.match_ q (s ++ b)
                      = match q with
                        | [] => Some []
                        | _ :: _ => Re.match_ q s
                        end).
  { clear p. induction q as [|[l|cls] p' IH]; intros Hp s; [reflexivity| |].
    - destruct Hp as (Hl & Hb & Hp'). cbn [Re.match_].
      rewrite (startswith_app_blank l s b Hl Hb).
      destruct (startswith s l) eqn:E; [|reflexivity].
      apply startswith_spec in E. destruct E as (r & ->).
      rewrite <- app_assoc, !skipn_length_app.
      rewrite (IH Hp'). destruct p'; reflexivity.
    - destruct Hp as (Hb & Hp'). cbn [Re.match_].
      destruct p' as [|i p''].
      + clear IH. revert s. cut (forall s taken,
          Re.greedy cls (Re.match_ []) taken (s ++ b)
          = Re.greedy cls (Re.match_ []) taken s); [auto|].
        apply greedy_app_blank; [exact Hb | reflexivity].
      + apply greedy_app_blank; [exact Hb|]. intros r. apply (IH Hp'). }
  intros Hne Hp s. rewrite (Hgen p Hp). destruct p; [contradiction|reflexivity].
Qed.

Lemma search_app_blank (p : Re.pattern) (b : str) (s : str) :
  p <> [] -> blind_to b p ->
  Re.match_ p [] = None ->
  (forall c t, In c b -> Re.match_ p (c :: t) = None) ->
  Re.search p (s ++ b) = Re.search p s.
Proof.
  intros Hne Hp Hnil Hlead.
  assert (Hb : forall b', (forall c, In c b' -> In c b) ->
                          Re.search p b' = None).
  { induction b' as [|c b' IH]; intros Hsub; cbn [Re.search].
    - rewrite Hnil. reflexivity.
    - rewrite Hlead by (apply Hsub; left; reflexivity).
      apply IH. intros x Hx. apply Hsub. right; exact Hx. }
  induction s as [|c s IH].
  - cbn [app]. rewrite Hb by auto. cbn [Re.search]. rewrite Hnil. reflexivity.
  - change ((c :: s) ++ b) with (c :: (s ++ b)). cbn [Re.search].
    change (c :: (s ++ b)) with ((c :: s) ++ b).
    rewrite (match_app_blank p b Hne Hp). rewrite IH. reflexivity.
Qed.

Lemma search_blank_app (p : Re.pattern) (a s : str) :
  (forall c t, In c a -> Re.match_ p (c :: t) = None) ->
  Re.search p (a ++ s) = Re.search p s.
Proof.
  intros Ha. induction a as [|c a IH]; [reflexivity|].
  cbn [app Re.search]. rewrite (Ha c) by (left; reflexivity).
  apply IH. intros c' t Hc'. apply Ha. right; exact Hc'.
Qed.

Lemma lit_3d : u "!3d" = [0x21; 0x33; 0x64]%N.
Proof. vm_compute. reflexivity. Qed.

Lemma COORD_RE_not_at_blank (c : char) (t : str) :
  isspace c = true -> Re.match_ COORD_RE (c :: t) = None.
Proof.
  intros Hc. unfold COORD_RE. cbn [Re.match_]. rewrite lit_3d.
  cbn [startswith]. destruct (chr_eqb 0x21%N c) eqn:E; [|reflexivity].
  apply N.eqb_eq in E. subst. vm_compute in Hc. discriminate.
Qed.

Lemma COORD_RE_blind (b : str) :
  forallb isspace b = true -> blind_to b COORD_RE.
Proof.
  intros Hb. rewrite forallb_forall in Hb.
  assert (Hlit : forall c, In c b -> ~ In c [0x21; 0x33; 0x34; 0x64]%N).
  { intros c Hc Hin. apply Hb in Hc. cbn [In] in Hin.
    repeat (destruct Hin as [<- | Hin]; [vm_compute in Hc; discriminate|]).
    destruct Hin. }
  unfold COORD_RE. rewrite lit_3d, lit_4d. cbn [blind_to].
  repeat split; try discriminate;
    try (intros c Hc; apply blank_not_in_class, Hb, Hc);
    intros c Hc Hin; apply (Hlit c Hc); cbn [In] in *; tauto.
Qed.

(** The pattern finds in the stripped text what it finds in the text. *)
Lemma COORD_RE_search_strip (url : str) :
  Re.search COORD_RE (strip url) = Re.search COORD_RE url.
Proof.
  destruct (strip_split url) as (a & b & Hurl & Ha & Hb).
  rewrite Hurl at 2.
  rewrite search_blank_app.
  - symmetry. apply search_app_blank.
    + discriminate.
    + apply COORD_RE_blind, Hb.
    + vm_compute. reflexivity.
    + intros c t Hc. apply COORD_RE_not_at_blank.
      rewrite forallb_forall in Hb. apply Hb, Hc.
  - intros c t Hc. apply COORD_RE_not_at_blank.
    rewrite forallb_forall in Ha. apply Ha, Hc.
Qed.

(** X3: the extractor does not care about blanks around the URL: on the
    raw column and on the stripped one it gives the same result, so
    [normalize_row] may extract before it strips. *)
Theorem extract_coords_strip (url : str) :
  extract_coords (strip url) = extract_coords url.
Proof.
  unfold extract_coords. rewrite COORD_RE_search_strip. reflexivity.
Qed.

(** The shape of a text at whose start [COORD_RE] matches. *)
Lemma COORD_RE_match_shape (s : str) (m : list str) :
  Re.match_ COORD_RE s = Some m ->
  exists g1 g2 post,
    s = marker g1 g2 ++ post /\ m = [g1; g2]
    /\ is_token g1 = true /\ is_token g2 = true.
Proof.
  unfold COORD_RE. cbn [Re.match_]. intros H.
  destruct (startswith s (u "!3d")) eqn:E3; [|discriminate].
  apply startswith_spec in E3. destruct E3 as (r0 & ->).
  rewrite skipn_length_app in H.
  apply greedy_sound in H.
  destruct H as (g1 & r1 & gs1 & -> & Hg1 & N1 & H & ->).
  destruct (startswith r1 (u "!4d")) eqn:E4; [|discriminate].
  apply startswith_spec in E4. destruct E4 as (r2 & ->).
  rewrite skipn_length_app in H.
  apply greedy_sound in H.
  destruct H as (g2 & post & gs2 & -> & Hg2 & N2 & H & ->).
  injection H as <-. cbn [rev app] in *.
  exists g1, g2, post. unfold marker. rewrite <- !app_assoc.
  repeat split.
  - destruct g1; [contradiction N1; reflexivity | exact Hg1].
  - destruct g2; [contradiction N2; reflexivity | exact Hg2].
Qed.

(** X4: no marker, no coordinate.  A URL that lacks the text "!3d", or
    the text "!4d", yields [(None, None)]; nothing is raised. *)
Theorem extract_coords_needs_markers (url : str) :
  str_in (u "!3d") url = false \/ str_in (u "!4d") url = false ->
  extract_coords url = Ok (None, None).
Proof.
  intros H. unfold extract_coords.
  destruct (Re.search COORD_RE url) as [m|] eqn:E; [|reflexivity].
  exfalso. apply search_sound in E. destruct E as (pre & s' & -> & E).
  apply COORD_RE_match_shape in E.
  destruct E as (g1 & g2 & post & -> & _).
  unfold marker in H.
  assert (H3 : str_in (u "!3d")
                 (pre ++ (u "!3d" ++ g1 ++ u "!4d" ++ g2) ++ post) = true).
  { apply str_in_spec. exists pre, ((g1 ++ u "!4d" ++ g2) ++ post).
    rewrite <- !app_assoc. reflexivity. }
  assert (H4 : str_in (u "!4d")
                 (pre ++ (u "!3d" ++ g1 ++ u "!4d" ++ g2) ++ post) = true).
  { apply str_in_spec. exists (pre ++ u "!3d" ++ g1), (g2 ++ post).
    rewrite <- !app_assoc. reflexivity. }
  destruct H; congruence.
Qed.

End Extractor.

(** Witness for X4: a search URL. *)
Lemma extract_coords_needs_markers_witness :
  extract_coords (u "https://www.google.com/maps/search/花店/@25.01,121.46,14z")
  = Ok (None, None).
Proof.
  apply extract_coords_needs_markers. left. vm_compute. reflexivity.
Defined.

(** ** No NaN out of a URL *)

Section NoNaN.

Lemma shr_1_nonneg (mrs : shr_record) :
  (0 <= shr_m mrs)%Z -> (0 <= shr_m (shr_1 mrs))%Z.
Proof.
  destruct mrs as [m r s]. cbn [shr_m].
  destruct m as [|[p|p|]|[p|p|]]; cbn [shr_1 shr_m]; lia.
Qed.

Lemma iter_shr_1_nonneg (p : positive) (mrs : shr_record) :
  (0 <= shr_m mrs)%Z -> (0 <= shr_m (iter_pos shr_1 p mrs))%Z.
Proof.
  revert mrs. induction p as [p IH|p IH|]; intros mrs H; cbn [iter_pos].
  - apply IH, IH, shr_1_nonneg, H.
  - apply IH, IH, H.
  - apply shr_1_nonneg, H.
Qed.

Lemma shr_fexp_nonneg (p e m ex : Z) (l : location) :
  (0 <= m)%Z -> (0 <= shr_m (fst (shr_fexp p e m ex l)))%Z.
Proof.
  intros H. unfold shr_fexp, shr.
  assert (H0 : (0 <= shr_m (shr_record_of_loc m l))%Z)
    by (destruct l as [|[]]; exact H).
  destruct (fexp p e (Zdigits2 m + ex) - ex)%Z; cbn [fst];
    [exact H0 | apply iter_shr_1_nonneg, H0 | exact H0].
Qed.

Lemma round_nearest_even_nonneg (m : Z) (l : location) :
  (0 <= m)%Z -> (0 <= round_nearest_even m l)%Z.
Proof.
  intros H. unfold round_nearest_even.
  destruct l as [|[]]; try destruct (IntDef.Z.even m); lia.
Qed.

(** Rounding a non-negative mantissa gives a zero, a finite number or an
    infinity. *)
Lemma binary_round_aux_not_nan (p e : Z) (sx : bool) (mx ex : Z)
    (lx : location) :
  (0 <= mx)%Z -> binary_round_aux p e sx mx ex lx <> S754_nan.
Proof.
  intros H. unfold binary_round_aux.
  pose proof (shr_fexp_nonneg p e mx ex lx H) as H1.
  destruct (shr_fexp p e mx ex lx) as [mrs' e']. cbn [fst] in H1.
  pose proof (shr_fexp_nonneg p e _ e' loc_Exact
                (round_nearest_even_nonneg _ (loc_of_shr_record mrs') H1))
    as H2.
  destruct (shr_fexp p e _ e' loc_Exact) as [mrs'' e'']. cbn [fst] in H2.
  destruct (shr_m mrs''); [discriminate | | lia].
  destruct (e'' <=? e - p)%Z; discriminate.
Qed.

Lemma binary_round_not_nan (p e : Z) (sx : bool) (mx : positive) (ex : Z) :
  binary_round p e sx mx ex <> S754_nan.
Proof.
  unfold binary_round. destruct (shl_align mx ex _) as [mz ez].
  apply binary_round_aux_not_nan. lia.
Qed.

Lemma binary_normalize_not_nan (p e m ex : Z) (szero : bool) :
  binary_normalize p e m ex szero <> S754_nan.
Proof.
  unfold binary_normalize.
  destruct m; [discriminate | apply binary_round_not_nan ..].
Qed.

Lemma SFeqb_refl (x : spec_float) : x <> S754_nan -> SFeqb x x = true.
Proof.
  unfold SFeqb, SFcompare. destruct x as [s|s| |s m e]; try reflexivity.
  - destruct s; reflexivity.
  - congruence.
  - intros _. rewrite Z.compare_refl.
    change (Pos.compare_cont Eq m m) with (Pos.compare m m).
    rewrite Pos.compare_refl. destruct s; reflexivity.
Qed.

Lemma is_nan_false (x : float) : Prim2SF x <> S754_nan -> is_nan x = false.
Proof.
  intros H. unfold is_nan. rewrite eqb_spec, (SFeqb_refl _ H). reflexivity.
Qed.

Lemma SF2Prim_not_nan (x : spec_float) :
  x <> S754_nan -> is_nan (SF2Prim x) = false.
Proof.
  destruct x as [s|s| |s m e]; intros Hx.
  - destruct s; reflexivity.
  - destruct s; reflexivity.
  - contradiction Hx; reflexivity.
  - cbn [SF2Prim]. cbv zeta.
    assert (Hf : forall pm ex,
               Prim2SF pm <> S754_nan -> Prim2SF (Z.ldexp pm ex) <> S754_nan).
    { intros pm ex Hpm. unfold Z.ldexp. rewrite ldshiftexp_spec.
      unfold SFldexp. destruct (Prim2SF pm); try exact Hpm.
      apply binary_round_not_nan. }
    assert (Hm : Prim2SF (Z.ldexp
                            (of_uint63 (Uint63Axioms.of_Z (Z.pos m))) e)
                 <> S754_nan).
    { apply Hf. rewrite of_uint63_spec. apply binary_normalize_not_nan. }
    apply is_nan_false. destruct s; [|exact Hm].
    rewrite opp_spec.
    destruct (Prim2SF (Z.ldexp _ e)); try discriminate.
    contradiction Hm; reflexivity.
Qed.

Lemma span_all (p : char -> bool) (s : str) :
  forallb p (fst (span p s)) = true.
Proof.
  induction s as [|c s IH]; cbn [span]; [reflexivity|].
  destruct (p c) eqn:E; [|reflexivity].
  destruct (span p s) as [a b]. cbn [fst forallb] in *. rewrite E, IH.
  reflexivity.
Qed.

Lemma digits_value_nonneg (ds : str) :
  forallb is_digit ds = true -> (0 <= digits_value ds)%Z.
Proof.
  unfold digits_value.
  assert (H : forall acc, (0 <= acc)%Z -> forallb is_digit ds = true ->
                (0 <= fold_left (fun acc c => acc * 10 + (Z.of_N c - 0x30))
                        ds acc)%Z).
  { induction ds as [|c ds IH]; intros acc Hacc Hds; cbn [fold_left];
      [exact Hacc|].
    cbn [forallb] in Hds. apply andb_true_iff in Hds.
    destruct Hds as [Hc Hds]. apply IH; [|exact Hds].
    unfold is_digit in Hc. apply andb_true_iff in Hc.
    destruct Hc as [Hc _]. apply N.leb_le in Hc. lia. }
  apply H. lia.
Qed.

Lemma round_ratio_not_nan (neg : bool) (m d : Z) :
  (0 <= m)%Z -> (0 < d)%Z -> round_ratio neg m d <> S754_nan.
Proof.
  intros Hm Hd. unfold round_ratio.
  destruct (m =? 0)%Z; [discriminate|]. cbv zeta.
  apply binary_round_aux_not_nan.
  apply Z.div_pos; [|exact Hd].
  apply Z.mul_nonneg_nonneg; [exact Hm|]. apply Z.pow_nonneg. lia.
Qed.

(** [float] on a numeral of digits, point and sign is never NaN. *)
Lemma float_of_str_not_nan (s : str) (x : float) :
  float_of_str s = Ok x -> is_nan x = false.
Proof.
  unfold float_of_str.
  destruct (match s with
            | 0x2D%N :: s' => (true, s')
            | 0x2B%N :: s' => (false, s')
            | _ => (false, s)
            end) as [neg body].
  pose proof (span_all is_digit body) as Hi.
  destruct (span is_digit body) as [int_part rest]. cbn [fst] in Hi.
  remember (match rest with
            | 0x2E%N :: r => span is_digit r
            | _ => ([], rest)
            end) as fr eqn:Efr.
  assert (Hf : forallb is_digit (fst fr) = true).
  { subst fr. destruct rest as [|c r']; [reflexivity|].
    destruct c as [|q]; [reflexivity|].
    repeat (destruct q as [q|q|]; try reflexivity).
    apply span_all. }
  clear Efr. destruct fr as [frac_part rest']. cbn [fst] in Hf.
  destruct rest'; [|discriminate].
  destruct (int_part ++ frac_part) as [|c ds] eqn:E; [discriminate|].
  intros H; injection H as <-. apply SF2Prim_not_nan, round_ratio_not_nan.
  - apply digits_value_nonneg. rewrite <- E, forallb_app, Hi, Hf.
    reflexivity.
  - apply Z.pow_pos_nonneg; lia.
Qed.

(** X8: no URL yields a NaN.  The coordinates [extract_coords] returns
    are zeros, finite numbers or infinities: the tokens of [COORD_RE]
    cannot spell one. *)
Theorem extract_coords_never_nan (url : str) (la lo : float) :
  extract_coords url = Ok (Some la, Some lo) ->
  is_nan la = false /\ is_nan lo = false.
Proof.
  unfold extract_coords.
  destruct (Re.search COORD_RE url) as [m|]; [|discriminate].
  destruct (float_of_str (Re.group m 1)) as [x|e] eqn:E1; cbn [bind];
    [|discriminate].
  destruct (float_of_str (Re.group m 2)) as [y|e] eqn:E2; cbn [bind];
    [|discriminate].
  intros H; injection H as <- <-.
  split; eapply float_of_str_not_nan; eassumption.
Qed.

End NoNaN.

(** Witness for X8: a latitude beyond the binary64 range. *)
Lemma extract_coords_never_nan_witness :
  extract_coords (u "!3d" ++ repeat 0x39%N 400 ++ u "!4d-0.0")
  = Ok (Some infinity, Some (-0)%float)
  /\ is_nan infinity = false /\ is_nan (-0)%float = false.
Proof.
  assert (H : extract_coords (u "!3d" ++ repeat 0x39%N 400 ++ u "!4d-0.0")
              = Ok (Some infinity, Some (-0)%float))
    by (vm_compute; reflexivity).
  split; [exact H|]. exact (extract_coords_never_nan _ _ _ H).
Defined.

(** ** More on the classifier *)

Section Classifier.

Variable M : libm.

Lemma dict_contains_getitem {V} (d : dict V) (k : str) :
  dict_contains d k = true -> exists v, dict_getitem d k = Ok v.
Proof.
  unfold dict_contains, dict_getitem.
  destruct (dict_get d k) as [v|]; [eauto | discriminate].
Qed.

Lemma dict_contains_false {V} (d : dict V) (k : str) :
  dict_contains d k = false <-> forall v, ~ In (k, v) d.
Proof.
  rewrite <- dict_get_None. unfold dict_contains.
  destruct (dict_get d k); split; congruence.
Qed.

Lemma UNRESOLVED_fresh : ~ In UNRESOLVED KNOWN_DISTRICTS.
Proof.
  intros H.
  assert (Hno : existsb (str_eqb UNRESOLVED) KNOWN_DISTRICTS = false)
    by (vm_compute; reflexivity).
  assert (Hyes : existsb (str_eqb UNRESOLVED) KNOWN_DISTRICTS = true).
  { apply existsb_exists. exists UNRESOLVED. split; [exact H|].
    apply str_eqb_refl. }
  congruence.
Qed.

(** X5: the unresolved label means exactly that every rule passed: no
    keyword in the combined text, no road in the address, no override for
    the name, and a coordinate missing.  No table and no centroid carries
    that label. *)
Theorem infer_district_unresolved (name address url : str)
    (lat lon : option float) :
  infer_district M name address url lat lon = Ok UNRESOLVED
  <-> ~ hits DISTRICT_KEYWORDS (name ++ u " " ++ address ++ u " " ++ url)
      /\ ~ hits ROAD_TO_DISTRICT address
      /\ (forall d, ~ In (name, d) MANUAL_OVERRIDES)
      /\ (lat = None \/ lon = None).
Proof.
  pose proof UNRESOLVED_fresh as Hfresh. unfold KNOWN_DISTRICTS in Hfresh.
  rewrite !in_app_iff in Hfresh.
  unfold infer_district. split.
  - intros H.
    destruct (first_hit DISTRICT_KEYWORDS _) as [d|] eqn:Ek.
    { exfalso. injection H as ->.
      destruct (first_hit_Some _ _ _ Ek) as (k & Hin & _).
      apply Hfresh. left. apply in_map_iff. exists (k, UNRESOLVED). auto. }
    destruct (first_hit ROAD_TO_DISTRICT _) as [d|] eqn:Er.
    { exfalso. injection H as ->.
      destruct (first_hit_Some _ _ _ Er) as (k & Hin & _).
      apply Hfresh. right; left. apply in_map_iff.
      exists (k, UNRESOLVED). auto. }
    destruct (dict_contains MANUAL_OVERRIDES name) eqn:Ec.
    { exfalso. apply dict_getitem_In in H.
      apply Hfresh. right; right; left. apply in_map_iff.
      exists (name, UNRESOLVED). auto. }
    apply first_hit_None in Ek, Er.
    pose proof (proj1 (dict_contains_false _ _) Ec) as Ho.
    split; [exact Ek | split; [exact Er | split; [exact Ho|]]].
    destruct lat as [la|]; [|left; reflexivity].
    destruct lon as [lo|]; [|right; reflexivity].
    exfalso. apply nearest_centroid_name in H.
    apply Hfresh. right; right; right. exact H.
  - intros (Hk & Hr & Ho & Hc).
    apply first_hit_None in Hk, Hr. rewrite Hk, Hr.
    rewrite (override_absent _ Ho).
    destruct Hc as [-> | ->]; [reflexivity|].
    destruct lat; reflexivity.
Qed.

(** *** Exceptions *)

Lemma math_1_exn (func : float -> float) (x : float) (e : exn) :
  math_1 func x = Raise e -> e = ValueError.
Proof.
  unfold math_1.
  destruct (is_nan (func x) && negb (is_nan x))%bool; [congruence|].
  destruct (is_infinity (func x) && is_finite x)%bool; congruence.
Qed.

Lemma math_2_exn (func : float -> float -> float) (x y : float) (e : exn) :
  math_2 func x y = Raise e -> e = ValueError \/ e = OverflowError.
Proof.
  unfold math_2.
  destruct (is_nan (func x y)).
  - destruct (negb (is_nan x) && negb (is_nan y))%bool; [|discriminate].
    intros H; injection H as <-. left; reflexivity.
  - destruct (is_infinity (func x y)); [|discriminate].
    destruct (is_finite x && is_finite y)%bool; [|discriminate].
    intros H; injection H as <-. right; reflexivity.
Qed.

Lemma float_pow_2_exn (x : float) (e : exn) :
  float_pow_2 M x = Raise e -> e = OverflowError.
Proof.
  unfold float_pow_2.
  repeat match goal with
         | |- context [if ?b then _ else _] => destruct b
         end; congruence.
Qed.

Lemma great_circle_distance_exn (lat1 lon1 lat2 lon2 : float) (e : exn) :
  great_circle_distance M lat1 lon1 lat2 lon2 = Raise e ->
  e = ValueError \/ e = OverflowError.
Proof.
  unfold great_circle_distance, math_sin, math_cos, math_sqrt, math_atan2.
  cbv zeta.
  repeat match goal with
         | |- bind ?r _ = Raise _ -> _ =>
             let E := fresh "E" in
             destruct r eqn:E; cbn [bind];
             [| intros H; injection H as <-;
                first [ apply math_1_exn in E; left; exact E
                      | apply float_pow_2_exn in E; right; exact E
                      | apply math_2_exn in E; exact E ]]
         end.
  discriminate.
Qed.

Lemma distances_of_exn (lat lon : float) (centroids : list Centroid.t)
    (acc : dict float) (e : exn) :
  distances_of M lat lon centroids acc = Raise e ->
  e = ValueError \/ e = OverflowError.
Proof.
  revert acc. induction centroids as [|c rest IH]; intros acc;
    cbn [distances_of]; [discriminate|].
  destruct (great_circle_distance M lat lon _ _) as [d|e'] eqn:E; cbn [bind].
  - apply IH.
  - intros H; injection H as <-. exact (great_circle_distance_exn _ _ _ _ _ E).
Qed.

Lemma dict_setitem_nonempty {V} (d : dict V) (k : str) (v : V) :
  dict_setitem d k v <> [].
Proof.
  destruct d as [|[k' v'] d]; cbn [dict_setitem]; [discriminate|].
  destruct (str_eqb k' k); discriminate.
Qed.

Lemma distances_of_nonempty (lat lon : float) (centroids : list Centroid.t)
    (acc ds : dict float) :
  distances_of M lat lon centroids acc = Ok ds ->
  acc <> [] \/ centroids <> [] -> ds <> [].
Proof.
  revert acc. induction centroids as [|c rest IH]; intros acc;
    cbn [distances_of].
  - intros H [Hne | Hne]; [congruence | contradiction Hne; reflexivity].
  - destruct (great_circle_distance M lat lon _ _) as [d|e']; cbn [bind];
      [|discriminate].
    intros H _. apply (IH _ H). left. apply dict_setitem_nonempty.
Qed.

Lemma dict_get_key {V} (d : dict V) (k : str) :
  In k (map fst d) -> exists v, dict_get d k = Some v.
Proof.
  intros H. destruct (dict_get d k) as [v|] eqn:E; [eauto|].
  exfalso. apply in_map_iff in H. destruct H as ([k' v] & <- & Hin).
  exact (proj1 (dict_get_None d k') E v Hin).
Qed.

(** [min] over the keys of a dict, with the dict's own values as keys of
    the comparison, never meets [None]. *)
Lemma min_loop_returns (key : str -> option float) (items : list str) :
  (forall k, In k items -> exists v, key k = Some v) ->
  forall best best_key, exists r, min_loop key best (Some best_key) items = Ok r.
Proof.
  induction items as [|item rest IH]; intros Hkey best best_key;
    cbn [min_loop]; [eauto|].
  destruct (Hkey item) as (v & ->); [left; reflexivity|].
  cbn [lt_ bind].
  destruct (v <? best_key)%float; apply IH; intros k Hk; apply Hkey;
    right; exact Hk.
Qed.

Lemma min_dict_returns (d : dict float) :
  d <> [] -> exists r, min_ (dict_keys d) (dict_get d) = Ok r.
Proof.
  destruct d as [|[k v] d']; [intros H; contradiction H; reflexivity|].
  intros _. unfold dict_keys. cbn [map fst min_].
  destruct (dict_get_key ((k, v) :: d') k) as (v0 & ->);
    [left; reflexivity|].
  apply min_loop_returns. intros k' Hk'.
  apply dict_get_key. right; exact Hk'.
Qed.

Lemma nearest_centroid_exn (lat lon : float) (e : exn) :
  nearest_centroid M lat lon = Raise e ->
  e = ValueError \/ e = OverflowError.
Proof.
  unfold nearest_centroid.
  destruct (distances_of M lat lon CENTROIDS []) as [ds|e'] eqn:E;
    cbn [bind].
  - intros H. exfalso.
    destruct (min_dict_returns ds) as (r & Hr); [|congruence].
    apply (distances_of_nonempty _ _ _ _ _ E). right. discriminate.
  - intros H; injection H as <-. exact (distances_of_exn _ _ _ _ _ E).
Qed.

(** X6: the classifier raises only out of the coordinate fallback.  When
    it raises, no keyword, road or override applied, both coordinates
    were present, the exception is the one [nearest_centroid] raised on
    them, and it is a [ValueError] or an [OverflowError] of the [math]
    module; a lookup never fails with [KeyError] and [min] never with
    [TypeError]. *)
Theorem infer_district_raises_in_fallback (name address url : str)
    (lat lon : option float) (e : exn) :
  infer_district M name address url lat lon = Raise e ->
  (e = ValueError \/ e = OverflowError)
  /\ ~ hits DISTRICT_KEYWORDS (name ++ u " " ++ address ++ u " " ++ url)
  /\ ~ hits ROAD_TO_DISTRICT address
  /\ (forall d, ~ In (name, d) MANUAL_OVERRIDES)
  /\ exists la lo,
       lat = Some la /\ lon = Some lo /\ nearest_centroid M la lo = Raise e.
Proof.
  unfold infer_district. intros H.
  destruct (first_hit DISTRICT_KEYWORDS _) as [d|] eqn:Ek; [discriminate|].
  destruct (first_hit ROAD_TO_DISTRICT _) as [d|] eqn:Er; [discriminate|].
  destruct (dict_contains MANUAL_OVERRIDES name) eqn:Ec.
  { destruct (dict_contains_getitem _ _ Ec) as (v & Hv). congruence. }
  apply first_hit_None in Ek, Er.
  pose proof (proj1 (dict_contains_false _ _) Ec) as Ho.
  destruct lat as [la|]; [|discriminate].
  destruct lon as [lo|]; [|discriminate].
  split; [exact (nearest_centroid_exn _ _ _ H)|].
  split; [exact Ek | split; [exact Er | split; [exact Ho|]]].
  exists la, lo. auto.
Qed.

End Classifier.

(** Witness for X6: an infinite latitude. *)
Lemma infer_district_raises_in_fallback_witness :
  infer_district taylor_libm (u "花店") (u "某某路1號") []
    (Some infinity) (Some 121.5%float) = Raise ValueError
  /\ (ValueError = ValueError \/ ValueError = OverflowError)
  /\ exists la lo,
       Some infinity = Some la /\ Some 121.5%float = Some lo
       /\ nearest_centroid taylor_libm la lo = Raise ValueError.
Proof.
  assert (H : infer_district taylor_libm (u "花店") (u "某某路1號") []
                (Some infinity) (Some 121.5%float) = Raise ValueError)
    by (vm_compute; reflexivity).
  split; [exact H|].
  destruct (infer_district_raises_in_fallback taylor_libm _ _ _ _ _ _ H)
    as (He & _ & _ & _ & Hc).
  split; [exact He | exact Hc].
Defined.

(** ** The coordinate fallback on infinities and NaN *)

Section Fallback.

Variable M : libm.

Lemma is_infinity_spec (x : float) :
  is_infinity x = true -> x = infinity \/ x = neg_infinity.
Proof.
  unfold is_infinity. rewrite eqb_spec, abs_spec. intros H.
  rewrite <- (SF2Prim_Prim2SF x).
  change (Prim2SF infinity) with (S754_infinity false) in H.
  destruct (Prim2SF x) as [s|s| |s m e]; try discriminate H.
  destruct s; [right | left]; reflexivity.
Qed.

Lemma math_sin_infinity (x : float) :
  is_infinity x = true -> math_sin M x = Raise ValueError.
Proof.
  intros H. destruct (is_infinity_spec x H) as [-> | ->];
    vm_compute; reflexivity.
Qed.

Lemma distance_infinite_lat (lat lon : float) :
  is_infinity lat = true ->
  great_circle_distance M lat lon 25.0112 121.4637 = Raise ValueError.
Proof.
  intros H. unfold great_circle_distance. cbv zeta.
  rewrite math_sin_infinity; [reflexivity|].
  destruct (is_infinity_spec lat H) as [-> | ->]; vm_compute; reflexivity.
Qed.

Lemma distance_infinite_lon (lat lon : float) :
  is_infinity lon = true ->
  exists e, great_circle_distance M lat lon 25.0112 121.4637 = Raise e.
Proof.
  intros H. unfold great_circle_distance. cbv zeta.
  destruct (math_sin M _) as [s1|e]; cbn [bind]; [|eauto].
  destruct (float_pow_2 M s1) as [h1|e]; cbn [bind]; [|eauto].
  destruct (math_cos M _) as [c1|e]; cbn [bind]; [|eauto].
  destruct (math_cos M _) as [c2|e]; cbn [bind]; [|eauto].
  rewrite math_sin_infinity; [cbn [bind]; eauto|].
  destruct (is_infinity_spec lon H) as [-> | ->]; vm_compute; reflexivity.
Qed.

(** X7: an infinite coordinate never gets a district.  With an infinite
    latitude [nearest_centroid] raises [ValueError] ([math.sin] on the
    infinite angle of the first distance); with an infinite longitude it
    raises as well, at the latest in the second [math.sin].  This holds
    for every C library. *)
Theorem nearest_centroid_infinite_coordinate (lat lon : float) :
  (is_infinity lat = true -> nearest_centroid M lat lon = Raise ValueError)
  /\ (is_infinity lon = true ->
      exists e, nearest_centroid M lat lon = Raise e).
Proof.
  unfold nearest_centroid, CENTROIDS.
  cbn [distances_of Centroid.lat Centroid.lon]. split; intros H.
  - rewrite (distance_infinite_lat lat lon H). reflexivity.
  - destruct (distance_infinite_lon lat lon H) as (e & ->).
    exists e. reflexivity.
Qed.

(** *** NaN *)

Lemma is_nan_spec (x : float) : is_nan x = true -> Prim2SF x = S754_nan.
Proof.
  unfold is_nan. rewrite negb_true_iff, eqb_spec. intros H.
  destruct (Prim2SF x) as [s|s| |s m e] eqn:E; [| |reflexivity|];
    exfalso; revert H; unfold SFeqb, SFcompare.
  - discriminate.
  - destruct s; discriminate.
  - rewrite Z.compare_refl.
    change (Pos.compare_cont Eq m m) with (Pos.compare m m).
    rewrite Pos.compare_refl. destruct s; discriminate.
Qed.

Lemma ltb_nan (x y : float) : is_nan y = true -> (x <? y)%float = false.
Proof.
  intros H. rewrite ltb_spec, (is_nan_spec y H).
  unfold SFltb, SFcompare. destruct (Prim2SF x); reflexivity.
Qed.

(** Nothing is smaller than NaN, so [min] keeps a NaN it starts from. *)
Lemma min_loop_nan (key : str -> option float) (items : list str)
    (best : str) (best_key : float) :
  is_nan best_key = true ->
  (forall k, In k items -> exists v, key k = Some v) ->
  min_loop key best (Some best_key) items = Ok best.
Proof.
  intros Hnan. induction items as [|item rest IH]; intros Hkey;
    cbn [min_loop]; [reflexivity|].
  destruct (Hkey item) as (v & ->); [left; reflexivity|].
  cbn [lt_ bind]. rewrite (ltb_nan v best_key Hnan).
  apply IH. intros k Hk. apply Hkey. right; exact Hk.
Qed.

(** The dict comprehension keeps the first key first. *)
Lemma dict_setitem_head {V} (d : dict V) (k0 : str) (v0 : V) (k : str)
    (v : V) :
  str_eqb k0 k = false ->
  dict_setitem ((k0, v0) :: d) k v = (k0, v0) :: dict_setitem d k v.
Proof. intros H. cbn [dict_setitem]. rewrite H. reflexivity. Qed.

Lemma distances_of_head (lat lon : float) (centroids : list Centroid.t)
    (k0 : str) (v0 : float) (acc ds : dict float) :
  ~ In k0 (map Centroid.name centroids) ->
  distances_of M lat lon centroids ((k0, v0) :: acc) = Ok ds ->
  exists rest, ds = (k0, v0) :: rest.
Proof.
  revert acc. induction centroids as [|c cs IH]; intros acc Hk0;
    cbn [distances_of].
  - intros H; injection H as <-. eauto.
  - destruct (great_circle_distance M lat lon _ _) as [d|e]; cbn [bind];
      [|discriminate].
    rewrite dict_setitem_head.
    + apply IH. intros Hin. apply Hk0. right; exact Hin.
    + destruct (str_eqb k0 (Centroid.name c)) eqn:E; [|reflexivity].
      apply str_eqb_eq in E. exfalso. apply Hk0. left. symmetry; exact E.
Qed.

(** X9: a NaN in front wins.  If the distance to the first centroid comes
    out as NaN, [nearest_centroid], whenever it returns, returns the
    first centroid: no later distance compares smaller than NaN. *)
Theorem nearest_centroid_keeps_leading_nan (lat lon d0 : float) (l : str) :
  great_circle_distance M lat lon 25.0112 121.4637 = Ok d0 ->
  is_nan d0 = true ->
  nearest_centroid M lat lon = Ok l ->
  l = u "新北市板橋區".
Proof.
  intros Hd Hnan. unfold nearest_centroid.
  assert (Hc : CENTROIDS
               = Centroid (u "新北市板橋區") 25.0112 121.4637 :: tl CENTROIDS)
    by reflexivity.
  rewrite Hc. cbn [distances_of Centroid.lat Centroid.lon Centroid.name].
  rewrite Hd. cbn [bind dict_setitem].
  destruct (distances_of M lat lon (tl CENTROIDS) [(u "新北市板橋區", d0)])
    as [ds|e] eqn:E; cbn [bind]; [|discriminate].
  apply distances_of_head in E.
  - destruct E as (rest & ->). unfold dict_keys. cbn [map fst min_ dict_get].
    rewrite str_eqb_refl. rewrite min_loop_nan.
    + intros H; injection H as <-. reflexivity.
    + exact Hnan.
    + intros k Hk.
      apply (dict_get_key ((u "新北市板橋區", d0) :: rest)). right; exact Hk.
  - intros Hin.
    assert (Hno : existsb (str_eqb (u "新北市板橋區"))
                    (map Centroid.name (tl CENTROIDS)) = false)
      by (vm_compute; reflexivity).
    assert (Hyes : existsb (str_eqb (u "新北市板橋區"))
                     (map Centroid.name (tl CENTROIDS)) = true).
    { apply existsb_exists. eexists. split; [exact Hin | apply str_eqb_refl]. }
    congruence.
Qed.

End Fallback.

(** Witness for X7. *)
Lemma nearest_centroid_infinite_coordinate_witness :
  nearest_centroid taylor_libm infinity 121.5 = Raise ValueError
  /\ exists e, nearest_centroid taylor_libm 25 neg_infinity = Raise e.
Proof.
  split.
  - apply (nearest_centroid_infinite_coordinate taylor_libm infinity 121.5).
    reflexivity.
  - apply (nearest_centroid_infinite_coordinate taylor_libm 25 neg_infinity).
    reflexivity.
Defined.

(** Witness for X9: a NaN latitude. *)
Lemma nearest_centroid_keeps_leading_nan_witness :
  nearest_centroid taylor_libm nan 121.5 = Ok (u "新北市板橋區").
Proof.
  assert (H : exists d0 l,
             great_circle_distance taylor_libm nan 121.5 25.0112 121.4637
             = Ok d0
             /\ is_nan d0 = true
             /\ nearest_centroid taylor_libm nan 121.5 = Ok l).
  { eexists. eexists. split; [vm_compute; reflexivity|].
    split; vm_compute; reflexivity. }
  destruct H as (d0 & l & Hd & Hnan & Hl). rewrite Hl. f_equal.
  exact (nearest_centroid_keeps_leading_nan taylor_libm _ _ d0 l Hd Hnan Hl).
Defined.

(** ** Keywords and the combined text *)

Section Combined.

Lemma prefix_before (sep : char) (k y a b : str) :
  ~ In sep k -> k ++ y = a ++ sep :: b -> exists y', a = k ++ y'.
Proof.
  revert a. induction k as [|c k IH]; intros a Hsep H;
    [exists a; reflexivity|].
  destruct a as [|c' a]; simpl in H; inversion H; subst.
  - exfalso. apply Hsep. left; reflexivity.
  - assert (Hk : ~ In sep k) by (intros Hin; apply Hsep; right; exact Hin).
    destruct (IH a Hk) as (y' & ->); [assumption|].
    exists y'. reflexivity.
Qed.

(** A text without the separator occurs in [a sep b] only inside [a] or
    inside [b]. *)
Lemma str_in_sep (sep : char) (k a b : str) :
  k <> [] -> ~ In sep k ->
  str_in k (a ++ sep :: b) = (str_in k a || str_in k b)%bool.
Proof.
  intros Hne Hsep. apply eq_true_iff_eq.
  rewrite orb_true_iff, !str_in_spec. split.
  - intros (x & y & H). revert a H. induction x as [|c x IH]; intros a H.
    + cbn [app] in H. symmetry in H.
      destruct (prefix_before sep k y a b Hsep H) as (y' & ->).
      left. exists [], y'. reflexivity.
    + destruct a as [|c' a]; cbn [app] in H.
      * injection H as _ ->. right. eauto.
      * injection H as -> H. destruct (IH a H) as [(x' & y' & ->) | Hb].
        -- left. exists (c :: x'), y'. reflexivity.
        -- right. exact Hb.
  - intros [(x & y & ->) | (x & y & ->)].
    + exists x, (y ++ sep :: b). rewrite <- !app_assoc. reflexivity.
    + exists (a ++ sep :: x), y. rewrite <- app_assoc. reflexivity.
Qed.

Lemma lit_space : u " " = [0x20]%N.
Proof. vm_compute. reflexivity. Qed.

Lemma keyword_no_space (k d : str) :
  In (k, d) DISTRICT_KEYWORDS -> k <> [] /\ ~ In 0x20%N k.
Proof.
  intros H.
  assert (Hall : forallb (fun kd => negb (str_eqb (fst kd) [])
                                    && negb (existsb (N.eqb 0x20) (fst kd)))
                   DISTRICT_KEYWORDS = true) by (vm_compute; reflexivity).
  rewrite forallb_forall in Hall. apply Hall in H. cbn [fst] in H.
  apply andb_true_iff in H. destruct H as [H1 H2].
  rewrite negb_true_iff in H1, H2. split.
  - intros ->. discriminate.
  - intros Hin. assert (existsb (N.eqb 32) k = true); [|congruence].
    apply existsb_exists. exists 0x20%N. split; [exact Hin | reflexivity].
Qed.

(** X10: the combined text adds nothing of its own.  No keyword holds a
    blank, so a keyword occurs in [name address url] exactly when it
    occurs in one of the three fields: it cannot straddle two of them. *)
Theorem keyword_hit_in_a_field (name address url : str) :
  hits DISTRICT_KEYWORDS (name ++ u " " ++ address ++ u " " ++ url)
  <-> hits DISTRICT_KEYWORDS name \/ hits DISTRICT_KEYWORDS address
      \/ hits DISTRICT_KEYWORDS url.
Proof.
  assert (E : forall k d, In (k, d) DISTRICT_KEYWORDS ->
                str_in k (name ++ u " " ++ address ++ u " " ++ url)
                = (str_in k name || (str_in k address || str_in k url))%bool).
  { intros k d Hin. destruct (keyword_no_space k d Hin) as [Hne Hsp].
    rewrite lit_space. cbn [app].
    rewrite !str_in_sep by assumption. reflexivity. }
  unfold hits. split.
  - intros (k & d & Hin & Hs). rewrite (E k d Hin) in Hs.
    rewrite !orb_true_iff in Hs.
    destruct Hs as [Hs | [Hs | Hs]]; [left | right; left | right; right];
      exists k, d; auto.
  - intros [H | [H | H]]; destruct H as (k & d & Hin & Hs);
      exists k, d; (split; [exact Hin|]); rewrite (E k d Hin), Hs;
      rewrite ?orb_true_r; reflexivity.
Qed.

End Combined.

(** ** Counting and ranking *)

Section Counting.

Lemma str_eqb_sym (a b : str) : str_eqb a b = str_eqb b a.
Proof.
  destruct (str_eqb a b) eqn:E.
  - apply str_eqb_eq in E. subst. symmetry. apply str_eqb_refl.
  - destruct (str_eqb b a) eqn:E'; [|reflexivity].
    apply str_eqb_eq in E'. subst. rewrite str_eqb_refl in E. discriminate.
Qed.

Lemma dict_get_setitem {V} (d : dict V) (k : str) (v : V) (k' : str) :
  dict_get (dict_setitem d k v) k'
  = if str_eqb k k' then Some v else dict_get d k'.
Proof.
  induction d as [|[k0 v0] d IH]; cbn [dict_setitem dict_get];
    [reflexivity|].
  destruct (str_eqb k0 k) eqn:E0; cbn [dict_get].
  - apply str_eqb_eq in E0. subst k0. destruct (str_eqb k k'); reflexivity.
  - destruct (str_eqb k0 k') eqn:E1; [|exact IH].
    apply str_eqb_eq in E1. subst k0.
    rewrite str_eqb_sym, E0. reflexivity.
Qed.

Lemma dict_get_default_setitem {V} (d : dict V) (k : str) (v : V)
    (k' : str) (default : V) :
  dict_get_default (dict_setitem d k v) k' default
  = if str_eqb k k' then v else dict_get_default d k' default.
Proof.
  unfold dict_get_default. rewrite dict_get_setitem.
  destruct (str_eqb k k'); reflexivity.
Qed.

Lemma dict_setitem_keys_old {V} (d : dict V) (k : str) (v : V) :
  In k (dict_keys d) -> dict_keys (dict_setitem d k v) = dict_keys d.
Proof.
  unfold dict_keys.
  induction d as [|[k0 v0] d IH]; cbn [dict_setitem map fst]; [intros []|].
  intros H. destruct (str_eqb k0 k) eqn:E; cbn [map fst]; [reflexivity|].
  f_equal. apply IH. destruct H as [-> | H]; [|exact H].
  rewrite str_eqb_refl in E. discriminate.
Qed.

Lemma NoDup_snoc {A} (l : list A) (x : A) :
  NoDup l -> ~ In x l -> NoDup (l ++ [x]).
Proof.
  induction 1 as [|y l Hy Hl IH]; intros Hx; cbn [app].
  - constructor; [intros [] | constructor].
  - constructor.
    + rewrite in_app_iff. intros [H | [<- | []]]; [contradiction|].
      apply Hx. left; reflexivity.
    + apply IH. intros H. apply Hx. right; exact H.
Qed.

Lemma dict_setitem_keys_cases {V} (d : dict V) (k : str) (v : V) :
  (In k (dict_keys d) /\ dict_keys (dict_setitem d k v) = dict_keys d)
  \/ (~ In k (dict_keys d)
      /\ dict_keys (dict_setitem d k v) = dict_keys d ++ [k]).
Proof.
  destruct (existsb (str_eqb k) (dict_keys d)) eqn:E.
  - apply existsb_str_eqb in E. left.
    split; [exact E | apply dict_setitem_keys_old, E].
  - assert (Hn : ~ In k (dict_keys d)).
    { intros H. apply existsb_str_eqb in H. congruence. }
    right. split; [exact Hn|].
    rewrite (dict_setitem_new d k v Hn). unfold dict_keys.
    rewrite map_app. reflexivity.
Qed.

Lemma dict_setitem_NoDup {V} (d : dict V) (k : str) (v : V) :
  NoDup (dict_keys d) -> NoDup (dict_keys (dict_setitem d k v)).
Proof.
  intros H. destruct (dict_setitem_keys_cases d k v) as [[_ ->] | [Hn ->]];
    [exact H | apply NoDup_snoc; assumption].
Qed.

Lemma dict_setitem_In_keys {V} (d : dict V) (k : str) (v : V) (x : str) :
  In x (dict_keys (dict_setitem d k v)) <-> x = k \/ In x (dict_keys d).
Proof.
  destruct (dict_setitem_keys_cases d k v) as [[Hk ->] | [Hn ->]].
  - split; [auto | intros [-> | H]; assumption].
  - rewrite in_app_iff. cbn [In]. split.
    + intros [H | [<- | []]]; auto.
    + intros [-> | H]; auto.
Qed.

Lemma occurrences_cons (k x : str) (l : list str) :
  occurrences k (x :: l)
  = ((if str_eqb k x then 1 else 0) + occurrences k l)%Z.
Proof.
  unfold occurrences. cbn [filter].
  destruct (str_eqb k x); cbn [length]; lia.
Qed.

Lemma occurrences_pos (k : str) (l : list str) :
  In k l -> (0 < occurrences k l)%Z.
Proof.
  induction l as [|x l IH]; [intros []|].
  rewrite occurrences_cons. intros [-> | H].
  - rewrite str_eqb_refl. unfold occurrences. lia.
  - specialize (IH H). destruct (str_eqb k x); lia.
Qed.

(** The loop of [Counter]: every element adds one to its own count. *)
Lemma Counter_fold (l : list str) (acc : dict Z) (k : str) :
  dict_get_default (fold_left Collections.count_element l acc) k 0%Z
  = (dict_get_default acc k 0 + occurrences k l)%Z.
Proof.
  revert acc. induction l as [|x l IH]; intros acc; cbn [fold_left].
  - unfold occurrences. cbn [filter length]. lia.
  - rewrite IH, occurrences_cons. unfold Collections.count_element.
    rewrite dict_get_default_setitem, (str_eqb_sym k x).
    destruct (str_eqb x k) eqn:E; [|lia].
    apply str_eqb_eq in E. subst. lia.
Qed.

Lemma Counter_keys_fold (l : list str) (acc : dict Z) :
  NoDup (dict_keys acc) ->
  NoDup (dict_keys (fold_left Collections.count_element l acc))
  /\ forall k, In k (dict_keys (fold_left Collections.count_element l acc))
               <-> In k (dict_keys acc) \/ In k l.
Proof.
  revert acc. induction l as [|x l IH]; intros acc Hnd; cbn [fold_left].
  - split; [exact Hnd|]. intros k. cbn [In]. tauto.
  - destruct (IH (Collections.count_element acc x)) as [H1 H2].
    { apply dict_setitem_NoDup, Hnd. }
    split; [exact H1|]. intros k. rewrite H2.
    unfold Collections.count_element. rewrite dict_setitem_In_keys.
    cbn [In]. intuition congruence.
Qed.

Lemma total_count_element (mapping : dict Z) (elem : str) :
  total (Collections.count_element mapping elem) = (total mapping + 1)%Z.
Proof.
  unfold Collections.count_element, total, dict_get_default.
  induction mapping as [|[k0 v0] m IH];
    cbn [dict_get dict_setitem map snd fold_right]; [lia|].
  destruct (str_eqb k0 elem); cbn [map snd fold_right]; [lia|].
  rewrite IH. lia.
Qed.

Lemma total_fold (l : list str) (acc : dict Z) :
  total (fold_left Collections.count_element l acc)
  = (total acc + Z.of_nat (length l))%Z.
Proof.
  revert acc. induction l as [|x l IH]; intros acc;
    cbn [fold_left length]; [lia|].
  rewrite IH, total_count_element. lia.
Qed.

(** What a counter holds: one entry per distinct element, with the number
    of its occurrences; the counts add up to the number of elements. *)
Lemma Counter_spec (l : list str) :
  NoDup (dict_keys (Collections.Counter l))
  /\ total (Collections.Counter l) = Z.of_nat (length l)
  /\ forall k n, In (k, n) (Collections.Counter l) ->
                 In k l /\ n = occurrences k l.
Proof.
  unfold Collections.Counter.
  destruct (Counter_keys_fold l []) as [Hnd Hkeys]; [constructor|].
  split; [exact Hnd|]. split.
  - rewrite total_fold. reflexivity.
  - intros k n Hin. split.
    + assert (Hk : In k (dict_keys (fold_left Collections.count_element l [])))
        by (unfold dict_keys; apply in_map_iff; exists (k, n); auto).
      apply Hkeys in Hk. destruct Hk as [[] | Hk]. exact Hk.
    + rewrite <- (dict_get_default_In _ k n 0%Z Hnd Hin).
      rewrite Counter_fold. reflexivity.
Qed.

(** Insertion keeps the order of the entries of each count, and puts the
    new entry in front of those of its own count. *)
Lemma insert_with_count (n : Z) (x : str * Z) (l : list (str * Z)) :
  with_count n (Collections.insert_by_count x l)
  = if (snd x =? n)%Z then x :: with_count n l else with_count n l.
Proof.
  unfold with_count.
  induction l as [|y l IH]; cbn [Collections.insert_by_count filter].
  - destruct (snd x =? n)%Z; reflexivity.
  - destruct (snd y <=? snd x)%Z eqn:E; cbn [filter].
    + destruct (snd x =? n)%Z; reflexivity.
    + rewrite IH. apply Z.leb_gt in E.
      destruct (snd x =? n)%Z eqn:Ex; [|reflexivity].
      apply Z.eqb_eq in Ex.
      destruct (snd y =? n)%Z eqn:Ey; [|reflexivity].
      apply Z.eqb_eq in Ey. lia.
Qed.

Lemma sorted_with_count (n : Z) (items : list (str * Z)) :
  with_count n (Collections.sorted_by_count items) = with_count n items.
Proof.
  unfold Collections.sorted_by_count.
  induction items as [|x items IH]; cbn [fold_right]; [reflexivity|].
  rewrite insert_with_count, IH. unfold with_count. cbn [filter].
  reflexivity.
Qed.

Lemma insert_descending (x : str * Z) (l : list (str * Z)) :
  descending l = true ->
  descending (Collections.insert_by_count x l) = true.
Proof.
  induction l as [|y l IH]; cbn [Collections.insert_by_count];
    [reflexivity|].
  intros H. destruct (snd y <=? snd x)%Z eqn:E.
  - cbn [descending] in *. rewrite E. exact H.
  - cbn [descending] in H. apply andb_true_iff in H. destruct H as [Hy Hl].
    specialize (IH Hl). cbn [descending]. rewrite IH, andb_true_r.
    apply Z.leb_gt in E.
    destruct l as [|z l]; cbn [Collections.insert_by_count].
    + apply Z.leb_le. lia.
    + destruct (snd z <=? snd x)%Z; [apply Z.leb_le; lia | exact Hy].
Qed.

Lemma sorted_descending (items : list (str * Z)) :
  descending (Collections.sorted_by_count items) = true.
Proof.
  unfold Collections.sorted_by_count.
  induction items as [|x items IH]; cbn [fold_right]; [reflexivity|].
  apply insert_descending, IH.
Qed.

End Counting.

(** ** [main] of the tagger *)

Section TaggerMain.

Variable M : libm.

Lemma list_comp_map {A B} (f : A -> result B) (g : A -> B)
    (items : list A) :
  (forall x, In x items -> f x = Ok (g x)) ->
  list_comp f items = Ok (map g items).
Proof.
  induction items as [|x items IH]; intros H; cbn [list_comp map];
    [reflexivity|].
  rewrite (H x) by (left; reflexivity). cbn [bind].
  rewrite IH by (intros x' Hx'; apply H; right; exact Hx').
  reflexivity.
Qed.

Lemma list_comp_Raise_iff {A B} (f : A -> result B) (items : list A)
    (e : exn) :
  list_comp f items = Raise e
  <-> exists done x rest,
        items = done ++ x :: rest
        /\ Forall (fun r => exists y, f r = Ok y) done
        /\ f x = Raise e.
Proof.
  induction items as [|x0 items IH]; cbn [list_comp].
  - split; [discriminate|]. intros (done & x & rest & H & _).
    destruct done; discriminate.
  - destruct (f x0) as [y0|e0] eqn:E0; cbn [bind].
    + assert (Hb : bind (list_comp f items) (fun ys => Ok (y0 :: ys))
                   = Raise e
                   <-> list_comp f items = Raise e).
      { destruct (list_comp f items); cbn [bind]; split; congruence. }
      rewrite Hb, IH. split.
      * intros (done & x & rest & -> & Hd & Hx).
        exists (x0 :: done), x, rest. split; [reflexivity|].
        split; [constructor; eauto | exact Hx].
      * intros (done & x & rest & H & Hd & Hx).
        destruct done as [|d done]; cbn [app] in H;
          injection H as H1 H2; subst.
        -- congruence.
        -- exists done, x, rest. split; [reflexivity|].
           split; [inversion Hd; assumption | exact Hx].
    + split.
      * intros H; injection H as ->. exists [], x0, items.
        split; [reflexivity | split; [constructor | exact E0]].
      * intros (done & x & rest & H & Hd & Hx).
        destruct done as [|d done]; cbn [app] in H;
          injection H as H1 H2; subst.
        -- congruence.
        -- inversion Hd as [|? ? (y & Hy) ?]; subst. congruence.
Qed.

Lemma Forall2_right {A B} (R : A -> B -> Prop) (l : list A) (l' : list B)
    (y : B) :
  Forall2 R l l' -> In y l' -> exists x, In x l /\ R x y.
Proof.
  induction 1 as [|x y0 l l' Hxy Hrest IH]; [intros []|].
  intros [<- | H].
  - exists x. split; [left; reflexivity | exact Hxy].
  - destruct (IH H) as (x' & Hin & Hr). exists x'.
    split; [right; exact Hin | exact Hr].
Qed.

Lemma Forall2_length_eq {A B} (R : A -> B -> Prop) (l : list A)
    (l' : list B) :
  Forall2 R l l' -> length l = length l'.
Proof. induction 1; cbn [length]; congruence. Qed.

Lemma header_row :
  Csv.dict_to_list fieldnames (dict_of_items (combine fieldnames fieldnames))
  = Ok fieldnames.
Proof. vm_compute. reflexivity. Qed.

Lemma tagged_row_district (a b c d e f g h : str) :
  dict_getitem
    [ (u "name", a); (u "address", b); (u "url", c); (u "rating", d);
      (u "rating_count", e); (u "phone", f); (u "image", g);
      (u "district", h) ] (u "district")
  = Ok h.
Proof. vm_compute. reflexivity. Qed.

(** The district of a tagged row: what [row["district"]] reads, what the
    writer puts last, and a label of the program. *)
Lemma normalize_row_district (row out : dict str) :
  normalize_row M row = Ok out ->
  dict_getitem out (u "district") = Ok (record_district (map snd out))
  /\ (In (record_district (map snd out)) KNOWN_DISTRICTS
      \/ record_district (map snd out) = UNRESOLVED).
Proof.
  intros H. destruct (normalize_row_Ok M _ _ H) as (lat & lon & d & _ & Hd & ->).
  rewrite tagged_row_district. split; [reflexivity|].
  exact (proj1 (infer_district_label M _ _ _ _ _ _ Hd)).
Qed.

Lemma extract_coords_exn (url : str) (e : exn) :
  extract_coords url = Raise e -> e = ValueError.
Proof.
  unfold extract_coords. destruct (Re.search COORD_RE url) as [m|];
    [|discriminate].
  destruct (float_of_str_outcome (Re.group m 1)) as [(la & ->) | ->];
    cbn [bind]; [|congruence].
  destruct (float_of_str_outcome (Re.group m 2)) as [(lo & ->) | ->];
    cbn [bind]; congruence.
Qed.

Lemma infer_district_exn (name address url : str) (lat lon : option float)
    (e : exn) :
  infer_district M name address url lat lon = Raise e ->
  e = ValueError \/ e = OverflowError.
Proof.
  unfold infer_district.
  destruct (first_hit DISTRICT_KEYWORDS _); [discriminate|].
  destruct (first_hit ROAD_TO_DISTRICT _); [discriminate|].
  destruct (dict_contains MANUAL_OVERRIDES name) eqn:Ec.
  { destruct (dict_contains_getitem _ _ Ec) as (v & ->). discriminate. }
  destruct lat as [la|]; [|discriminate].
  destruct lon as [lo|]; [|discriminate].
  apply nearest_centroid_exn.
Qed.

Lemma normalize_row_exn (row : dict str) (e : exn) :
  normalize_row M row = Raise e -> e = ValueError \/ e = OverflowError.
Proof.
  unfold normalize_row.
  destruct (extract_coords _) as [[lat lon]|e'] eqn:E; cbn [bind].
  - destruct (infer_district M _ _ _ lat lon) as [d|e'] eqn:E'; cbn [bind];
      [discriminate|].
    intros H; injection H as <-. exact (infer_district_exn _ _ _ _ _ _ E').
  - intros H; injection H as <-. left. exact (extract_coords_exn _ _ E).
Qed.

(** *** Rows of the reader *)

Lemma dict_get_default_None (row : reader_row) (k : str) :
  dict_get_default row k (Some []) = None -> dict_get row k = Some None.
Proof.
  unfold dict_get_default. destruct (dict_get row k) as [[v|]|]; congruence.
Qed.

Lemma dict_get_of_strings (row : dict str) (k : str) :
  dict_get (of_strings row) k = option_map Some (dict_get row k).
Proof.
  induction row as [|[k0 v0] row IH]; cbn [of_strings map dict_get fst snd];
    [reflexivity|].
  destruct (str_eqb k0 k); [reflexivity | exact IH].
Qed.

Lemma dict_get_default_of_strings (row : dict str) (k : str) :
  dict_get_default (of_strings row) k (Some [])
  = Some (dict_get_default row k []).
Proof.
  unfold dict_get_default. rewrite dict_get_of_strings.
  destruct (dict_get row k); reflexivity.
Qed.

(** On a row of strings the two readings of [normalize_row] agree. *)
Lemma normalize_row_of_reader_strings (row : dict str) :
  normalize_row_of_reader M (of_strings row) = normalize_row M row.
Proof.
  unfold normalize_row_of_reader, normalize_row.
  rewrite !dict_get_default_of_strings. cbn [extract_coords_of].
  destruct (extract_coords _) as [[lat lon]|e]; reflexivity.
Qed.

Lemma normalize_row_seven (vh vn va vr vc vp vi : str) :
  normalize_row M
    [ (u "hfpxzc href", vh); (u "qBF1Pd", vn); ([], va); (u "評分", vr);
      (u "評分數", vc); (u "UsdlK", vp); (u "FQ2IWe src", vi) ]
  = (let* coords := extract_coords vh in
     let (lat, lon) := coords in
     let* district :=
       infer_district M (strip vn) (strip va) (strip vh) lat lon in
     Ok (dict_of_items
           [ (u "name", strip vn); (u "address", strip va);
             (u "url", strip vh); (u "rating", strip vr);
             (u "rating_count", strip vc); (u "phone", strip vp);
             (u "image", strip vi); (u "district", district) ])).
Proof.
  pose (r := [ (u "hfpxzc href", vh); (u "qBF1Pd", vn); ([], va);
               (u "評分", vr); (u "評分數", vc); (u "UsdlK", vp);
               (u "FQ2IWe src", vi) ]).
  assert (Hh : dict_get_default r (u "hfpxzc href") [] = vh)
    by (vm_compute; reflexivity).
  assert (Hn : dict_get_default r (u "qBF1Pd") [] = vn)
    by (vm_compute; reflexivity).
  assert (Ha : dict_get_default r [] [] = va) by (vm_compute; reflexivity).
  assert (Hr : dict_get_default r (u "評分") [] = vr)
    by (vm_compute; reflexivity).
  assert (Hc : dict_get_default r (u "評分數") [] = vc)
    by (vm_compute; reflexivity).
  assert (Hp : dict_get_default r (u "UsdlK") [] = vp)
    by (vm_compute; reflexivity).
  assert (Hi : dict_get_default r (u "FQ2IWe src") [] = vi)
    by (vm_compute; reflexivity).
  fold r. unfold normalize_row. rewrite Hh, Hn, Ha, Hr, Hc, Hp, Hi.
  reflexivity.
Qed.

(** What [normalize_row] does with a row of the reader: a [TypeError] when
    the URL column holds [None]; otherwise what it does on strings, unless
    another column it reads holds [None], an [AttributeError]. *)
Lemma normalize_row_of_reader_cases (row : reader_row) :
  (dict_get row (u "hfpxzc href") = Some None
   /\ normalize_row_of_reader M row = Raise TypeError)
  \/ (exists k, dict_get row k = Some None
                /\ normalize_row_of_reader M row = Raise AttributeError)
  \/ (exists r, normalize_row_of_reader M row = normalize_row M r).
Proof.
  unfold normalize_row_of_reader.
  destruct (dict_get_default row (u "hfpxzc href") (Some [])) as [vh|] eqn:Eh.
  2:{ left. split; [apply dict_get_default_None, Eh | reflexivity]. }
  cbn [extract_coords_of].
  destruct (extract_coords vh) as [[lat lon]|e] eqn:Ec; cbn [bind].
  2:{ right; right. exists [(u "hfpxzc href", vh)]. unfold normalize_row.
      assert (Hh : dict_get_default [(u "hfpxzc href", vh)]
                     (u "hfpxzc href") [] = vh) by (vm_compute; reflexivity).
      rewrite Hh, Ec. reflexivity. }
  destruct (dict_get_default row (u "qBF1Pd") (Some [])) as [vn|] eqn:En;
    cbn [strip_of bind].
  2:{ right; left. exists (u "qBF1Pd").
      split; [apply dict_get_default_None, En | reflexivity]. }
  destruct (dict_get_default row [] (Some [])) as [va|] eqn:Ea;
    cbn [strip_of bind].
  2:{ right; left. exists [].
      split; [apply dict_get_default_None, Ea | reflexivity]. }
  destruct (dict_get_default row (u "評分") (Some [])) as [vr|] eqn:Er;
    cbn [strip_of bind].
  2:{ right; left. exists (u "評分").
      split; [apply dict_get_default_None, Er | reflexivity]. }
  destruct (dict_get_default row (u "評分數") (Some [])) as [vc|] eqn:Ev;
    cbn [strip_of bind].
  2:{ right; left. exists (u "評分數").
      split; [apply dict_get_default_None, Ev | reflexivity]. }
  destruct (dict_get_default row (u "UsdlK") (Some [])) as [vp|] eqn:Ep;
    cbn [strip_of bind].
  2:{ right; left. exists (u "UsdlK").
      split; [apply dict_get_default_None, Ep | reflexivity]. }
  destruct (dict_get_default row (u "FQ2IWe src") (Some [])) as [vi|] eqn:Ei;
    cbn [strip_of bind].
  2:{ right; left. exists (u "FQ2IWe src").
      split; [apply dict_get_default_None, Ei | reflexivity]. }
  right; right.
  exists [ (u "hfpxzc href", vh); (u "qBF1Pd", vn); ([], va); (u "評分", vr);
           (u "評分數", vc); (u "UsdlK", vp); (u "FQ2IWe src", vi) ].
  rewrite normalize_row_seven, Ec. reflexivity.
Qed.

Lemma normalize_row_of_reader_Ok (row : reader_row) (out : dict str) :
  normalize_row_of_reader M row = Ok out ->
  exists r, normalize_row M r = Ok out.
Proof.
  intros H.
  destruct (normalize_row_of_reader_cases row)
    as [[_ E] | [(k & _ & E) | (r & E)]]; try congruence.
  exists r. congruence.
Qed.

Lemma normalize_row_of_reader_exn (row : reader_row) (e : exn) :
  normalize_row_of_reader M row = Raise e ->
  e = ValueError \/ e = OverflowError
  \/ ((e = TypeError \/ e = AttributeError)
      /\ exists k, dict_get row k = Some None).
Proof.
  intros H.
  destruct (normalize_row_of_reader_cases row)
    as [[Hk E] | [(k & Hk & E) | (r & E)]].
  - right; right. split; [left; congruence | eauto].
  - right; right. split; [right; congruence | eauto].
  - rewrite E in H. destruct (normalize_row_exn _ _ H); auto.
Qed.

(** Once every row is tagged, nothing in [main] fails any more. *)
Lemma main_after_rows (reader : list reader_row)
    (tagged : list (dict str)) :
  list_comp (normalize_row_of_reader M) reader = Ok tagged ->
  TagDistricts.main M reader
  = Ok (fieldnames :: map (map snd) tagged,
        Collections.Counter (map record_district (map (map snd) tagged)),
        Collections.most_common
          (Collections.Counter
             (map record_district (map (map snd) tagged)))).
Proof.
  intros H. unfold TagDistricts.main, write_csv, Csv.DictWriter_records.
  rewrite H, header_row. cbn [bind].
  apply list_comp_Ok in H.
  assert (Hrow : forall out, In out tagged ->
                   exists row, normalize_row M row = Ok out).
  { intros out Hin. destruct (Forall2_right _ _ _ _ H Hin) as (row & _ & Hr).
    exact (normalize_row_of_reader_Ok _ _ Hr). }
  rewrite (list_comp_map (Csv.dict_to_list fieldnames) (map snd) tagged).
  2:{ intros out Hin. destruct (Hrow out Hin) as (row & Hr).
      destruct (normalize_row_Ok M _ _ Hr) as (lat & lon & d & _ & _ & ->).
      apply tagged_row_written. }
  cbn [bind].
  rewrite (list_comp_map (fun row => dict_getitem row (u "district"))
             (fun out => record_district (map snd out)) tagged).
  2:{ intros out Hin. destruct (Hrow out Hin) as (row & Hr).
      exact (proj1 (normalize_row_district row out Hr)). }
  cbn [bind]. rewrite map_map. reflexivity.
Qed.

(** X11: [main] returns exactly when every row is tagged.  Then the file
    holds the header and one record per input row, in the order of the
    input, each the eight values of its tagged row; the counts are those
    of the last field of the records, and the summary ranks the counts. *)
Theorem tagger_main_returns (reader : list reader_row)
    (written : list (list str)) (counts : dict Z)
    (summary : list (str * Z)) :
  TagDistricts.main M reader = Ok (written, counts, summary)
  <-> exists tagged,
        Forall2 (fun row out => normalize_row_of_reader M row = Ok out)
          reader tagged
        /\ written = fieldnames :: map (map snd) tagged
        /\ counts = Collections.Counter (map record_district (tl written))
        /\ summary = Collections.most_common counts.
Proof.
  split.
  - intros H.
    destruct (list_comp (normalize_row_of_reader M) reader)
      as [tagged|e] eqn:E.
    + rewrite (main_after_rows _ _ E) in H. injection H as <- <- <-.
      exists tagged. split; [apply list_comp_Ok, E|]. auto.
    + unfold TagDistricts.main in H. rewrite E in H. discriminate.
  - intros (tagged & Hrows & -> & -> & ->).
    apply list_comp_Ok in Hrows. exact (main_after_rows _ _ Hrows).
Qed.

(** X12: [main] fails exactly when a row fails, with the exception of the
    first row that does; the rows before it were tagged, and nothing is
    written.  The exception is a [ValueError] or an [OverflowError],
    unless a row holds [None], the mark of a short record: then it can
    be the [TypeError] of the pattern search or the [AttributeError] of
    [strip].  It is never a [KeyError]. *)
Theorem tagger_main_raises (reader : list reader_row) (e : exn) :
  (TagDistricts.main M reader = Raise e
   <-> exists done row rest,
         reader = done ++ row :: rest
         /\ Forall (fun r => exists out,
                              normalize_row_of_reader M r = Ok out) done
         /\ normalize_row_of_reader M row = Raise e)
  /\ (TagDistricts.main M reader = Raise e ->
      e = ValueError \/ e = OverflowError
      \/ ((e = TypeError \/ e = AttributeError)
          /\ exists row k, In row reader /\ dict_get row k = Some None)).
Proof.
  assert (Hmain : TagDistricts.main M reader = Raise e
                  <-> list_comp (normalize_row_of_reader M) reader
                      = Raise e).
  { destruct (list_comp (normalize_row_of_reader M) reader)
      as [tagged|e'] eqn:E.
    - rewrite (main_after_rows _ _ E). split; discriminate.
    - unfold TagDistricts.main. rewrite E. cbn [bind].
      split; congruence. }
  split.
  - rewrite Hmain. apply list_comp_Raise_iff.
  - intros H. apply Hmain, list_comp_Raise_iff in H.
    destruct H as (done & row & rest & -> & _ & H).
    destruct (normalize_row_of_reader_exn _ _ H)
      as [He | [He | [He (k & Hk)]]]; auto.
    right; right. split; [exact He|]. exists row, k.
    split; [|exact Hk]. apply in_or_app. right. left. reflexivity.
Qed.

(** X13: the counts account for every row once.  They add up to the
    number of input rows; each district is counted under one key, a
    label of the program, with the number of records that carry it. *)
Theorem tagger_main_counts (reader : list reader_row)
    (written : list (list str)) (counts : dict Z)
    (summary : list (str * Z)) :
  TagDistricts.main M reader = Ok (written, counts, summary) ->
  total counts = Z.of_nat (length reader)
  /\ NoDup (dict_keys counts)
  /\ forall d n,
       In (d, n) counts ->
       (In d KNOWN_DISTRICTS \/ d = UNRESOLVED)
       /\ (0 < n)%Z
       /\ n = occurrences d (map record_district (tl written)).
Proof.
  intros H.
  destruct (list_comp (normalize_row_of_reader M) reader)
    as [tagged|e] eqn:E.
  2:{ unfold TagDistricts.main in H. rewrite E in H. discriminate. }
  rewrite (main_after_rows _ _ E) in H. injection H as <- <- <-.
  cbn [tl]. apply list_comp_Ok in E.
  destruct (Counter_spec (map record_district (map (map snd) tagged)))
    as (Hnd & Htotal & Hentries).
  split; [|split; [exact Hnd|]].
  - rewrite Htotal, !length_map. f_equal. symmetry.
    exact (Forall2_length_eq _ _ _ E).
  - intros d n Hin. destruct (Hentries d n Hin) as [Hd ->].
    split; [|split; [apply occurrences_pos, Hd | reflexivity]].
    rewrite map_map in Hd. apply in_map_iff in Hd.
    destruct Hd as (out & <- & Hout).
    destruct (Forall2_right _ _ _ _ E Hout) as (row & _ & Hr).
    destruct (normalize_row_of_reader_Ok _ _ Hr) as (r & Hr').
    exact (proj2 (normalize_row_district r out Hr')).
Qed.

(** X14: the summary is the counts, ranked.  It goes from the largest
    count down, and the districts of one count stand in the order the
    counts hold them: nothing is added, dropped or merged. *)
Theorem tagger_main_summary (reader : list reader_row)
    (written : list (list str)) (counts : dict Z)
    (summary : list (str * Z)) :
  TagDistricts.main M reader = Ok (written, counts, summary) ->
  descending summary = true
  /\ forall n, with_count n summary = with_count n counts.
Proof.
  intros H.
  destruct (list_comp (normalize_row_of_reader M) reader)
    as [tagged|e] eqn:E.
  2:{ unfold TagDistricts.main in H. rewrite E in H. discriminate. }
  rewrite (main_after_rows _ _ E) in H. injection H as <- <- <-.
  unfold Collections.most_common. split.
  - apply sorted_descending.
  - intros n. apply sorted_with_count.
Qed.

End TaggerMain.

(** Witnesses for X13 and X14: four rows, two districts ranked below the
    unresolved ones. *)
Lemma tagger_main_counts_witness :
  exists written counts summary,
    TagDistricts.main taylor_libm four_rows = Ok (written, counts, summary)
    /\ total counts = 4%Z
    /\ NoDup (dict_keys counts).
Proof.
  assert (H : exists w c s,
             TagDistricts.main taylor_libm four_rows = Ok (w, c, s))
    by (vm_compute; eauto).
  destruct H as (w & c & s & H). exists w, c, s. split; [exact H|].
  destruct (tagger_main_counts taylor_libm four_rows w c s H)
    as (Ht & Hnd & _).
  split; [exact Ht | exact Hnd].
Defined.

Lemma tagger_main_summary_witness :
  exists written counts summary,
    TagDistricts.main taylor_libm four_rows = Ok (written, counts, summary)
    /\ descending summary = true.
Proof.
  assert (H : exists w c s,
             TagDistricts.main taylor_libm four_rows = Ok (w, c, s))
    by (vm_compute; eauto).
  destruct H as (w & c & s & H). exists w, c, s. split; [exact H|].
  exact (proj1 (tagger_main_summary taylor_libm four_rows w c s H)).
Defined.

(** ** [scripts/clean_flowerstores.py]: rows and [main] *)

Section Cleaner.

Variable py_float : str -> option float.
Variable py_int : str -> option Z.
Variable format_g : float -> str.

Lemma normalize_rating_returns (value : str) :
  exists v, normalize_rating py_float format_g value = Ok v
            /\ (strip value = [] -> v = []).
Proof.
  unfold normalize_rating, float_.
  destruct (strip value); [eauto|].
  destruct (py_float _); cbn [bind]; eexists; (split; [reflexivity|]);
    discriminate.
Qed.

Lemma normalize_review_count_returns (value : str) :
  exists v, normalize_review_count py_int value = Ok v
            /\ (strip value = [] -> v = []).
Proof.
  unfold normalize_review_count, int_.
  destruct (strip value); [eauto|].
  destruct (py_int _); eexists; (split; [reflexivity|]); discriminate.
Qed.

Lemma clean_value_returns (row : dict str) (raw new : str) :
  exists v, clean_value py_float py_int format_g row raw new = Ok v
            /\ (strip (dict_get_default row raw []) = [] -> v = []).
Proof.
  unfold clean_value.
  destruct (str_eqb new _); [apply normalize_rating_returns|].
  destruct (str_eqb new _); [apply normalize_review_count_returns|].
  eexists. split; [reflexivity | auto].
Qed.

(** The loop over the columns never fails.  With target names that are
    new and pairwise different it appends one entry per column, in the
    order of the columns, and no entry is overwritten. *)
Lemma clean_columns_spec (row : dict str) (columns : list (str * str))
    (acc : dict str) :
  NoDup (dict_keys acc ++ map snd columns) ->
  exists out,
    clean_columns py_float py_int format_g row columns acc = Ok out
    /\ dict_keys out = dict_keys acc ++ map snd columns
    /\ (forall k, ~ In k (map snd columns) -> dict_get out k = dict_get acc k)
    /\ (forall raw new,
          In (raw, new) columns ->
          exists v, clean_value py_float py_int format_g row raw new = Ok v
                    /\ dict_get out new = Some v).
Proof.
  revert acc. induction columns as [|[raw new] rest IH]; intros acc Hnd;
    cbn [clean_columns map snd].
  - exists acc. rewrite app_nil_r.
    split; [reflexivity | split; [reflexivity | split; [auto|]]].
    intros raw new [].
  - destruct (clean_value_returns row raw new) as (v & Hv & _).
    rewrite Hv. cbn [bind]. cbn [map snd] in Hnd.
    assert (Hnew : ~ In new (dict_keys acc) /\ ~ In new (map snd rest)).
    { apply NoDup_remove_2 in Hnd. rewrite in_app_iff in Hnd. tauto. }
    destruct Hnew as [Hacc Hrest].
    assert (Hkeys : dict_keys (dict_setitem acc new v)
                    = dict_keys acc ++ [new]).
    { rewrite (dict_setitem_new acc new v Hacc). unfold dict_keys.
      rewrite map_app. reflexivity. }
    destruct (IH (dict_setitem acc new v)) as (out & Hout & Hk & Hold & Hval).
    { rewrite Hkeys, <- app_assoc. exact Hnd. }
    exists out. split; [exact Hout|]. split; [|split].
    + rewrite Hk, Hkeys, <- app_assoc. reflexivity.
    + intros k Hn. rewrite Hold by (intros H; apply Hn; right; exact H).
      rewrite dict_get_setitem.
      destruct (str_eqb new k) eqn:E; [|reflexivity].
      apply str_eqb_eq in E. exfalso. apply Hn. left; exact E.
    + intros raw' new' [H | H].
      * injection H as <- <-. exists v. split; [exact Hv|].
        rewrite (Hold new Hrest), dict_get_setitem, str_eqb_refl.
        reflexivity.
      * apply Hval, H.
Qed.

Lemma COLUMN_MAP_targets : NoDup (map snd COLUMN_MAP).
Proof. apply distinct_NoDup. vm_compute. reflexivity. Qed.

Lemma clean_row_spec (row : dict str) :
  exists cleaned,
    clean_row py_float py_int format_g row = Ok cleaned
    /\ dict_keys cleaned = map snd COLUMN_MAP
    /\ forall raw new,
         In (raw, new) COLUMN_MAP ->
         exists v, clean_value py_float py_int format_g row raw new = Ok v
                   /\ dict_get cleaned new = Some v.
Proof.
  destruct (clean_columns_spec row COLUMN_MAP [])
    as (out & Hout & Hk & _ & Hval); [exact COLUMN_MAP_targets|].
  exists out. split; [exact Hout | split; [exact Hk | exact Hval]].
Qed.

Lemma cleaned_header :
  Csv.dict_to_list (map snd COLUMN_MAP)
    (dict_of_items (combine (map snd COLUMN_MAP) (map snd COLUMN_MAP)))
  = Ok (map snd COLUMN_MAP).
Proof. vm_compute. reflexivity. Qed.

(** X15: on rows of strings the cleaner always finishes.  Whatever
    strings the rows hold, [main] writes the header of the seven new
    names and one record of seven values per input row, in the order of
    the input. *)
Theorem cleaner_main_returns (reader : list (dict str)) :
  exists cleaned,
    Forall2 (fun row c => clean_row py_float py_int format_g row = Ok c)
      reader cleaned
    /\ CleanFlowerstores.main py_float py_int format_g reader
       = Ok (map snd COLUMN_MAP :: map (map snd) cleaned)
    /\ Forall (fun record => length record = 7) (map (map snd) cleaned).
Proof.
  destruct (list_comp_all (clean_row py_float py_int format_g) reader)
    as (cleaned & Hc).
  { intros row _. destruct (clean_row_spec row) as (c & Hrow & _). eauto. }
  exists cleaned. pose proof (proj1 (list_comp_Ok _ _ _) Hc) as Hrows.
  assert (Hkeys : forall c, In c cleaned ->
                            dict_keys c = map snd COLUMN_MAP).
  { intros c Hin. destruct (Forall2_right _ _ _ _ Hrows Hin) as (row & _ & Hr).
    destruct (clean_row_spec row) as (c' & Hr' & Hk & _). congruence. }
  split; [exact Hrows|]. split.
  - unfold CleanFlowerstores.main, Csv.DictWriter_records.
    rewrite Hc, cleaned_header. cbn [bind].
    rewrite (list_comp_map (Csv.dict_to_list (map snd COLUMN_MAP))
               (map snd) cleaned); [reflexivity|].
    intros c Hin. rewrite <- (Hkeys c Hin). apply dict_to_list_exact.
    rewrite (Hkeys c Hin). exact COLUMN_MAP_targets.
  - apply Forall_forall. intros record Hin. apply in_map_iff in Hin.
    destruct Hin as (c & <- & Hin). rewrite length_map.
    rewrite <- (length_map fst c). fold (dict_keys c).
    rewrite (Hkeys c Hin). reflexivity.
Qed.


(** *** The tagger on a cleaned row *)

Variable M : libm.

Lemma raw_columns_renamed (k : str) :
  In k (map fst COLUMN_MAP) -> ~ In k (map snd COLUMN_MAP).
Proof.
  intros Hk Hin.
  assert (Hall : forallb (fun k => negb (existsb (str_eqb k)
                                           (map snd COLUMN_MAP)))
                   (map fst COLUMN_MAP) = true) by (vm_compute; reflexivity).
  rewrite forallb_forall in Hall. apply Hall in Hk.
  apply negb_true_iff in Hk. apply existsb_str_eqb in Hin. congruence.
Qed.

Lemma blank_row_tagged (row : dict str) :
  (forall k, In k (map fst COLUMN_MAP) -> dict_get_default row k [] = []) ->
  normalize_row M row
  = Ok [ (u "name", []); (u "address", []); (u "url", []);
         (u "rating", []); (u "rating_count", []); (u "phone", []);
         (u "image", []); (u "district", UNRESOLVED) ].
Proof.
  intros H.
  assert (Hin : forall k, existsb (str_eqb k) (map fst COLUMN_MAP) = true ->
                          dict_get_default row k [] = []).
  { intros k Hk. apply H, existsb_str_eqb, Hk. }
  unfold normalize_row.
  rewrite (Hin (u "hfpxzc href")) by (vm_compute; reflexivity).
  rewrite (Hin (u "qBF1Pd")) by (vm_compute; reflexivity).
  rewrite (Hin []) by (vm_compute; reflexivity).
  rewrite (Hin (u "評分")) by (vm_compute; reflexivity).
  rewrite (Hin (u "評分數")) by (vm_compute; reflexivity).
  rewrite (Hin (u "UsdlK")) by (vm_compute; reflexivity).
  rewrite (Hin (u "FQ2IWe src")) by (vm_compute; reflexivity).
  vm_compute. reflexivity.
Qed.

(** X17: the tagger reads the raw column names, and the cleaner renames
    every one of them.  So [normalize_row] finds nothing in a cleaned
    row: every field comes out empty and the district unresolved.  The
    two scripts are alternatives on the raw export, not stages. *)
Theorem cleaned_row_is_blank_to_tagger (row cleaned : dict str) :
  clean_row py_float py_int format_g row = Ok cleaned ->
  normalize_row M cleaned
  = Ok [ (u "name", []); (u "address", []); (u "url", []);
         (u "rating", []); (u "rating_count", []); (u "phone", []);
         (u "image", []); (u "district", UNRESOLVED) ].
Proof.
  intros Hrow. destruct (clean_row_spec row) as (c & Hc & Hk & _).
  assert (c = cleaned) by congruence. subst c.
  apply blank_row_tagged. intros k Hin.
  unfold dict_get_default. rewrite dict_get_absent; [reflexivity|].
  rewrite Hk. apply raw_columns_renamed, Hin.
Qed.

(** *** Cleaning twice *)

Lemma digits_no_blank (d : Decimal.uint) :
  forallb (fun c => negb (isspace c)) (digits_of_uint d) = true.
Proof.
  induction d; cbn [digits_of_uint forallb]; try reflexivity;
    rewrite IHd; reflexivity.
Qed.

Lemma str_of_int_shape (n : Z) :
  strip (str_of_int n) = str_of_int n /\ str_of_int n <> [].
Proof.
  unfold str_of_int. destruct (Z.to_int n) as [d|d] eqn:E.
  - split; [apply strip_no_blank, digits_no_blank|].
    destruct d; try discriminate.
    exfalso. destruct n as [|p|p]; cbn [Z.to_int] in E; try discriminate.
    injection E as E. exact (DecimalPos.Unsigned.to_uint_nonnil p E).
  - split; [|discriminate].
    apply strip_no_blank. cbn [forallb]. rewrite digits_no_blank.
    reflexivity.
Qed.

(** X18: cleaning a review count twice changes nothing more, as long as
    [int] reads back what [str] wrote of a number it parsed. *)
Theorem normalize_review_count_idempotent (value v : str) :
  (forall s n, py_int s = Some n -> py_int (str_of_int n) = Some n) ->
  normalize_review_count py_int value = Ok v ->
  normalize_review_count py_int v = Ok v.
Proof.
  intros Hint. unfold normalize_review_count at 1. unfold int_.
  destruct (strip value) as [|c s] eqn:Es.
  { intros H; injection H as <-. reflexivity. }
  destruct (py_int (c :: s)) as [n|] eqn:En.
  2:{ intros H; injection H as <-. reflexivity. }
  intros H; injection H as <-.
  destruct (str_of_int_shape n) as [Hstrip Hne].
  unfold normalize_review_count, int_. rewrite Hstrip.
  destruct (str_of_int n) as [|c' s'] eqn:E; [contradiction Hne; reflexivity|].
  rewrite <- E, (Hint _ _ En). reflexivity.
Qed.

End Cleaner.

Lemma uint_of_digits_of (d : Decimal.uint) :
  uint_of_digits (digits_of_uint d) = Some d.
Proof.
  induction d; cbn [digits_of_uint uint_of_digits]; try reflexivity;
    rewrite IHd; reflexivity.
Qed.

Lemma int_of_decimal_str (n : Z) : int_of_decimal (str_of_int n) = Some n.
Proof.
  rewrite <- (DecimalZ.of_to n) at 2. unfold str_of_int.
  destruct (Z.to_int n) as [d|d] eqn:E.
  - assert (Hd : d <> Decimal.Nil).
    { intros ->. destruct n as [|p|p]; cbn [Z.to_int] in E;
        try discriminate.
      injection E as E. exact (DecimalPos.Unsigned.to_uint_nonnil p E). }
    pose proof (uint_of_digits_of d) as Hu.
    destruct d; try (contradiction Hd; reflexivity);
      cbn [digits_of_uint] in *; unfold int_of_decimal; rewrite Hu;
      reflexivity.
  - assert (Hd : d <> Decimal.Nil).
    { intros ->. destruct n as [|p|p]; cbn [Z.to_int] in E;
        try discriminate.
      injection E as E. exact (DecimalPos.Unsigned.to_uint_nonnil p E). }
    pose proof (uint_of_digits_of d) as Hu.
    destruct d; try (contradiction Hd; reflexivity);
      cbn [digits_of_uint] in *; unfold int_of_decimal; rewrite Hu;
      reflexivity.
Qed.


(** Witness for X17. *)
Lemma cleaned_row_is_blank_to_tagger_witness :
  exists cleaned,
    clean_row (fun _ => None) int_of_decimal (fun _ => []) keyword_row
    = Ok cleaned
    /\ dict_get cleaned (u "name") = Some (u "板橋花店")
    /\ normalize_row taylor_libm cleaned
       = Ok [ (u "name", []); (u "address", []); (u "url", []);
              (u "rating", []); (u "rating_count", []); (u "phone", []);
              (u "image", []); (u "district", UNRESOLVED) ].
Proof.
  assert (H : exists cleaned,
             clean_row (fun _ => None) int_of_decimal (fun _ => [])
               keyword_row = Ok cleaned
             /\ dict_get cleaned (u "name") = Some (u "板橋花店")).
  { eexists. split; vm_compute; reflexivity. }
  destruct H as (cleaned & H & Hname). exists cleaned.
  split; [exact H | split; [exact Hname|]].
  exact (cleaned_row_is_blank_to_tagger (fun _ => None) int_of_decimal
           (fun _ => []) taylor_libm keyword_row cleaned H).
Defined.

(** Witness for X18: a count written with blanks and leading zeros. *)
Lemma normalize_review_count_idempotent_witness :
  normalize_review_count int_of_decimal (u " 0012 ") = Ok (u "12")
  /\ normalize_review_count int_of_decimal (u "12") = Ok (u "12").
Proof.
  assert (H : normalize_review_count int_of_decimal (u " 0012 ")
              = Ok (u "12")) by (vm_compute; reflexivity).
  split; [exact H|].
  exact (normalize_review_count_idempotent int_of_decimal _ _
           (fun s n _ => int_of_decimal_str n) H).
Defined.

(** ** Blank padding, and road keys behind keywords *)

Section Padding.

Variable M : libm.

Lemma extract_coords_of_stripped (a b : str) :
  strip a = strip b -> extract_coords a = extract_coords b.
Proof.
  intros H. unfold extract_coords.
  rewrite <- (COORD_RE_search_strip a), <- (COORD_RE_search_strip b), H.
  reflexivity.
Qed.

(** X19: blanks around the values of a row do not show in the tagged
    row.  Two rows whose columns agree after stripping are tagged alike,
    exceptions included. *)
Theorem normalize_row_blank_padding (row row' : dict str) :
  (forall k, strip (dict_get_default row k [])
             = strip (dict_get_default row' k [])) ->
  normalize_row M row = normalize_row M row'.
Proof.
  intros H. unfold normalize_row.
  rewrite (extract_coords_of_stripped _ _ (H (u "hfpxzc href"))).
  rewrite !H. reflexivity.
Qed.

Lemma str_in_trans (a b c : str) :
  str_in a b = true -> str_in b c = true -> str_in a c = true.
Proof.
  rewrite !str_in_spec. intros (x & y & ->) (x' & y' & ->).
  exists (x' ++ x), (y ++ y'). rewrite <- !app_assoc. reflexivity.
Qed.

Lemma roads_behind_keywords :
  filter (fun kd => existsb (fun kw => str_in (fst kw) (fst kd))
                      DISTRICT_KEYWORDS) ROAD_TO_DISTRICT
  = [ (u "板橋花市", u "新北市板橋區"); (u "中和路", u "新北市中和區") ].
Proof. vm_compute. reflexivity. Qed.

(** X20: two road entries never decide.  The keys 板橋花市 and 中和路
    hold a keyword, and they are the only road keys that do; an address
    with such a key has a keyword in the combined text, so the keyword
    table answers and the road table is not consulted. *)
Theorem road_key_behind_keyword (name address url : str)
    (lat lon : option float) (k d : str) :
  In (k, d) ROAD_TO_DISTRICT ->
  hits DISTRICT_KEYWORDS k ->
  (k = u "板橋花市" \/ k = u "中和路")
  /\ (str_in k address = true ->
      exists dk,
        first_hit DISTRICT_KEYWORDS
          (name ++ u " " ++ address ++ u " " ++ url) = Some dk
        /\ infer_district M name address url lat lon = Ok dk).
Proof.
  intros Hin (kw & dk & Hkw & Hs). split.
  - assert (Hf : In (k, d)
                   (filter (fun kd => existsb (fun kw => str_in (fst kw) (fst kd))
                                        DISTRICT_KEYWORDS) ROAD_TO_DISTRICT)).
    { apply filter_In. split; [exact Hin|]. apply existsb_exists.
      exists (kw, dk). split; [exact Hkw | exact Hs]. }
    rewrite roads_behind_keywords in Hf. cbn [In] in Hf.
    destruct Hf as [Hf | [Hf | []]]; injection Hf as <- _; auto.
  - intros Ha. unfold infer_district.
    destruct (first_hit DISTRICT_KEYWORDS _) as [dk'|] eqn:E; [eauto|].
    exfalso. apply first_hit_None in E. apply E.
    exists kw, dk. split; [exact Hkw|].
    pose proof (str_in_trans _ _ _ Hs Ha) as Hk.
    apply (str_in_app kw (name ++ u " ") address (u " " ++ url)) in Hk.
    rewrite <- app_assoc in Hk. exact Hk.
Qed.

End Padding.

(** ** Worked instances *)

(** Witness for X5: nothing applies and there is no coordinate. *)
Lemma infer_district_unresolved_witness :
  ~ hits DISTRICT_KEYWORDS (u "花店" ++ u " " ++ u "某某路1號" ++ u " " ++ [])
  /\ ~ hits ROAD_TO_DISTRICT (u "某某路1號")
  /\ (forall d, ~ In (u "花店", d) MANUAL_OVERRIDES)
  /\ (@None float = None \/ Some 121.5%float = None).
Proof.
  apply (infer_district_unresolved taylor_libm (u "花店") (u "某某路1號") []
           None (Some 121.5%float)).
  vm_compute. reflexivity.
Defined.

(** Witness for X10: the keyword sits in the address. *)
Lemma keyword_hit_in_a_field_witness :
  hits DISTRICT_KEYWORDS (u "花店" ++ u " " ++ u "永和路1號" ++ u " " ++ []).
Proof.
  apply (keyword_hit_in_a_field (u "花店") (u "永和路1號") []).
  right; left. exists (u "永和"), (u "新北市永和區"). split.
  - apply (nth_error_In _ 2). vm_compute. reflexivity.
  - vm_compute. reflexivity.
Defined.

(** Witness for X11. *)
Lemma tagger_main_returns_witness :
  exists written counts summary tagged,
    TagDistricts.main taylor_libm four_rows = Ok (written, counts, summary)
    /\ Forall2
         (fun row out => normalize_row_of_reader taylor_libm row = Ok out)
         four_rows tagged
    /\ written = fieldnames :: map (map snd) tagged.
Proof.
  assert (H : exists w c s,
             TagDistricts.main taylor_libm four_rows = Ok (w, c, s))
    by (vm_compute; eauto).
  destruct H as (w & c & s & H).
  destruct (proj1 (tagger_main_returns taylor_libm four_rows w c s) H)
    as (tagged & Hrows & Hw & _).
  exists w, c, s, tagged. split; [exact H | split; [exact Hrows | exact Hw]].
Defined.

(** Witness for X12: the second of three records ends before the phone
    column. *)
Lemma tagger_main_raises_witness :
  TagDistricts.main taylor_libm
    [ of_strings keyword_row; short_row; of_strings sparse_row ]
  = Raise AttributeError
  /\ exists row k,
       In row [ of_strings keyword_row; short_row; of_strings sparse_row ]
       /\ dict_get row k = Some None.
Proof.
  assert (H : TagDistricts.main taylor_libm
                [ of_strings keyword_row; short_row; of_strings sparse_row ]
              = Raise AttributeError).
  { apply (proj1 (tagger_main_raises taylor_libm _ AttributeError)).
    exists [of_strings keyword_row], short_row, [of_strings sparse_row].
    split; [reflexivity|]. split.
    - constructor; [|constructor]. eexists. vm_compute. reflexivity.
    - vm_compute. reflexivity. }
  split; [exact H|].
  destruct (proj2 (tagger_main_raises taylor_libm _ AttributeError) H)
    as [He | [He | [_ Hnone]]]; [discriminate | discriminate | exact Hnone].
Defined.

(** Witness for X19. *)
Lemma normalize_row_blank_padding_witness :
  normalize_row taylor_libm [ (u "qBF1Pd", u " 板橋花店 ") ]
  = normalize_row taylor_libm [ (u "qBF1Pd", u "板橋花店") ].
Proof.
  apply normalize_row_blank_padding. intros k.
  unfold dict_get_default. cbn [dict_get].
  destruct (str_eqb (u "qBF1Pd") k); vm_compute; reflexivity.
Defined.

(** Witness for X20: the road says 中和, the keyword 板橋 answers. *)
Lemma road_key_behind_keyword_witness :
  In (u "中和路", u "新北市中和區") ROAD_TO_DISTRICT
  /\ hits DISTRICT_KEYWORDS (u "中和路")
  /\ str_in (u "中和路") (u "板橋區中和路1號") = true
  /\ infer_district taylor_libm (u "花店") (u "板橋區中和路1號") [] None None
     = Ok (u "新北市板橋區").
Proof.
  assert (Hin : In (u "中和路", u "新北市中和區") ROAD_TO_DISTRICT)
    by (apply (nth_error_In _ 36); vm_compute; reflexivity).
  assert (Hk : hits DISTRICT_KEYWORDS (u "中和路")).
  { exists (u "中和"), (u "新北市中和區"). split.
    - apply (nth_error_In _ 1). vm_compute. reflexivity.
    - vm_compute. reflexivity. }
  assert (Ha : str_in (u "中和路") (u "板橋區中和路1號") = true)
    by (vm_compute; reflexivity).
  split; [exact Hin | split; [exact Hk | split; [exact Ha|]]].
  destruct (road_key_behind_keyword taylor_libm (u "花店")
              (u "板橋區中和路1號") [] None None _ _ Hin Hk)
    as (_ & Hroad).
  destruct (Hroad Ha) as (dk & Hf & ->). f_equal.
  assert (Hc : first_hit DISTRICT_KEYWORDS
                 (u "花店" ++ u " " ++ u "板橋區中和路1號" ++ u " " ++ [])
               = Some (u "新北市板橋區")) by (vm_compute; reflexivity).
  rewrite Hc in Hf. injection Hf as <-. reflexivity.
Defined.

(** ** A keyword ahead of the road table *)

(** C6, as stated, fails.  The address holds two road keys, of which
    中正路 comes earliest in the road table and maps to 板橋; it also holds
    the keyword 永和, so the keyword rule answers and the record goes to
    永和.  The earliest key of the road table decides only a record
    without a keyword. *)
Lemma earliest_road_key_behind_keyword :
  str_in (u "中正路") (u "中正路永和忠孝路") = true
  /\ str_in (u "忠孝路") (u "中正路永和忠孝路") = true
  /\ first_hit ROAD_TO_DISTRICT (u "中正路永和忠孝路")
     = Some (u "新北市板橋區")
  /\ forall M : libm,
       infer_district M (u "花店") (u "中正路永和忠孝路") [] None None
       = Ok (u "新北市永和區").
Proof.
  split; [|split; [|split]]; vm_compute; reflexivity.
Qed.

(** ** A finite coordinate without a nearest centroid *)

Section NearAntipode.

Variable M : libm.

Local Open Scope float_scope.

Lemma math_1_value (f : float -> float) (x r : float) :
  f x = r ->
  (is_nan r && negb (is_nan x))%bool = false ->
  (is_infinity r && is_finite x)%bool = false ->
  math_1 f x = Ok r.
Proof. intros <- H1 H2. unfold math_1. rewrite H1, H2. reflexivity. Qed.

Lemma float_pow_2_value (x r : float) :
  libm_pow2 M x = r ->
  is_nan x = false -> is_infinity x = false -> (x =? 0) = false ->
  (x <? 0) = false -> (x =? 1) = false -> is_infinity r = false ->
  float_pow_2 M x = Ok r.
Proof.
  intros <- H1 H2 H3 H4 H5 H6. unfold float_pow_2. cbv zeta.
  rewrite H1, H2, H3, H4. cbv iota. rewrite H5, H6. reflexivity.
Qed.

End NearAntipode.

(** C4, at the failing input: the coordinate (-25.0111999784,
    -58.5362995423), near the antipode of the first centroid.  With the
    sines, cosines and square a correctly rounded C library returns
    there, the haversine term comes out as [1 + 2^-52], the square root
    of [1 - a] is a [ValueError], and [nearest_centroid] raises instead
    of returning the nearest district; so does the classifier on a record
    with that coordinate in its URL. *)
Theorem nearest_centroid_raises_near_antipode (M : libm) :
  libm_sin M 0x1.bf012411fdd14p-2 = 0x1.b0f1480d7bd97p-2%float ->
  libm_pow2 M 0x1.b0f1480d7bd97p-2 = 0x1.6e179b4b1fd45p-3%float ->
  libm_cos M (-0x1.bf01240ec0ce1p-2) = 0x1.cffcbe6efbe83p-1%float ->
  libm_cos M 0x1.bf0124153ad45p-2 = 0x1.cffcbe6d9d678p-1%float ->
  libm_sin M 0x1.921fb5331b2a2p+0 = 1%float ->
  extract_coords far_url = Ok (Some far_lat, Some far_lon)
  /\ is_finite far_lat = true /\ is_finite far_lon = true
  /\ great_circle_distance M far_lat far_lon 25.0112 121.4637
     = Raise ValueError
  /\ nearest_centroid M far_lat far_lon = Raise ValueError
  /\ infer_district M (u "花店") (u "某某路1號") far_url
       (Some far_lat) (Some far_lon) = Raise ValueError.
Proof.
  intros Hs1 Hp1 Hc1 Hc2 Hs2.
  assert (Hd : great_circle_distance M far_lat far_lon 25.0112 121.4637
               = Raise ValueError).
  { unfold great_circle_distance. cbv zeta.
    assert (Ea : (math_radians (25.0112 - far_lat) / 2
                  = 0x1.bf012411fdd14p-2)%float) by (vm_compute; reflexivity).
    assert (Eb : math_radians far_lat = (-0x1.bf01240ec0ce1p-2)%float)
      by (vm_compute; reflexivity).
    assert (Ec : math_radians 25.0112 = 0x1.bf0124153ad45p-2%float)
      by (vm_compute; reflexivity).
    assert (Ed : (math_radians (121.4637 - far_lon) / 2
                  = 0x1.921fb5331b2a2p+0)%float) by (vm_compute; reflexivity).
    rewrite Ea, Eb, Ec, Ed. unfold math_sin, math_cos.
    rewrite (math_1_value (c_sin M) 0x1.bf012411fdd14p-2
               0x1.b0f1480d7bd97p-2 Hs1) by (vm_compute; reflexivity).
    cbn [bind].
    rewrite (float_pow_2_value M _ _ Hp1) by (vm_compute; reflexivity).
    cbn [bind].
    rewrite (math_1_value (c_cos M) (-0x1.bf01240ec0ce1p-2)
               0x1.cffcbe6efbe83p-1 Hc1) by (vm_compute; reflexivity).
    rewrite (math_1_value (c_cos M) 0x1.bf0124153ad45p-2
               0x1.cffcbe6d9d678p-1 Hc2) by (vm_compute; reflexivity).
    cbn [bind].
    rewrite (math_1_value (c_sin M) 0x1.921fb5331b2a2p+0 1 Hs2)
      by (vm_compute; reflexivity).
    cbn [bind].
    assert (Ep : float_pow_2 M 1 = Ok 1%float) by reflexivity.
    rewrite Ep. cbn [bind]. vm_compute. reflexivity. }
  assert (Hn : nearest_centroid M far_lat far_lon = Raise ValueError).
  { unfold nearest_centroid.
    assert (Hc : CENTROIDS
                 = Centroid (u "新北市板橋區") 25.0112 121.4637
                   :: tl CENTROIDS) by reflexivity.
    rewrite Hc. cbn [distances_of Centroid.lat Centroid.lon].
    rewrite Hd. reflexivity. }
  split; [vm_compute; reflexivity|].
  split; [reflexivity|]. split; [reflexivity|].
  split; [exact Hd|]. split; [exact Hn|].
  unfold infer_district.
  assert (Hk : first_hit DISTRICT_KEYWORDS
                 (u "花店" ++ u " " ++ u "某某路1號" ++ u " " ++ far_url)
               = None) by (vm_compute; reflexivity).
  assert (Hr : first_hit ROAD_TO_DISTRICT (u "某某路1號") = None)
    by (vm_compute; reflexivity).
  assert (Ho : dict_contains MANUAL_OVERRIDES (u "花店") = false)
    by (vm_compute; reflexivity).
  rewrite Hk, Hr, Ho. exact Hn.
Qed.

(** Witness for C4. *)
Lemma nearest_centroid_raises_near_antipode_witness :
  extract_coords far_url = Ok (Some far_lat, Some far_lon)
  /\ is_finite far_lat = true /\ is_finite far_lon = true
  /\ great_circle_distance libm_near_antipode far_lat far_lon
       25.0112 121.4637 = Raise ValueError
  /\ nearest_centroid libm_near_antipode far_lat far_lon = Raise ValueError
  /\ infer_district libm_near_antipode (u "花店") (u "某某路1號") far_url
       (Some far_lat) (Some far_lon) = Raise ValueError.
Proof.
  apply (nearest_centroid_raises_near_antipode libm_near_antipode);
    vm_compute; reflexivity.
Defined.

(** ** Floating point: negation, and products that do not overflow *)

Section FloatSymmetry.

Lemma binary_round_aux_opp (p e : Z) (s : bool) (m ex : Z) (l : location) :
  binary_round_aux p e (negb s) m ex l
  = SFopp (binary_round_aux p e s m ex l).
Proof.
  unfold binary_round_aux.
  destruct (shr_fexp p e m ex l) as [mrs' e'].
  destruct (shr_fexp p e _ e' loc_Exact) as [mrs'' e''].
  destruct (shr_m mrs''); [reflexivity | | reflexivity].
  destruct (e'' <=? e - p)%Z; reflexivity.
Qed.

Lemma binary_round_opp (p e : Z) (s : bool) (m : positive) (ex : Z) :
  binary_round p e (negb s) m ex = SFopp (binary_round p e s m ex).
Proof.
  unfold binary_round. destruct (shl_align m ex _) as [mz ez].
  apply binary_round_aux_opp.
Qed.

Lemma binary_normalize_opp (p e m ex : Z) :
  binary_normalize p e (- m) ex false
  = match m with
    | 0%Z => S754_zero false
    | _ => SFopp (binary_normalize p e m ex false)
    end.
Proof.
  destruct m as [|q|q]; cbn [Z.opp binary_normalize]; [reflexivity| |].
  - exact (binary_round_opp p e false q ex).
  - exact (binary_round_opp p e true q ex).
Qed.

(** [y - x] is the opposite of [x - y], except that an exact zero is
    [+0] both ways. *)
Lemma SFsub_anti (p e : Z) (x y : spec_float) :
  SFsub p e y x = SFopp (SFsub p e x y)
  \/ (SFsub p e x y = S754_zero false /\ SFsub p e y x = S754_zero false).
Proof.
  destruct x as [sx|sx| |sx mx ex], y as [sy|sy| |sy my ey];
    cbn [SFsub SFopp];
    try (left; reflexivity);
    try (destruct sx, sy; cbn [negb SFopp]; auto; fail).
  cbv zeta. change IntDef.Z.min with Z.min. rewrite (Z.min_comm ey ex).
  set (a := cond_Zopp sx (Z.pos (fst (shl_align mx ex (Z.min ex ey))))).
  set (b := cond_Zopp sy (Z.pos (fst (shl_align my ey (Z.min ex ey))))).
  replace (b - a)%Z with (- (a - b))%Z by lia.
  rewrite binary_normalize_opp.
  destruct (a - b)%Z eqn:E; [right; split; reflexivity | left; reflexivity ..].
Qed.

Lemma SFmul_opp_l (p e : Z) (x y : spec_float) :
  SFmul p e (SFopp x) y = SFopp (SFmul p e x y).
Proof.
  destruct x as [sx|sx| |sx mx ex], y as [sy|sy| |sy my ey];
    cbn [SFmul SFopp]; try reflexivity;
    try (destruct sx, sy; reflexivity).
  rewrite <- binary_round_aux_opp. destruct sx, sy; reflexivity.
Qed.

Lemma SFdiv_opp_l (p e : Z) (x y : spec_float) :
  SFdiv p e (SFopp x) y = SFopp (SFdiv p e x y).
Proof.
  destruct x as [sx|sx| |sx mx ex], y as [sy|sy| |sy my ey];
    cbn [SFdiv SFopp]; try reflexivity;
    try (destruct sx, sy; reflexivity).
  destruct (SFdiv_core_binary p e (Z.pos mx) ex (Z.pos my) ey)
    as [[mz ez] lz].
  rewrite <- binary_round_aux_opp. destruct sx, sy; reflexivity.
Qed.

Lemma SFmul_comm (p e : Z) (x y : spec_float) :
  SFmul p e x y = SFmul p e y x.
Proof.
  destruct x as [sx|sx| |sx mx ex], y as [sy|sy| |sy my ey];
    cbn [SFmul]; try reflexivity;
    try (destruct sx, sy; reflexivity).
  rewrite (Pos.mul_comm my mx), (Z.add_comm ey ex), (xorb_comm sy sx).
  reflexivity.
Qed.

Local Open Scope float_scope.

Lemma sub_anti (x y : float) :
  y - x = - (x - y) \/ (x - y = 0 /\ y - x = 0).
Proof.
  destruct (SFsub_anti prec emax (Prim2SF x) (Prim2SF y)) as [H | [H1 H2]].
  - left. apply Prim2SF_inj. rewrite opp_spec, !sub_spec. exact H.
  - right. split; apply Prim2SF_inj; rewrite sub_spec; assumption.
Qed.

Lemma mul_opp_l (x y : float) : - x * y = - (x * y).
Proof.
  apply Prim2SF_inj. rewrite opp_spec, !mul_spec, opp_spec.
  apply SFmul_opp_l.
Qed.

Lemma div_opp_l (x y : float) : - x / y = - (x / y).
Proof.
  apply Prim2SF_inj. rewrite opp_spec, !div_spec, opp_spec.
  apply SFdiv_opp_l.
Qed.

Lemma mul_comm (x y : float) : x * y = y * x.
Proof. apply Prim2SF_inj. rewrite !mul_spec. apply SFmul_comm. Qed.

Lemma opp_involutive (x : float) : - - x = x.
Proof.
  apply Prim2SF_inj. rewrite !opp_spec.
  destruct (Prim2SF x) as [s|s| |s m e]; cbn [SFopp];
    rewrite ?negb_involutive; reflexivity.
Qed.

Lemma abs_opp (x : float) : abs (- x) = abs x.
Proof.
  apply Prim2SF_inj. rewrite !abs_spec, opp_spec.
  destruct (Prim2SF x); reflexivity.
Qed.

Lemma is_nan_opp (x : float) : is_nan (- x) = is_nan x.
Proof.
  unfold is_nan. rewrite !eqb_spec, opp_spec.
  destruct (Prim2SF x) as [s|s| |s m e] eqn:E; cbn [SFopp];
    [| |reflexivity|]; rewrite !SFeqb_refl by discriminate; reflexivity.
Qed.

Lemma is_infinity_opp (x : float) : is_infinity (- x) = is_infinity x.
Proof. unfold is_infinity. rewrite abs_opp. reflexivity. Qed.

Lemma is_finite_opp (x : float) : is_finite (- x) = is_finite x.
Proof.
  unfold is_finite. rewrite is_nan_opp, is_infinity_opp. reflexivity.
Qed.

Lemma opp_nan (x : float) : is_nan x = true -> - x = x.
Proof.
  intros H. apply Prim2SF_inj. rewrite opp_spec, (is_nan_spec x H).
  reflexivity.
Qed.

(** The sign test of [float_pow]: [|x|] either way. *)
Lemma abs_by_sign (x : float) :
  (x =? 0) = false ->
  (if - x <? 0 then - - x else - x) = (if x <? 0 then - x else x).
Proof.
  intros H0. rewrite eqb_spec in H0. rewrite !ltb_spec, opp_spec.
  change (Prim2SF 0) with (S754_zero false) in *.
  destruct (Prim2SF x) as [s|s| |s m e] eqn:E; cbn [SFopp].
  - discriminate H0.
  - destruct s; cbn; [reflexivity | apply opp_involutive].
  - cbn. apply opp_nan. unfold is_nan. rewrite eqb_spec, E. reflexivity.
  - destruct s; cbn; [reflexivity | apply opp_involutive].
Qed.

Lemma eqb_zero_opp (x : float) : (- x =? 0) = (x =? 0).
Proof.
  rewrite !eqb_spec, opp_spec.
  destruct (Prim2SF x) as [s|s| |s m e]; try destruct s; reflexivity.
Qed.

End FloatSymmetry.

(** ** The distance between two points, both ways *)

Section Symmetry.

Variable M : libm.

Local Open Scope float_scope.

Lemma math_1_opp (f : float -> float) (x : float) :
  f (- x) = - f x ->
  math_1 f (- x)
  = match math_1 f x with
    | Ok r => Ok (- r)
    | Raise e => Raise e
    end.
Proof.
  intros H. unfold math_1.
  rewrite H, !is_nan_opp, !is_infinity_opp, is_finite_opp.
  destruct (is_nan (f x) && negb (is_nan x))%bool; [reflexivity|].
  destruct (is_infinity (f x) && is_finite x)%bool; reflexivity.
Qed.

Lemma float_pow_2_opp (x : float) : float_pow_2 M (- x) = float_pow_2 M x.
Proof.
  unfold float_pow_2. rewrite is_nan_opp, is_infinity_opp, eqb_zero_opp.
  destruct (is_nan x) eqn:En; [rewrite (opp_nan x En); reflexivity|].
  destruct (is_infinity x); [rewrite abs_opp; reflexivity|].
  destruct (x =? 0) eqn:E0; [reflexivity|].
  rewrite (abs_by_sign x E0). reflexivity.
Qed.

Hypothesis sin_odd : forall x, libm_sin M (- x) = - libm_sin M x.

Lemma c_sin_odd (x : float) : c_sin M (- x) = - c_sin M x.
Proof.
  unfold c_sin. rewrite is_infinity_opp.
  destruct (is_infinity x); [reflexivity | apply sin_odd].
Qed.

(** The squared sine of a half angle does not see the sign of the
    angle. *)
Lemma sin_squared_even (x x' : float) (k : float -> result float) :
  x' = - x \/ x' = x ->
  (let* s := math_sin M x' in let* h := float_pow_2 M s in k h)
  = (let* s := math_sin M x in let* h := float_pow_2 M s in k h).
Proof.
  intros [-> | ->]; [|reflexivity].
  unfold math_sin. rewrite (math_1_opp (c_sin M) x (c_sin_odd x)).
  destruct (math_1 (c_sin M) x) as [r|e]; cbn [bind]; [|reflexivity].
  rewrite float_pow_2_opp. reflexivity.
Qed.

Lemma half_angle_sym (a b : float) :
  math_radians (a - b) / 2 = - (math_radians (b - a) / 2)
  \/ math_radians (a - b) / 2 = math_radians (b - a) / 2.
Proof.
  unfold math_radians.
  destruct (sub_anti b a) as [H | [H1 H2]].
  - left. rewrite H, mul_opp_l, div_opp_l. reflexivity.
  - right. rewrite H1, H2. reflexivity.
Qed.

End Symmetry.

(** ** The distance of a point to itself *)

Section NoOverflow.

Lemma digits2_pos_log2 (p : positive) :
  Z.pos (digits2_pos p) = (Z.log2 (Z.pos p) + 1)%Z.
Proof.
  induction p as [p IH|p IH|]; cbn [digits2_pos]; [| |reflexivity].
  - rewrite Pos2Z.inj_succ, IH, Pos2Z.inj_xI, Z.log2_succ_double; lia.
  - rewrite Pos2Z.inj_succ, IH, Pos2Z.inj_xO, Z.log2_double; lia.
Qed.

Lemma Zdigits2_nonneg (m : Z) : (0 <= Zdigits2 m)%Z.
Proof. destruct m; cbn [Zdigits2]; lia. Qed.

Lemma Zdigits2_succ (m : Z) :
  (0 <= m)%Z -> (Zdigits2 (m + 1) <= Zdigits2 m + 1)%Z.
Proof.
  intros H. destruct m as [|p|p]; [cbn; lia | | lia].
  assert (Hs : (Z.pos p + 1 = Z.pos (p + 1))%Z) by lia.
  rewrite Hs. cbn [Zdigits2]. rewrite !digits2_pos_log2, <- Hs.
  pose proof (Z.log2_succ_le (Z.pos p)). unfold Z.succ in *. lia.
Qed.

Lemma Zdigits2_mul (a b : positive) :
  (Zdigits2 (Z.pos (a * b)) <= Zdigits2 (Z.pos a) + Zdigits2 (Z.pos b))%Z.
Proof.
  cbn [Zdigits2]. rewrite !digits2_pos_log2, Pos2Z.inj_mul.
  pose proof (Z.log2_mul_above (Z.pos a) (Z.pos b)). lia.
Qed.

Lemma shr_1_digits (mrs : shr_record) :
  (0 <= shr_m mrs)%Z ->
  (Zdigits2 (shr_m (shr_1 mrs)) <= Z.max (Zdigits2 (shr_m mrs) - 1) 0)%Z.
Proof.
  destruct mrs as [m r s]. cbn [shr_m].
  destruct m as [|[p|p|]|[p|p|]]; cbn [shr_1 shr_m Zdigits2 digits2_pos];
    lia.
Qed.

Lemma iter_shr_1_digits (p : positive) (mrs : shr_record) :
  (0 <= shr_m mrs)%Z ->
  (Zdigits2 (shr_m (iter_pos shr_1 p mrs))
   <= Z.max (Zdigits2 (shr_m mrs) - Z.pos p) 0)%Z.
Proof.
  revert mrs. induction p as [p IH|p IH|]; intros mrs H; cbn [iter_pos].
  - pose proof (shr_1_nonneg mrs H) as H1.
    pose proof (shr_1_digits mrs H) as D1.
    pose proof (iter_shr_1_nonneg p _ H1) as H2.
    pose proof (IH _ H1) as D2. pose proof (IH _ H2) as D3. lia.
  - pose proof (iter_shr_1_nonneg p _ H) as H1.
    pose proof (IH _ H) as D1. pose proof (IH _ H1) as D2. lia.
  - pose proof (shr_1_digits mrs H). lia.
Qed.

(** After the shift to the target exponent: the new exponent, and how far
    the mantissa still reaches. *)
Lemma shr_fexp_reach (p e m ex : Z) (l : location) :
  (0 <= m)%Z ->
  snd (shr_fexp p e m ex l) = Z.max ex (fexp p e (Zdigits2 m + ex))
  /\ (Zdigits2 (shr_m (fst (shr_fexp p e m ex l))) + snd (shr_fexp p e m ex l)
      <= Z.max (Zdigits2 m + ex) (fexp p e (Zdigits2 m + ex)))%Z.
Proof.
  intros H. unfold shr_fexp, shr.
  assert (H0 : shr_m (shr_record_of_loc m l) = m)
    by (destruct l as [|[]]; reflexivity).
  destruct (fexp p e (Zdigits2 m + ex) - ex)%Z as [|q|q] eqn:E;
    cbn [fst snd].
  - rewrite H0. lia.
  - pose proof (iter_shr_1_digits q (shr_record_of_loc m l)) as D.
    rewrite H0 in D. specialize (D H). lia.
  - rewrite H0. lia.
Qed.

Lemma round_nearest_even_cases (m : Z) (l : location) :
  round_nearest_even m l = m \/ round_nearest_even m l = (m + 1)%Z.
Proof.
  unfold round_nearest_even.
  destruct l as [|[]]; try destruct (IntDef.Z.even m); auto.
Qed.

(** A binary64 rounding whose input stays below the largest exponent
    gives a zero or a finite number, with the sign it was given. *)
Lemma binary_round_aux_no_overflow (s : bool) (m ex : Z) (l : location) :
  (0 <= m)%Z -> (ex <= 971)%Z -> (Zdigits2 m + ex <= 1023)%Z ->
  binary_round_aux prec emax s m ex l = S754_zero s
  \/ exists m' e', binary_round_aux prec emax s m ex l = S754_finite s m' e'.
Proof.
  intros Hm Hex Hd. unfold binary_round_aux.
  destruct (shr_fexp_reach prec emax m ex l Hm) as [E1 D1].
  pose proof (shr_fexp_nonneg prec emax m ex l Hm) as N1.
  destruct (shr_fexp prec emax m ex l) as [mrs' e1]. cbn [fst snd] in *.
  set (m1 := round_nearest_even (shr_m mrs') (loc_of_shr_record mrs')).
  assert (Hm1 : (0 <= m1)%Z) by (apply round_nearest_even_nonneg, N1).
  assert (Dm1 : (Zdigits2 m1 <= Zdigits2 (shr_m mrs') + 1)%Z).
  { unfold m1.
    destruct (round_nearest_even_cases (shr_m mrs') (loc_of_shr_record mrs'))
      as [-> | ->]; [lia | apply Zdigits2_succ, N1]. }
  destruct (shr_fexp_reach prec emax m1 e1 loc_Exact Hm1) as [E2 _].
  pose proof (shr_fexp_nonneg prec emax m1 e1 loc_Exact Hm1) as N2.
  destruct (shr_fexp prec emax m1 e1 loc_Exact) as [mrs'' e2].
  cbn [fst snd] in *.
  assert (He2 : (e2 <=? emax - prec)%Z = true).
  { apply Z.leb_le. subst e1 e2. revert D1 Dm1.
    unfold fexp, SpecFloat.emin.
    change prec with 53%Z. change emax with 1024%Z. lia. }
  destruct (shr_m mrs'') as [|q|q]; [left; reflexivity | | lia].
  rewrite He2. right. eauto.
Qed.

Lemma finite_bounds (x : float) (s : bool) (m : positive) (e : Z) :
  Prim2SF x = S754_finite s m e ->
  (Zdigits2 (Z.pos m) <= 53)%Z /\ (e <= 971)%Z.
Proof.
  intros H. pose proof (Prim2SF_valid x) as V. rewrite H in V.
  cbn [SpecFloat.valid_binary] in V. unfold bounded in V.
  apply andb_true_iff in V. destruct V as [V1 V2].
  unfold canonical_mantissa in V1. apply Z.eqb_eq in V1.
  apply Z.leb_le in V2. revert V1 V2. unfold fexp, SpecFloat.emin.
  change prec with 53%Z. change emax with 1024%Z. cbn [Zdigits2]. lia.
Qed.

Local Open Scope float_scope.

Lemma is_finite_spec (x : float) :
  is_finite x = true
  <-> (exists s, Prim2SF x = S754_zero s)
      \/ (exists s m e, Prim2SF x = S754_finite s m e).
Proof.
  unfold is_finite, is_nan, is_infinity.
  rewrite !eqb_spec, abs_spec.
  change (Prim2SF infinity) with (S754_infinity false).
  destruct (Prim2SF x) as [s|s| |s m e]; split.
  - intros _. left. eauto.
  - intros _. reflexivity.
  - destruct s; cbn; discriminate.
  - intros [(s' & H) | (s' & m & e & H)]; discriminate.
  - cbn. discriminate.
  - intros [(s' & H) | (s' & m & e & H)]; discriminate.
  - intros _. right. eauto.
  - intros _. rewrite SFeqb_refl by discriminate. reflexivity.
Qed.

Lemma sub_diag (x : float) : is_finite x = true -> x - x = 0.
Proof.
  intros H. apply Prim2SF_inj. rewrite sub_spec.
  change (Prim2SF 0) with (S754_zero false).
  apply is_finite_spec in H.
  destruct H as [(s & ->) | (s & m & e & ->)].
  - destruct s; reflexivity.
  - unfold SF64sub. cbn [SFsub]. cbv zeta. rewrite Z.sub_diag. reflexivity.
Qed.

(** Degrees to radians never overflows. *)
Lemma math_radians_finite (x : float) :
  is_finite x = true -> is_finite (math_radians x) = true.
Proof.
  intros H. apply is_finite_spec. unfold math_radians. rewrite mul_spec.
  assert (Hc : Prim2SF degToRad = S754_finite false 5030569068109113 (-58))
    by (vm_compute; reflexivity).
  rewrite Hc. apply is_finite_spec in H.
  destruct H as [(s & ->) | (s & m & e & Hx)].
  - left. cbn. eauto.
  - rewrite Hx. unfold SF64mul. cbn [SFmul].
    destruct (finite_bounds x s m e Hx) as [Hd He].
    pose proof (Zdigits2_mul m 5030569068109113) as Hp.
    assert (Hdc : Zdigits2 (Z.pos 5030569068109113) = 53%Z)
      by (vm_compute; reflexivity).
    destruct (binary_round_aux_no_overflow (xorb s false)
                (Z.pos (m * 5030569068109113)) (e + -58) loc_Exact)
      as [-> | (m' & e' & ->)]; [lia | lia | lia | eauto | eauto].
Qed.

(** A number of size at most one: its square does not overflow, and
    times zero it is zero. *)
Lemma bounded_by_one (c : float) :
  (abs c <=? 1) = true ->
  is_nan c = false /\ is_infinity c = false /\ c * c * 0 = 0.
Proof.
  intros H. rewrite leb_spec, abs_spec in H.
  change (Prim2SF 1) with (S754_finite false 4503599627370496 (-52)) in H.
  assert (Hsq : Prim2SF c = S754_nan \/ (exists s, Prim2SF c = S754_infinity s)
                \/ (is_finite c = true
                    /\ (Prim2SF (c * c) = S754_zero false
                        \/ exists m e, Prim2SF (c * c)
                                       = S754_finite false m e))).
  { rewrite mul_spec. unfold SF64mul.
    destruct (Prim2SF c) as [s|s| |s m e] eqn:E.
    - right; right. split; [apply is_finite_spec; left; eauto|].
      left. destruct s; reflexivity.
    - right; left. eauto.
    - left. reflexivity.
    - right; right. split; [apply is_finite_spec; right; eauto|].
      cbn [SFmul]. destruct (finite_bounds c s m e E) as [Hd _].
      pose proof (Zdigits2_mul m m) as Hp.
      assert (He : (e <= -52)%Z).
      { revert H. unfold SFleb, SFcompare. cbn [SFabs].
        destruct (Z.compare_spec e (-52)) as [Ec|Ec|Ec]; intros H';
          [lia | lia | discriminate H']. }
      replace (xorb s s) with false by (destruct s; reflexivity).
      apply binary_round_aux_no_overflow; lia. }
  destruct Hsq as [E | [(s & E) | (Hf & Hsq)]].
  - rewrite E in H. discriminate H.
  - rewrite E in H. discriminate H.
  - unfold is_finite in Hf. apply negb_true_iff, orb_false_iff in Hf.
    destruct Hf as [Hn Hi]. split; [exact Hn | split; [exact Hi|]].
    apply Prim2SF_inj. rewrite mul_spec.
    change (Prim2SF 0) with (S754_zero false).
    destruct Hsq as [-> | (m & e & ->)]; reflexivity.
Qed.

End NoOverflow.

Section Coincident.

Variable M : libm.

Local Open Scope float_scope.

Hypothesis sin_zero : libm_sin M 0 = 0.
Hypothesis atan2_zero : libm_atan2 M 0 1 = 0.
Hypothesis cos_bounded :
  forall x, is_finite x = true -> (abs (libm_cos M x) <=? 1) = true.

Lemma math_sin_zero : math_sin M 0 = Ok 0.
Proof.
  unfold math_sin, math_1.
  assert (E : c_sin M 0 = 0) by exact sin_zero.
  rewrite E. reflexivity.
Qed.

Lemma math_cos_bounded (x : float) :
  is_finite x = true ->
  math_cos M x = Ok (libm_cos M x)
  /\ libm_cos M x * libm_cos M x * 0 = 0.
Proof.
  intros H. destruct (bounded_by_one _ (cos_bounded x H)) as (Hn & Hi & Hz).
  split; [|exact Hz].
  unfold math_cos, math_1, c_cos.
  unfold is_finite in H. apply negb_true_iff, orb_false_iff in H.
  destruct H as [_ Hx]. rewrite Hx, Hn, Hi. reflexivity.
Qed.

End Coincident.

(** C7, as the code has it.  On a C library whose sine is odd the distance
    is symmetric for all pairs of points: both ways it is the same number
    or the same exception.  On a C library with [sin(0) = 0],
    [atan2(0, 1) = 0] and a cosine of size at most one on finite angles,
    the distance of a point with finite coordinates to itself is [0]. *)
Theorem great_circle_distance_symmetric_and_zero (M : libm) :
  ((forall x, libm_sin M (- x) = (- libm_sin M x)%float) ->
   forall lat1 lon1 lat2 lon2,
     great_circle_distance M lat1 lon1 lat2 lon2
     = great_circle_distance M lat2 lon2 lat1 lon1)
  /\ (libm_sin M 0 = 0%float ->
      libm_atan2 M 0 1 = 0%float ->
      (forall x, is_finite x = true ->
                 (abs (libm_cos M x) <=? 1)%float = true) ->
      forall lat lon,
        is_finite lat = true -> is_finite lon = true ->
        great_circle_distance M lat lon lat lon = Ok 0%float).
Proof.
  split.
  - intros sin_odd lat1 lon1 lat2 lon2.
    unfold great_circle_distance. cbv zeta.
    rewrite (sin_squared_even M sin_odd _ _ _ (half_angle_sym lat1 lat2)).
    destruct (math_sin M (math_radians (lat2 - lat1) / 2)) as [s1|e];
      cbn [bind]; [|reflexivity].
    destruct (float_pow_2 M s1) as [h1|e]; cbn [bind]; [|reflexivity].
    destruct (math_cos M (math_radians lat1)) as [c1|e1] eqn:E1;
      destruct (math_cos M (math_radians lat2)) as [c2|e2] eqn:E2;
      cbn [bind]; try reflexivity.
    2:{ apply math_1_exn in E1, E2. subst. reflexivity. }
    rewrite (sin_squared_even M sin_odd _ _ _ (half_angle_sym lon1 lon2)).
    destruct (math_sin M (math_radians (lon2 - lon1) / 2)) as [s2|e];
      cbn [bind]; [|reflexivity].
    destruct (float_pow_2 M s2) as [h2|e]; cbn [bind]; [|reflexivity].
    rewrite (mul_comm c2 c1). reflexivity.
  - intros sin_zero atan2_zero cos_bounded lat lon Hlat Hlon.
    unfold great_circle_distance. cbv zeta.
    rewrite (sub_diag lat Hlat), (sub_diag lon Hlon).
    assert (E0 : (math_radians 0 / 2 = 0)%float) by (vm_compute; reflexivity).
    rewrite E0, (math_sin_zero M sin_zero). cbn [bind].
    assert (Ep : float_pow_2 M 0 = Ok 0%float) by reflexivity.
    rewrite Ep. cbn [bind].
    destruct (math_cos_bounded M cos_bounded _
                (math_radians_finite lat Hlat)) as [Ec Hz].
    rewrite Ec. cbn [bind]. rewrite Hz.
    assert (Hq1 : math_sqrt (0 + 0) = Ok 0%float) by (vm_compute; reflexivity).
    assert (Hq2 : math_sqrt (1 - (0 + 0)) = Ok 1%float)
      by (vm_compute; reflexivity).
    rewrite Hq1, Hq2. cbn [bind].
    unfold math_atan2, math_2. rewrite atan2_zero. vm_compute. reflexivity.
Qed.

(** Witness for C7, on the first-order library: two centroids, and the
    first centroid twice. *)
Lemma great_circle_distance_symmetric_and_zero_witness :
  great_circle_distance first_order_libm 25.0112 121.4637 24.9990 121.4870
  = great_circle_distance first_order_libm 24.9990 121.4870 25.0112 121.4637
  /\ great_circle_distance first_order_libm 25.0112 121.4637 25.0112 121.4637
     = Ok 0%float.
Proof.
  destruct (great_circle_distance_symmetric_and_zero first_order_libm)
    as [Hs Hz].
  split.
  - apply Hs. intros x. reflexivity.
  - apply Hz; reflexivity.
Defined.

(** C7, as stated, fails at a point with an infinite latitude, on every C
    library: the angle between the point and itself is NaN, the cosine of
    its latitude is a [ValueError], and the distance of the point to
    itself is an exception, not [0]. *)
Lemma great_circle_distance_to_itself_raises :
  (forall (M : libm) (lon : float),
      exists e, great_circle_distance M infinity lon infinity lon = Raise e)
  /\ great_circle_distance taylor_libm infinity 121.4637 infinity 121.4637
     = Raise ValueError.
Proof.
  split; [|vm_compute; reflexivity].
  intros M lon. unfold great_circle_distance. cbv zeta.
  assert (E1 : (math_radians (infinity - infinity) / 2 = nan)%float)
    by (vm_compute; reflexivity).
  assert (E2 : math_radians infinity = infinity) by (vm_compute; reflexivity).
  rewrite E1, E2.
  assert (Es : math_sin M nan = Ok (libm_sin M nan)).
  { unfold math_sin, math_1.
    replace (c_sin M nan) with (libm_sin M nan) by reflexivity.
    replace (negb (is_nan nan)) with false by reflexivity.
    replace (is_finite nan) with false by reflexivity.
    rewrite !andb_false_r. reflexivity. }
  rewrite Es. cbn [bind].
  destruct (float_pow_2 M (libm_sin M nan)) as [h|e]; cbn [bind]; [|eauto].
  assert (Ec : math_cos M infinity = Raise ValueError)
    by (vm_compute; reflexivity).
  rewrite Ec. cbn [bind]. eauto.
Qed.
